(** * Roman numeral converter: codec, history ledger and persistence

    A shallow embedding of [Roman_Numeral_Converter.py]: the two
    converters, [print_conversion], the history, the factory, the
    conversion system with its four save and load methods, and the menu
    loop of the script.

    Python values are modelled by the type [value], text by sequences of
    Unicode code points, exceptions by the type [exn], and the objects the
    program shares by reference (the list of the history and its record
    dictionaries) by a heap.  Methods with effects run in a world: the
    heap, the files and the standard output.

    What the interpreter and its library do is modelled for CPython 3.11
    or later on a POSIX system: text files are UTF-8 and ["
"] is written
    as it is; the [csv] module is modelled for its default dialect.  The
    files are a map from names to contents: every name can be opened for
    writing, and a file that is not there is the only failure of opening
    one for reading. *)

From Stdlib Require Import ZArith NArith List Lia Bool Ascii String.
From Stdlib Require Import DecimalString DecimalFacts.
From stdpp Require Import base option list gmap.
Import ListNotations.

Local Open Scope Z_scope.

(** ** Python text *)

(** A character is a Unicode code point; a [str] is a sequence of them. *)
Abbreviation char := N (only parsing).
Abbreviation str := (list N) (only parsing).

(** [ord(c)] for an ASCII character. *)
Definition ord (a : ascii) : char := N_of_ascii a.

(** An ASCII literal of the source, as a [str]. *)
Definition lit (s : string) : str := map N_of_ascii (list_ascii_of_string s).
Arguments lit : simpl never.

(** The arrow U+2192 that the human-readable format uses. *)
Definition arrow : char := 8594%N.
Definition LF : char := 10%N.
Definition CR : char := 13%N.

(** ** Python values and exceptions *)

Inductive value : Type :=
| VNone
| VInt (n : Z)
| VStr (s : str).

#[global] Instance value_eq_dec : EqDecision value.
Proof. solve_decision. Defined.

Inductive exn : Type :=
| KeyError (key : str)
| ValueError (msg : str)
| TypeError (msg : str)
| csv_Error (msg : str).

(** A call returns, raises, or (for a loop that never ends) diverges. *)
Inductive outcome (A : Type) : Type :=
| Return (a : A)
| Raise (e : exn)
| Diverge.
Arguments Return {A} a.
Arguments Raise {A} e.
Arguments Diverge {A}.

Definition obind {A B} (m : outcome A) (k : A -> outcome B) : outcome B :=
  match m with
  | Return a => k a
  | Raise e => Raise e
  | Diverge => Diverge
  end.

#[global] Instance outcome_ret : MRet outcome := @Return.
#[global] Instance outcome_bind : MBind outcome := fun A B k m => obind m k.

(** [for x in xs: body], threading the loop variables [s]. *)
Fixpoint for_each {A S} (body : S -> A -> outcome S) (xs : list A) (s : S)
  : outcome S :=
  match xs with
  | [] => Return s
  | x :: xs' => s' ← body s x; for_each body xs' s'
  end.

(** ** Operations on text *)

(** [str(n)] for an integer: its decimal digits, with a minus sign.  The
    model renders every integer; CPython 3.11 raises [ValueError] for
    one of more than 4300 digits.  What is proved about text made of an
    integer is stated for the integers that [renders] (below) admits, or
    for the integers [convert] makes. *)
Definition str_of_int (n : Z) : str := lit (NilZero.string_of_int (Z.to_int n)).

(** [str(v)], as an f-string renders a value. *)
Definition py_str (v : value) : str :=
  match v with
  | VNone => lit "None"
  | VInt n => str_of_int n
  | VStr s => s
  end.

(** [c.isspace()]: the characters that [strip()] removes. *)
Definition isspace (c : char) : bool :=
  ((9 <=? c) && (c <=? 13) || (28 <=? c) && (c <=? 32)
   || (c =? 133) || (c =? 160) || (c =? 5760)
   || (8192 <=? c) && (c <=? 8202)
   || (c =? 8232) || (c =? 8233) || (c =? 8239) || (c =? 8287)
   || (c =? 12288))%N.

Fixpoint lstrip_by (p : char -> bool) (s : str) : str :=
  match s with
  | [] => []
  | c :: s' => if p c then lstrip_by p s' else s
  end.

Definition rstrip_by (p : char -> bool) (s : str) : str :=
  reverse (lstrip_by p (reverse s)).

(** [s.strip()] *)
Definition strip (s : str) : str := rstrip_by isspace (lstrip_by isspace s).

(** [s.rstrip(chars)] *)
Definition rstrip (chars : str) (s : str) : str :=
  rstrip_by (fun c => bool_decide (c ∈ chars)) s.

(** [s.startswith(sub)] *)
Fixpoint startswith (sub s : str) : bool :=
  match sub, s with
  | [], _ => true
  | _ :: _, [] => false
  | a :: sub', b :: s' => (a =? b)%N && startswith sub' s'
  end.

(** [sub in s] *)
Fixpoint contains (sub s : str) : bool :=
  startswith sub s ||
  match s with
  | [] => false
  | _ :: s' => contains sub s'
  end.

(** [s.split(sep)] for a separator that is not empty: the pieces between
    the occurrences of [sep], found from the left and not overlapping.
    [skip] counts the characters of a found separator still to be passed,
    [cur] is the piece being read. *)
Fixpoint split_go (sep s : str) (skip : nat) (cur : str) : list str :=
  match s with
  | [] => [cur]
  | c :: s' =>
      match skip with
      | S k => split_go sep s' k cur
      | O =>
          if startswith sep s
          then cur :: split_go sep s' (length sep - 1) []
          else split_go sep s' 0 (cur ++ [c])
      end
  end.

Definition split (sep s : str) : list str := split_go sep s 0 [].

(** [sep.join(parts)] *)
Fixpoint join (sep : str) (parts : list str) : str :=
  match parts with
  | [] => []
  | [p] => p
  | p :: ps => p ++ sep ++ join sep ps
  end.

(** Reading a text file translates the line ends ["\r\n"] and ["\r"] to
    ["\n"] (universal newlines). *)
Fixpoint universal_newlines (s : str) : str :=
  match s with
  | [] => []
  | c :: s' =>
      if (c =? CR)%N then
        LF :: match s' with
              | c' :: s'' =>
                  if (c' =? LF)%N then universal_newlines s''
                  else universal_newlines s'
              | [] => []
              end
      else c :: universal_newlines s'
  end.

(** [for line in file]: the lines of a text, each with its ["\n"]; the last
    one has none when the text does not end with one. *)
Fixpoint lines_go (s : str) (cur : str) : list str :=
  match s with
  | [] => match cur with [] => [] | _ => [cur] end
  | c :: s' =>
      if (c =? LF)%N then (cur ++ [c]) :: lines_go s' []
      else lines_go s' (cur ++ [c])
  end.

Definition readlines (content : str) : list str :=
  lines_go (universal_newlines content) [].

(** ** The codec *)

(** The abstract class [NumeralConverter]: an object with a [convert]
    method. *)
Record NumeralConverter : Type := mkConverter {
  convert : value -> outcome value;
}.

Module RomanToDecimalConverter.

Definition _roman_values : gmap N Z :=
  list_to_map
    [ (ord "I", 1); (ord "V", 5); (ord "X", 10); (ord "L", 50);
      (ord "C", 100); (ord "D", 500); (ord "M", 1000) ].

(** [self._roman_values[char]] *)
Definition getitem (c : char) : outcome Z :=
  match _roman_values !! c with
  | Some v => Return v
  | None => Raise (KeyError [c])
  end.

(** The body of the loop, on the loop variables [(total, prev_value)]. *)
Definition body (acc : Z * Z) (c : char) : outcome (Z * Z) :=
  let '(total, prev_value) := acc in
  v ← getitem c;
  Return (if v <? prev_value then total - v else total + v, v).

Definition convert (roman : value) : outcome value :=
  match roman with
  | VStr s =>
      acc ← for_each body (reverse s) (0, 0);
      Return (VInt (fst acc))
  | VInt _ => Raise (TypeError (lit "'int' object is not reversible"))
  | VNone => Raise (TypeError (lit "'NoneType' object is not reversible"))
  end.

(** [RomanToDecimalConverter()] *)
Definition new : NumeralConverter := mkConverter convert.

End RomanToDecimalConverter.

Module DecimalToRomanConverter.

Definition _value_map : list (Z * str) :=
  [ (1000, lit "M"); (900, lit "CM"); (500, lit "D"); (400, lit "CD");
    (100, lit "C"); (90, lit "XC"); (50, lit "L"); (40, lit "XL");
    (10, lit "X"); (9, lit "IX"); (5, lit "V"); (4, lit "IV");
    (1, lit "I") ].

(** [while num >= value: result.append(numeral); num -= value], with at
    most [fuel] iterations. *)
Fixpoint while_fuel (fuel : nat) (v : Z) (numeral : str)
    (num : Z) (result : list str) : outcome (Z * list str) :=
  if num >=? v then
    match fuel with
    | O => Diverge
    | S fuel' => while_fuel fuel' v numeral (num - v) (result ++ [numeral])
    end
  else Return (num, result).

(** With [v] positive the loop body runs at most [num] times; with [v]
    zero or negative and [num >= v] it runs for ever.  The bound [num]
    therefore separates the two. *)
Definition while_loop (v : Z) (numeral : str) (num : Z) (result : list str)
  : outcome (Z * list str) :=
  while_fuel (Z.to_nat num) v numeral num result.

Definition body (acc : Z * list str) (entry : Z * str)
  : outcome (Z * list str) :=
  let '(num, result) := acc in
  let '(v, numeral) := entry in
  while_loop v numeral num result.

Definition convert (num : value) : outcome value :=
  match num with
  | VInt n =>
      if negb ((0 <? n) && (n <? 4000)) then
        Raise (ValueError (lit "Number must be between 1 and 3999"))
      else
        acc ← for_each body _value_map (n, []);
        Return (VStr (concat (snd acc)))
  | VStr _ =>
      Raise (TypeError
        (lit "'<' not supported between instances of 'int' and 'str'"))
  | VNone =>
      Raise (TypeError
        (lit "'<' not supported between instances of 'int' and 'NoneType'"))
  end.

(** [DecimalToRomanConverter()] *)
Definition new : NumeralConverter := mkConverter convert.

End DecimalToRomanConverter.

(** ** The heap and the world

    Lists and dictionaries are objects with an identity: two references to
    the same object see each other's updates.  The heap maps a location to
    the object that lives there; objects are never freed. *)

Abbreviation loc := nat (only parsing).

(** A history record: the dictionary with the keys ['input'], ['output']
    and ['type'] that [add_record] builds. *)
Record record : Type := mkRecord {
  input : value;
  output : value;
  type : value;
}.

Inductive object : Type :=
| ODict (d : record)
| OList (items : list loc).

Record world : Type := mkWorld {
  heap : list object;
  files : gmap str str;
  stdout : list str;
}.

Definition set_heap (h : list object) (w : world) : world :=
  mkWorld h (files w) (stdout w).
Definition set_files (fs : gmap str str) (w : world) : world :=
  mkWorld (heap w) fs (stdout w).

(** A method runs in a world, changes it, and returns, raises or diverges.
    The changes made before an exception is raised stay. *)
Definition M (A : Type) : Type := world -> outcome A * world.

Definition mret {A} (a : A) : M A := fun w => (Return a, w).
Definition mraise {A} (e : exn) : M A := fun w => (Raise e, w).
Definition mbind' {A B} (m : M A) (k : A -> M B) : M B :=
  fun w =>
    match m w with
    | (Return a, w') => k a w'
    | (Raise e, w') => (Raise e, w')
    | (Diverge, w') => (Diverge, w')
    end.
Definition lift {A} (o : outcome A) : M A := fun w => (o, w).

#[global] Instance M_ret : MRet M := @mret.
#[global] Instance M_bind : MBind M := fun A B k m => mbind' m k.

(** [for x in xs: body] for a body with effects. *)
Fixpoint for_eachM {A} (body : A -> M unit) (xs : list A) : M unit :=
  match xs with
  | [] => mret tt
  | x :: xs' => mbind' (body x) (fun _ => for_eachM body xs')
  end.

(** A new object gets the next free location. *)
Definition alloc (o : object) : M loc :=
  fun w => (Return (length (heap w)), set_heap (heap w ++ [o]) w).

(** [l.append(x)] on the list object at [l].  No reachable state holds a
    reference to anything else than the object it was made for; the model
    raises if it is asked to append to something that is not a list. *)
Definition list_append (l : loc) (x : loc) : M unit :=
  fun w =>
    match heap w !! l with
    | Some (OList items) =>
        (Return tt, set_heap (<[l := OList (items ++ [x])]> (heap w)) w)
    | _ => (Raise (TypeError (lit "object has no attribute 'append'")), w)
    end.

(** [l.copy()]: a new list object with the same items (a shallow copy). *)
Definition list_copy (l : loc) : M loc :=
  fun w =>
    match heap w !! l with
    | Some (OList items) => alloc (OList items) w
    | _ => (Raise (TypeError (lit "object has no attribute 'copy'")), w)
    end.

(** What a caller can do to an object it holds a reference to:
    [l[:] = items], any change of the contents of a list object, and
    [d['input'] = v] on a record dictionary. *)
Definition list_assign (l : loc) (items : list loc) : M unit :=
  fun w =>
    match heap w !! l with
    | Some (OList _) => (Return tt, set_heap (<[l := OList items]> (heap w)) w)
    | _ => (Raise (TypeError (lit "object does not support slice assignment")), w)
    end.

Definition dict_set_input (a : loc) (v : value) : M unit :=
  fun w =>
    match heap w !! a with
    | Some (ODict d) =>
        (Return tt,
         set_heap (<[a := ODict (mkRecord v (output d) (type d))]> (heap w)) w)
    | _ => (Raise (TypeError (lit "object does not support item assignment")), w)
    end.

(** [print(line)] *)
Definition print (line : str) : M unit :=
  fun w => (Return tt, mkWorld (heap w) (files w) (stdout w ++ [line])).

(** [print_conversion(converter, value)], for any converter. *)
Definition print_conversion (converter : NumeralConverter) (v : value)
  : M unit :=
  result ← lift (converter.(convert) v);
  print (lit "Converted value: " ++ py_str result).

(** ** The history ledger *)

Module ConversionHistory.

(** The object: its one attribute refers to a list object. *)
Record t : Type := mk { _history : loc }.

Definition __init__ : M t :=
  l ← alloc (OList []); mret (mk l).

Definition add_record (self : t) (from_val to_val direction : value)
  : M unit :=
  d ← alloc (ODict (mkRecord from_val to_val direction));
  list_append (_history self) d.

Definition get_history (self : t) : M loc :=
  list_copy (_history self).

End ConversionHistory.

(** What a list object holds, with the dictionaries read through: the
    sequence of records one sees when iterating over the list at [l]. *)
Definition dict_at (w : world) (a : loc) : option record :=
  match heap w !! a with
  | Some (ODict d) => Some d
  | _ => None
  end.

Definition items_at (w : world) (l : loc) : option (list loc) :=
  match heap w !! l with
  | Some (OList items) => Some items
  | _ => None
  end.

Definition records_at (w : world) (l : loc) : option (list record) :=
  items ← items_at w l; mapM (dict_at w) items.

(** [holds h l rs]: in the heap [h] the list object at [l] refers, in
    order, to dictionaries with the contents [rs]. *)
Definition holds (h : list object) (l : loc) (rs : list record) : Prop :=
  exists items,
    h !! l = Some (OList items)
    /\ Forall2 (fun a d => h !! a = Some (ODict d)) items rs.

(** [for a in l], reading the list object once, and [record = heap[a]]. *)
Definition list_items (l : loc) : M (list loc) :=
  fun w =>
    match items_at w l with
    | Some items => (Return items, w)
    | None => (Raise (TypeError (lit "object is not iterable")), w)
    end.

Definition get_dict (a : loc) : M record :=
  fun w =>
    match dict_at w a with
    | Some d => (Return d, w)
    | None => (Raise (TypeError (lit "object is not subscriptable")), w)
    end.

(** ** The factory *)

Module ConverterFactory.

(** The one instance's [converters] dictionary. *)
Definition converters : gmap str NumeralConverter :=
  {[ lit "roman" := RomanToDecimalConverter.new;
     lit "decimal" := DecimalToRomanConverter.new ]}.

(** [self.converters.get(converter_type)]: [None] for an unknown key. *)
Definition get_converter (converter_type : str) : option NumeralConverter :=
  converters !! converter_type.

End ConverterFactory.

(** ** Files

    The files of a world are a map from names to texts.  A name in the
    map is a regular file that can be read and whose bytes are the UTF-8
    encoding of the text; a name that is not in the map is a file that is
    not there.  What the model leaves out, and the hypotheses that stand
    for it where a theorem needs them:
    - a file that is there but does not decode (the code raises
      [UnicodeDecodeError], which nothing catches): a theorem about
      loading asks that the text of the file is [valid_text], a sequence
      of Unicode scalar values, which is what decoding gives;
    - a text or a field that cannot be encoded, or an integer that
      [str()] refuses: a theorem about saving asks that the fields
      [renders];
    - a name that cannot be opened ([''], a directory, a missing
      directory, no permission): every name can be opened for writing,
      and a file that is there can be opened for reading.  The theorems
      say what the methods do once the file is open. *)

(** [open(filename, 'w')]: the file is created, or emptied. *)
Definition open_w (filename : str) : M unit :=
  fun w => (Return tt, set_files (<[filename := []]> (files w)) w).

(** [file.write(text)] on a file opened for writing. *)
Definition file_write (filename : str) (text : str) : M unit :=
  fun w =>
    (Return tt,
     set_files (<[filename := default [] (files w !! filename) ++ text]>
                  (files w)) w).

(** ** The [csv] module

    The writer and the reader of Python's library, after its sources
    ([Modules/_csv.c], [Lib/csv.py]), for the default dialect ([excel]):
    delimiter [,], a double quote as quote character, doubled inside a
    quoted field, minimal quoting, rows ended by ["\r\n"], not strict. *)

Module csv.

Definition delimiter : char := ord ",".
Definition quotechar : char := 34%N.
Definition lineterminator : str := [CR; LF].
Definition field_limit : N := 131072%N.

(** What the writer makes of a field: [None] is empty, a string is
    itself, anything else goes through [str()]. *)
Definition field_text (v : value) : str :=
  match v with
  | VNone => []
  | VInt n => str_of_int n
  | VStr s => s
  end.

Definition must_quote (c : char) : bool :=
  ((c =? delimiter) || (c =? quotechar))%N
  || bool_decide (c ∈ lineterminator).

Definition join_append (field : str) : str :=
  if existsb must_quote field then
    [quotechar]
      ++ flat_map (fun c => if (c =? quotechar)%N then [c; c] else [c]) field
      ++ [quotechar]
  else field.

(** [writer.writerow(row)]: the text written.  A row of one empty field
    is written as a pair of quotes. *)
Definition writerow (row : list value) : str :=
  let body := join [delimiter] (join_append ∘ field_text <$> row) in
  (match row, body with
   | _ :: _, [] => [quotechar; quotechar]
   | _, _ => body
   end) ++ lineterminator.

(** The reader's parser.  The messages of its two errors are those of
    CPython 3.11; the one for a line end inside a field cannot be
    reached from a file read as text, whose lines have a line feed at
    their end only. *)
Inductive ParserState : Type :=
| START_RECORD
| START_FIELD
| IN_FIELD
| IN_QUOTED_FIELD
| QUOTE_IN_QUOTED_FIELD
| EAT_CRNL.

Record Reader : Type := mkReader {
  state : ParserState;
  fields : list str;
  field : str;
}.

Definition parse_reset : Reader := mkReader START_RECORD [] [].

Definition set_state (st : ParserState) (r : Reader) : Reader :=
  mkReader st (fields r) (field r).

Definition parse_save_field (r : Reader) : Reader :=
  mkReader (state r) (fields r ++ [field r]) [].

Definition parse_add_char (r : Reader) (c : char) : outcome Reader :=
  if (field_limit <=? N.of_nat (length (field r)))%N then
    Raise (csv_Error (lit "field larger than field limit (131072)"))
  else Return (mkReader (state r) (fields r) (field r ++ [c])).

Definition is_nl (c : char) : bool := ((c =? LF) || (c =? CR))%N.

(** The end of a field at a line end: [c] is [None] at the end of the
    line the reader was given, a newline character before it. *)
Definition end_of_line (r : Reader) (c : option char) : Reader :=
  set_state (match c with None => START_RECORD | Some _ => EAT_CRNL end)
    (parse_save_field r).

Definition start_field (r : Reader) (c : option char) : outcome Reader :=
  match c with
  | None => Return (end_of_line r c)
  | Some ch =>
      if is_nl ch then Return (end_of_line r c)
      else if (ch =? quotechar)%N then Return (set_state IN_QUOTED_FIELD r)
      else if (ch =? delimiter)%N then Return (parse_save_field r)
      else r' ← parse_add_char r ch; Return (set_state IN_FIELD r')
  end.

Definition parse_process_char (r : Reader) (c : option char)
  : outcome Reader :=
  match state r with
  | START_RECORD =>
      match c with
      | None => Return r
      | Some ch =>
          if is_nl ch then Return (set_state EAT_CRNL r)
          else start_field (set_state START_FIELD r) c
      end
  | START_FIELD => start_field r c
  | IN_FIELD =>
      match c with
      | None => Return (end_of_line r c)
      | Some ch =>
          if is_nl ch then Return (end_of_line r c)
          else if (ch =? delimiter)%N
          then Return (set_state START_FIELD (parse_save_field r))
          else parse_add_char r ch
      end
  | IN_QUOTED_FIELD =>
      match c with
      | None => Return r
      | Some ch =>
          if (ch =? quotechar)%N then Return (set_state QUOTE_IN_QUOTED_FIELD r)
          else parse_add_char r ch
      end
  | QUOTE_IN_QUOTED_FIELD =>
      match c with
      | None => Return (end_of_line r c)
      | Some ch =>
          if (ch =? quotechar)%N then
            r' ← parse_add_char r ch; Return (set_state IN_QUOTED_FIELD r')
          else if (ch =? delimiter)%N
          then Return (set_state START_FIELD (parse_save_field r))
          else if is_nl ch then Return (end_of_line r c)
          else r' ← parse_add_char r ch; Return (set_state IN_FIELD r')
      end
  | EAT_CRNL =>
      match c with
      | None => Return (set_state START_RECORD r)
      | Some ch =>
          if is_nl ch then Return r
          else Raise (csv_Error (lit "new-line character seen in unquoted field - do you need to open the file in universal-newline mode?"))
      end
  end.

(** One line of the file: its characters, then the end of the line. *)
Definition parse_line (r : Reader) (line : str) : outcome Reader :=
  r' ← for_each (fun r c => parse_process_char r (Some c)) line r;
  parse_process_char r' None.

(** The dictionary a [DictReader] makes of a row: the field names zipped
    with the fields, a later name winning over an earlier equal one, and
    [None] for the names the row is too short for.  (Fields beyond the
    names go under the key [None], which no string key reads.) *)
Definition DictReader_dict (fieldnames row : list str) : gmap str value :=
  list_to_map
    (reverse (zip fieldnames (VStr <$> row)
          ++ ((fun k => (k, VNone)) <$> drop (length row) fieldnames))).

(** What a [DictReader] does with a row of the reader: the first row gives
    the field names, an empty row is passed over, any other row is handed
    to the loop body as a dictionary. *)
Definition DictReader_row (body : gmap str value -> M unit)
    (fieldnames : option (list str)) (row : list str)
    (k : option (list str) -> M unit) : M unit :=
  match fieldnames with
  | None => k (Some row)
  | Some fn =>
      match row with
      | [] => k fieldnames
      | _ => _ ← body (DictReader_dict fn row); k fieldnames
      end
  end.

(** [for row in csv.DictReader(file): body], over the lines of the file.
    A row is complete when the parser is back at the start of a record at
    the end of a line; it is handed to the body before the next line is
    read.  At the end of the file an unfinished quoted field, or a field
    with characters, still makes a row. *)
Fixpoint DictReader_for (body : gmap str value -> M unit)
    (fieldnames : option (list str)) (r : Reader) (lines : list str)
  : M unit :=
  match lines with
  | [] =>
      match field r, state r with
      | [], (START_RECORD | START_FIELD | IN_FIELD
             | QUOTE_IN_QUOTED_FIELD | EAT_CRNL) => mret tt
      | _, _ =>
          DictReader_row body fieldnames (fields (parse_save_field r))
            (fun _ => mret tt)
      end
  | line :: rest =>
      match parse_line r line with
      | Return r' =>
          match state r' with
          | START_RECORD =>
              DictReader_row body fieldnames (fields r')
                (fun fn => DictReader_for body fn parse_reset rest)
          | _ => DictReader_for body fieldnames r' rest
          end
      | Raise e => mraise e
      | Diverge => lift Diverge
      end
  end.

(** [row[key]] *)
Definition getitem (d : gmap str value) (key : str) : M value :=
  match d !! key with
  | Some v => mret v
  | None => mraise (KeyError key)
  end.

End csv.

(** ** The conversion system *)

Module ConversionSystem.

(** The object: the factory is the one shared instance, the history is
    the system's own. *)
Record t : Type := mk { history : ConversionHistory.t }.

Definition __init__ : M t :=
  h ← ConversionHistory.__init__; mret (mk h).

Definition convert (self : t) (v : value) (conversion_type : str) : M value :=
  match ConverterFactory.get_converter conversion_type with
  | None =>
      mraise (ValueError (lit "Invalid conversion type: " ++ conversion_type))
  | Some converter =>
      result ← lift (converter.(convert) v);
      _ ← (if bool_decide (conversion_type = lit "roman")
           then ConversionHistory.add_record (history self) v result
                  (VStr (lit "roman"))
           else ConversionHistory.add_record (history self) v result
                  (VStr (lit "decimal")));
      mret result
  end.

Definition fieldnames : list str := [lit "input"; lit "output"; lit "type"].

(** The row a [DictWriter] with these field names makes of a record. *)
Definition _dict_to_list (d : record) : list value :=
  [input d; output d; type d].

Definition save_to_csv (self : t) (filename : str) : M unit :=
  _ ← open_w filename;
  _ ← file_write filename (csv.writerow (VStr <$> fieldnames));
  snapshot ← ConversionHistory.get_history (history self);
  items ← list_items snapshot;
  _ ← for_eachM
        (fun a => d ← get_dict a;
                  file_write filename (csv.writerow (_dict_to_list d)))
        items;
  print (lit "History saved to " ++ filename).

(** The label of a record's direction in the text format. *)
Definition direction_label (d : record) : str :=
  if bool_decide (type d = VStr (lit "roman"))
  then lit "Roman" ++ [arrow] ++ lit "Decimal"
  else lit "Decimal" ++ [arrow] ++ lit "Roman".

Definition txt_line (d : record) : str :=
  py_str (input d) ++ lit " " ++ [arrow] ++ lit " " ++ py_str (output d)
    ++ lit " (" ++ direction_label d ++ lit ")" ++ [LF].

Definition save_to_txt (self : t) (filename : str) : M unit :=
  _ ← open_w filename;
  _ ← file_write filename (lit "Conversion History:" ++ [LF]);
  _ ← file_write filename (lit "==================" ++ [LF]);
  snapshot ← ConversionHistory.get_history (history self);
  items ← list_items snapshot;
  _ ← for_eachM
        (fun a => d ← get_dict a; file_write filename (txt_line d))
        items;
  print (lit "History saved to " ++ filename).

(** The two loaders read a file that is there as text; the one failure
    of [open] they handle, and the one the model has, is
    [FileNotFoundError]. *)
Definition load_from_csv (self : t) (filename : str) : M unit :=
  fun w =>
    match files w !! filename with
    | None => print (lit "Error: " ++ filename ++ lit " not found") w
    | Some content =>
        (_ ← csv.DictReader_for
               (fun row =>
                  i ← csv.getitem row (lit "input");
                  o ← csv.getitem row (lit "output");
                  ty ← csv.getitem row (lit "type");
                  ConversionHistory.add_record (history self) i o ty)
               None csv.parse_reset (readlines content);
         print (lit "History loaded from " ++ filename)) w
    end.

(** The body of the loop of [load_from_txt], for one line. *)
Definition load_txt_line (self : t) (line : str) : M unit :=
  if contains [arrow] line then
    match split (lit " " ++ [arrow] ++ lit " ") (strip line) with
    | [input_val; rest] =>
        match split (lit " (") rest with
        | [output_val; conv_type] =>
            let conv_type := rstrip (lit ")") conv_type in
            if contains (lit "Roman" ++ [arrow] ++ lit "Decimal") conv_type
            then ConversionHistory.add_record (history self)
                   (VStr input_val) (VStr output_val) (VStr (lit "roman"))
            else ConversionHistory.add_record (history self)
                   (VStr output_val) (VStr input_val) (VStr (lit "decimal"))
        | [] | [_] =>
            mraise (ValueError
              (lit "not enough values to unpack (expected 2, got 1)"))
        | _ => mraise (ValueError (lit "too many values to unpack (expected 2)"))
        end
    | _ => mret tt
    end
  else mret tt.

Definition load_from_txt (self : t) (filename : str) : M unit :=
  fun w =>
    match files w !! filename with
    | None => print (lit "Error: " ++ filename ++ lit " not found") w
    | Some content =>
        (_ ← for_eachM (load_txt_line self) (readlines content);
         print (lit "History loaded from " ++ filename)) w
    end.

End ConversionSystem.

(** The records of a system's ledger, in order. *)
Definition ledger (w : world) (sys : ConversionSystem.t) : option (list record) :=
  records_at w (ConversionHistory._history (ConversionSystem.history sys)).

(** The world a program starts in: nothing allocated, no files. *)
Definition empty_world : world := mkWorld [] ∅ [].

Definition UnknownConversionType (conversion_type : str) : exn :=
  ValueError (lit "Invalid conversion type: " ++ conversion_type).

(** What [convert] does for a known conversion type, whose converter is
    [codec] and whose records are tagged [tag]: when the codec returns,
    the result is returned and one record is appended; when the codec
    raises, the exception goes to the caller and nothing changes. *)
Definition converts_with (codec : value -> outcome value) (tag : str)
    (sys : ConversionSystem.t) (w : world) (rs : list record)
    (v : value) (conversion_type : str) : Prop :=
  (forall result, codec v = Return result ->
     exists w',
       ConversionSystem.convert sys v conversion_type w = (Return result, w')
       /\ ledger w' sys = Some (rs ++ [mkRecord v result (VStr tag)]))
  /\ (forall e, codec v = Raise e ->
        ConversionSystem.convert sys v conversion_type w = (Raise e, w)).

(** *** The tabular format *)

(** A character that a text file holds: a Unicode scalar value (a code
    point that is not a surrogate). *)
Definition scalar (c : char) : Prop :=
  (c < 55296)%N \/ (57344 <= c <= 1114111)%N.

#[global] Instance scalar_dec c : Decision (scalar c).
Proof. unfold scalar. apply _. Defined.

(** The values that can be written to a file as text.  The model renders
    every integer in full and writes every character; CPython (3.11 or
    later) renders an integer of more than 4300 digits only when asked
    to, and the encoding of a text file (UTF-8) has no surrogates.  The
    round trips are stated for the values that can be written. *)
Definition renders (v : value) : Prop :=
  match v with
  | VNone => True
  | VInt n => Z.abs n < 10 ^ 4300
  | VStr s => Forall scalar s
  end.

(** The records the tabular format keeps: each field can be written, has
    no carriage return in its text (a file is read with universal
    newlines, which turns it into a line feed), and is not longer than
    the reader's limit. *)
Definition csv_safe_field (v : value) : Prop :=
  renders v
  /\ (CR ∉ csv.field_text v)
  /\ (N.of_nat (length (csv.field_text v)) <= csv.field_limit)%N.

Definition csv_safe (d : record) : Prop :=
  csv_safe_field (input d) /\ csv_safe_field (output d)
  /\ csv_safe_field (type d).

(** The record that comes back: each field as the text the writer made
    of it. *)
Definition csv_reloaded (d : record) : record :=
  mkRecord (VStr (csv.field_text (input d)))
    (VStr (csv.field_text (output d))) (VStr (csv.field_text (type d))).

(** The characters of a field inside its quotes: a quote is doubled. *)
Definition csv_escape (f : str) : str :=
  flat_map (fun c => if (c =? csv.quotechar)%N then [c; c] else [c]) f.

(** A row of three fields, as the writer wrote it and as reading the
    file gives it back, with a line feed at its end. *)
Definition row_line (f1 f2 f3 : str) : str :=
  csv.join_append f1 ++ csv.delimiter :: csv.join_append f2
    ++ csv.delimiter :: csv.join_append f3 ++ [LF].

Definition record_line (d : record) : str :=
  row_line (csv.field_text (input d)) (csv.field_text (output d))
    (csv.field_text (type d)).

(** The body of the loop of [load_from_csv]. *)
Definition load_csv_row (self : ConversionSystem.t) (row : gmap str value)
  : M unit :=
  i ← csv.getitem row (lit "input");
  o ← csv.getitem row (lit "output");
  ty ← csv.getitem row (lit "type");
  ConversionHistory.add_record (ConversionSystem.history self) i o ty.

(** The parser after the text of a field: in an unquoted field, after
    the closing quote of a quoted one, or, for an empty field, where it
    was. *)
Definition field_read (st : csv.ParserState) (fs : list str) (f : str)
    (r : csv.Reader) : Prop :=
  r = csv.mkReader csv.IN_FIELD fs f
  \/ r = csv.mkReader csv.QUOTE_IN_QUOTED_FIELD fs f
  \/ (f = [] /\ r = csv.mkReader st fs []).

(** The step of the parser on a character of a line. *)
Definition csv_step (r : csv.Reader) (c : char) : outcome csv.Reader :=
  csv.parse_process_char r (Some c).

(** The reader, character by character.  [DictReader_for] takes whole
    lines; here the text is taken one character at a time, the parser is
    told of the end of the line after each line feed, and [pending] says
    that the line being read has characters.  The two agree (lemma
    [DictReader_for_stream]). *)
Fixpoint DictReader_stream (body : gmap str value -> M unit)
    (fieldnames : option (list str)) (r : csv.Reader) (s : str)
    (pending : bool) : M unit :=
  match s with
  | [] => csv.DictReader_for body fieldnames r (if pending then [[]] else [])
  | c :: s' =>
      if (c =? LF)%N then
        match csv.parse_line r [c] with
        | Return r' =>
            match csv.state r' with
            | csv.START_RECORD =>
                csv.DictReader_row body fieldnames (csv.fields r')
                  (fun fn => DictReader_stream body fn csv.parse_reset s' false)
            | _ => DictReader_stream body fieldnames r' s' false
            end
        | Raise e => mraise e
        | Diverge => lift Diverge
        end
      else
        match csv.parse_process_char r (Some c) with
        | Return r' => DictReader_stream body fieldnames r' s' true
        | Raise e => mraise e
        | Diverge => lift Diverge
        end
  end.

(** *** The text format *)

(** The two separators [load_from_txt] splits a line at: the arrow
    between two spaces, and a space (32) with an opening parenthesis
    (40). *)
Definition txt_sep : str := [32; arrow; 32]%N.
Definition txt_sep2 : str := [32; 40]%N.

(** The two banner lines. *)
Definition txt_banner : str :=
  lit "Conversion History:" ++ [LF] ++ lit "==================" ++ [LF].

(** The text of a field, [first], starts with a character that is not
    white space. *)
Definition starts_with_text (first : str) : Prop :=
  match first with
  | c :: _ => isspace c = false
  | [] => False
  end.

(** The records whose line of the text format [load_from_txt] reads back
    as one record: input and output can be written, the text of the input
    starts with a character that is not white space, the texts of the
    input and of the output have no arrow and no line end, and the text
    of the output has no opening parenthesis. *)
Definition txt_safe (d : record) : Prop :=
  renders (input d) /\ renders (output d)
  /\ starts_with_text (py_str (input d))
  /\ Forall (fun c => c ∉ [arrow; LF; CR]) (py_str (input d))
  /\ Forall (fun c => c ∉ [arrow; 40%N; LF; CR]) (py_str (output d)).

(** The record that comes back: a record of type ['roman'] with its two
    values as text, any other record as a record of type ['decimal'] with
    the text of its output as input and the text of its input as
    output. *)
Definition txt_reloaded (d : record) : record :=
  if bool_decide (type d = VStr (lit "roman"))
  then mkRecord (VStr (py_str (input d))) (VStr (py_str (output d)))
         (VStr (lit "roman"))
  else mkRecord (VStr (py_str (output d))) (VStr (py_str (input d)))
         (VStr (lit "decimal")).

(** A world whose system [fresh_system] holds one record of each
    direction, as [convert] makes them. *)
Definition sample_records : list record :=
  [mkRecord (VStr (lit "XIV")) (VInt 14) (VStr (lit "roman"));
   mkRecord (VInt 9) (VStr (lit "IX")) (VStr (lit "decimal"))].
Definition sample_world : world :=
  mkWorld (OList [1; 2]%nat :: (ODict <$> sample_records)) ∅ [].

(** A round trip through a file, as a program: a system is made and
    filled by [prepare], saved by [save], and a second system is made and
    loaded by [load]; the result is the ledger of the first system and
    the ledger of the second. *)
Definition round_trip
    (save load : ConversionSystem.t -> str -> M unit)
    (prepare : ConversionSystem.t -> M unit) (filename : str)
  : M (option (list record) * option (list record)) :=
  sys ← ConversionSystem.__init__;
  _ ← prepare sys;
  _ ← save sys filename;
  sys2 ← ConversionSystem.__init__;
  _ ← load sys2 filename;
  ((fun w => (Return (ledger w sys, ledger w sys2), w)) : M _).

(** A system made in the empty world, and that world. *)
Definition fresh_system : ConversionSystem.t :=
  ConversionSystem.mk (ConversionHistory.mk 0).
Definition fresh_world : world := mkWorld [OList []] ∅ [].

(** [for d in ds: history.add_record(d['input'], d['output'], d['type'])] *)
Definition add_records (h : ConversionHistory.t) (ds : list record) : M unit :=
  for_eachM
    (fun d => ConversionHistory.add_record h (input d) (output d) (type d)) ds.

(** A caller takes a snapshot of a ledger that holds one record and
    assigns to a key of the record it finds there; the result is the
    ledger's record before and after. *)
Definition assign_through_snapshot : M (option (list record) * option (list record)) :=
  h ← ConversionHistory.__init__;
  _ ← ConversionHistory.add_record h (VStr (lit "IV")) (VInt 4)
        (VStr (lit "roman"));
  snapshot ← ConversionHistory.get_history h;
  items ← list_items snapshot;
  ((fun w =>
     let before := records_at w (ConversionHistory._history h) in
     match for_eachM (fun a => dict_set_input a (VStr (lit "X"))) items w with
     | (o, w') =>
         (_ ← o; Return (before, records_at w' (ConversionHistory._history h)),
          w')
     end) : M _).

(** ** The notions of the specification *)

(** The seven symbols. *)
Definition roman_symbol (c : char) : Prop := c ∈ lit "IVXLCDM".

#[global] Instance roman_symbol_dec c : Decision (roman_symbol c).
Proof. unfold roman_symbol. apply _. Defined.

(** The value of a symbol, as section 4.1 of the specification lists them. *)
Definition symbol_value (c : char) : Z :=
  if (c =? ord "I")%N then 1 else if (c =? ord "V")%N then 5
  else if (c =? ord "X")%N then 10 else if (c =? ord "L")%N then 50
  else if (c =? ord "C")%N then 100 else if (c =? ord "D")%N then 500
  else if (c =? ord "M")%N then 1000 else 0.

(** The rule of section 4.1, in the specification's words: the symbols
    are taken from the right, with a running total and the value of the
    symbol seen before (the one to the right); a symbol's value is
    subtracted when it is smaller than that one, and added otherwise.
    The result is the pair of the total and the last value seen. *)
Fixpoint right_to_left (text : str) : Z * Z :=
  match text with
  | [] => (0, 0)
  | c :: rest =>
      let '(total, prev) := right_to_left rest in
      let v := symbol_value c in
      (if v <? prev then total - v else total + v, v)
  end.

(** The two directions of the codec, on integers and on text. *)
Definition romanToDecimal (text : str) : outcome value :=
  RomanToDecimalConverter.convert (VStr text).
Definition decimalToRoman (n : Z) : outcome value :=
  DecimalToRomanConverter.convert (VInt n).

Definition OutOfRange : exn :=
  ValueError (lit "Number must be between 1 and 3999").

(** The test that a number survives the round trip, for the exhaustive
    check of the range. *)
Definition roundtrip_ok (n : Z) : bool :=
  match decimalToRoman n with
  | Return (VStr r) =>
      match romanToDecimal r with
      | Return (VInt m) => m =? n
      | _ => false
      end
  | _ => false
  end.

(** The test that the numeral of a number is a text over the seven
    symbols, and not empty. *)
Definition canonical_ok (n : Z) : bool :=
  match decimalToRoman n with
  | Return (VStr s) =>
      bool_decide (s <> [] /\ Forall roman_symbol s /\ (length s <= 15)%nat)
  | _ => false
  end.

(** ** Further notions *)

(** *** Further notions of the codec *)

(** The sum of the values of the symbols whose value is below [p]: what a
    run of symbols that grow to the right can take off at most before a
    symbol of value [p]. *)
Definition below (p : Z) : Z :=
  if p <=? 1 then 0 else if p <=? 5 then 1 else if p <=? 10 then 6
  else if p <=? 50 then 16 else if p <=? 100 then 66
  else if p <=? 500 then 166 else 666.

(** The numerals of the greedy subtraction, in closed form: each entry of
    the table as many times as its value goes into what is left. *)
Fixpoint greedy (table : list (Z * str)) (num : Z) : list str :=
  match table with
  | [] => []
  | (v, numeral) :: table' =>
      replicate (Z.to_nat (num / v)) numeral ++ greedy table' (num mod v)
  end.

(** What is left of the number after the table. *)
Fixpoint greedy_rest (table : list (Z * str)) (num : Z) : Z :=
  match table with
  | [] => num
  | (v, _) :: table' => greedy_rest table' (num mod v)
  end.

(** No symbol stands four times in a row. *)
Fixpoint no_four_in_a_row (s : str) : bool :=
  match s with
  | a :: ((b :: c :: d :: _) as s') =>
      negb ((a =? b) && (b =? c) && (c =? d))%N && no_four_in_a_row s'
  | _ => true
  end.

Definition canonical_shape_ok (n : Z) : bool :=
  match decimalToRoman n with
  | Return (VStr s) => no_four_in_a_row s
  | _ => false
  end.

(** *** Requests to a system *)

(** The five things a caller can ask of a system. *)
Inductive request : Type :=
| Convert (v : value) (conversion_type : str)
| SaveCsv (filename : str)
| SaveTxt (filename : str)
| LoadCsv (filename : str)
| LoadTxt (filename : str).

Definition perform (sys : ConversionSystem.t) (r : request) : M unit :=
  match r with
  | Convert v conversion_type =>
      _ ← ConversionSystem.convert sys v conversion_type; mret tt
  | SaveCsv filename => ConversionSystem.save_to_csv sys filename
  | SaveTxt filename => ConversionSystem.save_to_txt sys filename
  | LoadCsv filename => ConversionSystem.load_from_csv sys filename
  | LoadTxt filename => ConversionSystem.load_from_txt sys filename
  end.

(** [preserves hist w w']: every list of records of [w] is still there in
    [w'], with the same records first; only the list at [hist] may have
    more. *)
Definition preserves (hist : loc) (w w' : world) : Prop :=
  forall l rs,
    holds (heap w) l rs ->
    exists more, holds (heap w') l (rs ++ more) /\ (l <> hist -> more = []).

(** A method that preserves, whatever it returns or raises. *)
Definition preserving (hist : loc) {A} (m : M A) : Prop :=
  forall w, preserves hist w (m w).2.

(** A record as [convert] makes it: a numeral and its value, in the
    order its type says. *)
Definition conversion_record (d : record) : Prop :=
  (type d = VStr (lit "roman")
   /\ exists text n,
        input d = VStr text /\ output d = VInt n
        /\ romanToDecimal text = Return (VInt n))
  \/ (type d = VStr (lit "decimal")
      /\ exists n numeral,
           input d = VInt n /\ output d = VStr numeral
           /\ 1 <= n <= 3999
           /\ decimalToRoman n = Return (VStr numeral)
           /\ romanToDecimal numeral = Return (VInt n)).

(** What the two save methods write for the records [rs]. *)
Definition csv_file (rs : list record) : str :=
  csv.writerow (VStr <$> ConversionSystem.fieldnames)
    ++ concat (csv.writerow ∘ ConversionSystem._dict_to_list <$> rs).

Definition txt_file (rs : list record) : str :=
  txt_banner ++ concat (ConversionSystem.txt_line <$> rs).

(** The sample world after its ledger was saved in both formats. *)
Definition saved_world : world :=
  mkWorld (heap sample_world)
    (<[lit "h.txt" := txt_file sample_records]>
       (<[lit "h.csv" := csv_file sample_records]> ∅)) [].

(** A record whose three fields are strings, as the loaders make them. *)
Definition text_record (d : record) : Prop :=
  match input d, output d, type d with
  | VStr _, VStr _, VStr _ => True
  | _, _, _ => False
  end.

(** A record with its input and output as text, and the type that the
    text format tells apart. *)
Definition txt_as_text (d : record) : record :=
  mkRecord (VStr (py_str (input d))) (VStr (py_str (output d)))
    (VStr (if bool_decide (type d = VStr (lit "roman"))
           then lit "roman" else lit "decimal")).

(** The sample records as a loader makes them, all fields strings, and a
    world whose system [fresh_system] holds them. *)
Definition text_records : list record :=
  [mkRecord (VStr (lit "XIV")) (VStr (lit "14")) (VStr (lit "roman"));
   mkRecord (VStr (lit "9")) (VStr (lit "IX")) (VStr (lit "decimal"))].
Definition text_world : world :=
  mkWorld (OList [1; 2]%nat :: (ODict <$> text_records)) ∅ [].

(** An outcome that is a return, or one of the exceptions [P]; not a
    loop without end. *)
Definition raises_only {A} (P : exn -> Prop) (o : outcome A) : Prop :=
  match o with
  | Return _ => True
  | Raise e => P e
  | Diverge => False
  end.

(** A method that, run where the list at [hist] holds records, returns
    or raises one of [P]. *)
Definition finishes (hist : loc) (P : exn -> Prop) {A} (m : M A) : Prop :=
  forall w rs, holds (heap w) hist rs -> raises_only P (m w).1.

(** The exceptions of the two loaders. *)
Definition field_limit_error : exn :=
  csv_Error (lit "field larger than field limit (131072)").

Definition missing_column (e : exn) : Prop :=
  e = KeyError (lit "input") \/ e = KeyError (lit "output")
  \/ e = KeyError (lit "type").

Definition unpack_error (e : exn) : Prop :=
  e = ValueError (lit "not enough values to unpack (expected 2, got 1)")
  \/ e = ValueError (lit "too many values to unpack (expected 2)").

(** A line as reading a text file gives it: no line end inside, a line
    feed or nothing at its end. *)
Definition well_ended (line : str) : Prop :=
  exists body tail,
    line = body ++ tail
    /\ Forall (fun c => csv.is_nl c = false) body
    /\ (tail = [] \/ tail = [LF]).

(** The exceptions of the reader: a field over the limit and, when the
    header is not known to name the three columns ([named] is false), a
    missing column. *)
Definition reader_error (named : bool) (e : exn) : Prop :=
  e = field_limit_error \/ (named = false /\ missing_column e).

Definition header_names (named : bool) (fn : option (list str)) : Prop :=
  named = true ->
  exists names, fn = Some names
    /\ lit "input" ∈ names /\ lit "output" ∈ names /\ lit "type" ∈ names.

(** A record with input and output exchanged, unless its type is
    ['roman']. *)
Definition turned (d : record) : record :=
  if bool_decide (type d = VStr (lit "roman")) then d
  else mkRecord (output d) (input d) (type d).

(** A text as decoding a UTF-8 file gives it, and as a text file or the
    standard output can take it: a sequence of Unicode scalar values. *)
Definition valid_text (s : str) : Prop := Forall scalar s.

#[global] Instance valid_text_dec s : Decision (valid_text s).
Proof. unfold valid_text. apply _. Defined.

(** A record whose three fields can be written as text. *)
Definition renders_record (d : record) : Prop :=
  renders (input d) /\ renders (output d) /\ renders (type d).

(** ** The menu

    The program under [if __name__ == "__main__"]: a system is made, and
    a loop shows the menu, reads a choice and serves it until the choice
    is to exit.  [input()] takes the next line of the standard input,
    without its line end, and raises [EOFError] when there is none; its
    prompt is written to the standard output like the text of a [print]
    (the model keeps the texts written, in order, not the line ends
    between them). *)

(** What ends a session other than the choice to exit: an exception that
    no handler catches, or [EOFError] from [input()]. *)
Inductive interrupt : Type :=
| Uncaught (e : exn)
| EOFError.

Inductive result (A : Type) : Type :=
| Done (a : A)
| Stopped (i : interrupt)
| Endless.
Arguments Done {A} a.
Arguments Stopped {A} i.
Arguments Endless {A}.

(** The console: the lines still to be read, and the world. *)
Record console : Type := mkConsole {
  stdin : list str;
  now : world;
}.

Definition IO (A : Type) : Type := console -> result A * console.

Definition io_ret {A} (a : A) : IO A := fun c => (Done a, c).
Definition io_bind {A B} (m : IO A) (k : A -> IO B) : IO B :=
  fun c =>
    match m c with
    | (Done a, c') => k a c'
    | (Stopped i, c') => (Stopped i, c')
    | (Endless, c') => (Endless, c')
    end.

#[global] Instance IO_ret : MRet IO := @io_ret.
#[global] Instance IO_bind : MBind IO := fun A B k m => io_bind m k.

(** A method of the program, called from the menu. *)
Definition call {A} (m : M A) : IO A :=
  fun c =>
    match m (now c) with
    | (Return a, w) => (Done a, mkConsole (stdin c) w)
    | (Raise e, w) => (Stopped (Uncaught e), mkConsole (stdin c) w)
    | (Diverge, w) => (Endless, mkConsole (stdin c) w)
    end.

(** [input(prompt)] *)
Definition input_line (prompt : str) : IO str :=
  fun c =>
    let w := (print prompt (now c)).2 in
    match stdin c with
    | [] => (Stopped EOFError, mkConsole [] w)
    | line :: rest => (Done line, mkConsole rest w)
    end.

(** [try: body except E: handler], where [caught] tells the exceptions
    of class [E]. *)
Definition try_except {A} (body : IO A) (caught : exn -> bool)
    (handler : IO A) : IO A :=
  fun c =>
    match body c with
    | (Stopped (Uncaught e), c') =>
        if caught e then handler c' else (Stopped (Uncaught e), c')
    | r => r
    end.

Definition is_KeyError (e : exn) : bool :=
  match e with KeyError _ => true | _ => false end.
Definition is_ValueError (e : exn) : bool :=
  match e with ValueError _ => true | _ => false end.

(** [s or default] *)
Definition or_default (s default : str) : str :=
  match s with [] => default | _ => s end.

(** The line of a record in the history view: the line of the text
    format, without its line end. *)
Definition history_line (d : record) : str :=
  py_str (input d) ++ lit " " ++ [arrow] ++ lit " " ++ py_str (output d)
    ++ lit " (" ++ ConversionSystem.direction_label d ++ lit ")".

Definition menu : list str :=
  [ [LF] ++ lit "Roman-Decimal Converter";
    lit "1. Roman " ++ [arrow] ++ lit " Decimal";
    lit "2. Decimal " ++ [arrow] ++ lit " Roman";
    lit "3. View History";
    lit "4. Save History (CSV)";
    lit "5. Save History (TXT)";
    lit "6. Load History (CSV)";
    lit "7. Load History (TXT)";
    lit "8. Exit" ].

Inductive flow : Type := Continue | Break.

Section Menu.

(** Two builtins of Python are left open: [str.upper()], and [int()] of
    a string, which returns an integer or raises [ValueError] ([None]).
    What is proved holds whatever they compute. *)
Variable upper : str -> str.
Variable int_of_str : str -> option Z.

(** [int(s)]: the message of its exception reaches no one, the
    handler prints its own. *)
Definition py_int (s : str) : IO Z :=
  match int_of_str s with
  | Some n => io_ret n
  | None =>
      call (mraise (ValueError (lit "invalid literal for int() with base 10")))
  end.

(** The body of the loop. *)
Definition turn (system : ConversionSystem.t) : IO flow :=
  _ ← call (for_eachM print menu);
  choice ← input_line (lit "Select an option (1-8): ");
  if bool_decide (choice = lit "1") then
    line ← input_line (lit "Enter Roman numeral (e.g., MCMXCIV): ");
    let roman := upper (strip line) in
    _ ← try_except
          (decimal ← call (ConversionSystem.convert system (VStr roman)
                             (lit "roman"));
           call (print (roman ++ lit " = " ++ py_str decimal)))
          is_KeyError
          (call (print
             (lit "Invalid Roman numeral! Use only I, V, X, L, C, D, M.")));
    io_ret Continue
  else if bool_decide (choice = lit "2") then
    _ ← try_except
          (line ← input_line (lit "Enter decimal number (1-3999): ");
           num ← py_int line;
           roman ← call (ConversionSystem.convert system (VInt num)
                           (lit "decimal"));
           call (print (str_of_int num ++ lit " = " ++ py_str roman)))
          is_ValueError
          (call (print
             (lit "Invalid number! Enter an integer between 1 and 3999.")));
    io_ret Continue
  else if bool_decide (choice = lit "3") then
    _ ← call (print ([LF] ++ lit "Conversion History:"));
    snapshot ← call (ConversionHistory.get_history
                       (ConversionSystem.history system));
    items ← call (list_items snapshot);
    _ ← call (for_eachM (fun a => d ← get_dict a; print (history_line d))
                items);
    io_ret Continue
  else if bool_decide (choice = lit "4") then
    line ← input_line (lit "Enter CSV filename (default: conversions.csv): ");
    _ ← call (ConversionSystem.save_to_csv system
                (or_default line (lit "conversions.csv")));
    io_ret Continue
  else if bool_decide (choice = lit "5") then
    line ← input_line (lit "Enter TXT filename (default: conversions.txt): ");
    _ ← call (ConversionSystem.save_to_txt system
                (or_default line (lit "conversions.txt")));
    io_ret Continue
  else if bool_decide (choice = lit "6") then
    line ← input_line
             (lit "Enter CSV filename to load (default: conversions.csv): ");
    _ ← call (ConversionSystem.load_from_csv system
                (or_default line (lit "conversions.csv")));
    io_ret Continue
  else if bool_decide (choice = lit "7") then
    line ← input_line
             (lit "Enter TXT filename to load (default: conversions.txt): ");
    _ ← call (ConversionSystem.load_from_txt system
                (or_default line (lit "conversions.txt")));
    io_ret Continue
  else if bool_decide (choice = lit "8") then
    _ ← call (print (lit "Exiting program."));
    io_ret Break
  else
    _ ← call (print (lit "Invalid choice. Try again."));
    io_ret Continue.

(** [while True: turn], with at most [fuel] turns. *)
Fixpoint loop (fuel : nat) (system : ConversionSystem.t) : IO unit :=
  match fuel with
  | O => fun c => (Endless, c)
  | S fuel' =>
      f ← turn system;
      match f with
      | Break => io_ret tt
      | Continue => loop fuel' system
      end
  end.

(** The program.  Every turn reads a line, so a session has at most as
    many turns as the input has lines, and one more that ends it. *)
Definition main : IO unit :=
  fun c =>
    (system ← call ConversionSystem.__init__;
     loop (S (length (stdin c))) system) c.

End Menu.

(** Two functions to run the menu on ASCII input: [str.upper()] on ASCII
    text, and [int()] of a string of ASCII digits with surrounding white
    space and a sign.  They are what Python computes on such input only:
    [str.upper()] also maps letters outside ASCII (a dotless i to [I], a
    sharp s to [SS]), and [int()] also takes underscores between digits
    and the decimal digits of other scripts.  No theorem is about them;
    the examples and witnesses that use them have ASCII input that both
    read alike. *)
Definition ascii_upper (s : str) : str :=
  (fun c => if ((97 <=? c) && (c <=? 122))%N then (c - 32)%N else c) <$> s.

Fixpoint digits_value (s : str) (acc : Z) : option Z :=
  match s with
  | [] => Some acc
  | c :: s' =>
      if ((48 <=? c) && (c <=? 57))%N
      then digits_value s' (10 * acc + Z.of_N (c - 48))
      else None
  end.

Definition ascii_int (s : str) : option Z :=
  match strip s with
  | [] => None
  | c :: s' =>
      if (c =? 45)%N then
        match s' with [] => None | _ => Z.opp <$> digits_value s' 0 end
      else if (c =? 43)%N then
        match s' with [] => None | _ => digits_value s' 0 end
      else digits_value (c :: s') 0
  end.

(** A session on the ASCII input [lines], from the empty world. *)
Definition session (lines : list str) : result unit * console :=
  main ascii_upper ascii_int (mkConsole lines empty_world).

(** The lines the menu prints when it is asked for a conversion. *)
Definition roman_prompts : list str :=
  menu ++ [lit "Select an option (1-8): ";
           lit "Enter Roman numeral (e.g., MCMXCIV): "].
Definition decimal_prompts : list str :=
  menu ++ [lit "Select an option (1-8): ";
           lit "Enter decimal number (1-3999): "].

(** The exceptions of the two loaders, and the ways a session ends: by
    the choice to exit, at the end of the input, or with an exception of
    a loader. *)
Definition load_error (e : exn) : Prop :=
  e = field_limit_error \/ missing_column e \/ unpack_error e.

Definition session_end {A} (r : result A) : Prop :=
  match r with
  | Done _ => True
  | Stopped EOFError => True
  | Stopped (Uncaught e) => load_error e
  | Endless => False
  end.

(** A part of the menu that keeps the list at [hist] a list of records,
    gives no line back to the input, reads at least [k] lines when it is
    done, and is stopped by an exception of [P] only. *)
Definition io_ok (hist : loc) (P : exn -> Prop) (k : nat) {A} (m : IO A)
  : Prop :=
  forall c rs, holds (heap (now c)) hist rs ->
    (exists rs', holds (heap (now (m c).2)) hist rs')
    /\ (length (stdin (m c).2) <= length (stdin c))%nat
    /\ match (m c).1 with
       | Done _ => (length (stdin (m c).2) + k <= length (stdin c))%nat
       | Stopped (Uncaught e) => P e
       | Stopped EOFError => True
       | Endless => False
       end.

(** * Properties *)

(** Closed decidable facts are settled by evaluation. *)
Ltac by_decide :=
  lazymatch goal with
  | |- ?P => apply (bool_decide_eq_true_1 P); vm_compute; reflexivity
  end.

(** ** The codec *)

Section Codec.

Import RomanToDecimalConverter.

Lemma getitem_symbol c :
  roman_symbol c -> getitem c = Return (symbol_value c).
Proof.
  unfold roman_symbol. intros H.
  repeat (apply elem_of_cons in H as [-> | H]; [reflexivity |]).
  by apply elem_of_nil in H.
Qed.

Lemma getitem_other c :
  ~ roman_symbol c -> getitem c = Raise (KeyError [c]).
Proof.
  intros H. unfold getitem.
  assert (Hn : _roman_values !! c = None); [| by rewrite Hn].
  apply not_elem_of_list_to_map_1. exact H.
Qed.

Lemma body_symbol total prev c :
  roman_symbol c ->
  body (total, prev) c
  = Return (if symbol_value c <? prev then total - symbol_value c
            else total + symbol_value c, symbol_value c).
Proof. intros H. unfold body. by rewrite (getitem_symbol c H). Qed.

Lemma body_other acc c :
  ~ roman_symbol c -> body acc c = Raise (KeyError [c]).
Proof. intros H. destruct acc. unfold body. by rewrite (getitem_other c H). Qed.

(** The loop variables after the symbols [xs] (already reversed), when
    all of them are symbols: the rule applied to what has been read. *)
Lemma for_each_body_symbols xs : forall done,
  Forall roman_symbol xs ->
  for_each body xs (right_to_left done)
  = Return (right_to_left (reverse xs ++ done)).
Proof.
  induction xs as [| c xs IH]; intros done Hxs; [reflexivity |].
  apply Forall_cons in Hxs as [Hc Hxs]. cbn [for_each]. rewrite reverse_cons.
  destruct (right_to_left done) as [total prev] eqn:E.
  rewrite (body_symbol _ _ c Hc).
  specialize (IH (c :: done) Hxs).
  cbn [right_to_left] in IH. rewrite E in IH.
  rewrite <- app_assoc. exact IH.
Qed.

(** A character outside the seven symbols stops the loop with a
    [KeyError] for the first such character met. *)
Lemma for_each_body_invalid xs : forall acc,
  Exists (fun c => ~ roman_symbol c) xs ->
  exists c, c ∈ xs /\ ~ roman_symbol c
            /\ for_each body xs acc = Raise (KeyError [c]).
Proof.
  induction xs as [| c xs IH]; intros [total prev] Hex.
  - by apply Exists_nil in Hex.
  - cbn [for_each]. destruct (decide (roman_symbol c)) as [Hc | Hc].
    + rewrite (body_symbol _ _ c Hc).
      apply Exists_cons in Hex as [? | Hex]; [done |].
      destruct (IH (if symbol_value c <? prev then total - symbol_value c
                    else total + symbol_value c, symbol_value c) Hex)
        as (c' & Hin & Hc' & E).
      exists c'. split_and!; [by right | done | exact E].
    + rewrite (body_other _ c Hc).
      exists c. split_and!; [by left | done | done].
Qed.

Lemma convert_symbols text :
  Forall roman_symbol text ->
  convert (VStr text) = Return (VInt (fst (right_to_left text))).
Proof.
  intros H. unfold convert.
  change (0, 0) with (right_to_left []).
  rewrite for_each_body_symbols; [| by apply Forall_reverse].
  by rewrite reverse_involutive, app_nil_r.
Qed.

Lemma convert_invalid text :
  ~ Forall roman_symbol text ->
  exists c, c ∈ text /\ ~ roman_symbol c
            /\ convert (VStr text) = Raise (KeyError [c]).
Proof.
  intros H. apply not_Forall_Exists in H; [| apply _].
  destruct (for_each_body_invalid (reverse text) (0, 0)) as (c & Hin & Hc & E).
  { apply Exists_exists in H as (c & Hin & Hc).
    apply Exists_exists. exists c. split; [| done].
    by apply elem_of_reverse. }
  exists c. unfold convert. rewrite E.
  rewrite elem_of_reverse in Hin. done.
Qed.

End Codec.

(** C6: [romanToDecimal] raises the invalid-symbol error (a [KeyError])
    exactly when the text has a character outside the seven symbols, and
    returns an integer on every text over the seven symbols. *)
Theorem romanToDecimal_invalid_symbol (text : str) :
  ((exists c, c ∈ text /\ ~ roman_symbol c)
   <-> exists key, romanToDecimal text = Raise (KeyError key))
  /\ (Forall roman_symbol text ->
      exists n, romanToDecimal text = Return (VInt n)).
Proof.
  unfold romanToDecimal. split; [split |].
  - intros (c & Hin & Hc).
    destruct (convert_invalid text) as (c' & _ & _ & E); [| by eexists].
    intros Hall. by eapply Hc, Forall_forall.
  - intros [key E]. destruct (decide (Forall roman_symbol text)) as [Hall | Hn].
    + rewrite (convert_symbols text Hall) in E. discriminate.
    + apply not_Forall_Exists in Hn; [| apply _].
      apply Exists_exists in Hn as (c & Hin & Hc). by exists c.
  - intros Hall. eexists. by apply convert_symbols.
Qed.

Lemma romanToDecimal_invalid_symbol_witness :
  Forall roman_symbol (lit "XIV")
  /\ exists n, romanToDecimal (lit "XIV") = Return (VInt n).
Proof.
  assert (H : Forall roman_symbol (lit "XIV"))
    by by_decide.
  split; [exact H |].
  exact (proj2 (romanToDecimal_invalid_symbol (lit "XIV")) H).
Defined.

(** The rule also has a closed form: each symbol counts with a minus sign
    when the symbol to its right is larger, with a plus sign otherwise. *)
Lemma right_to_left_signed_sum text :
  right_to_left text
  = (foldr Z.add 0
       (zip_with (fun v next => if v <? next then - v else v)
          (symbol_value <$> text) (tail (symbol_value <$> text) ++ [0])),
     hd 0 (symbol_value <$> text)).
Proof.
  induction text as [| c rest IH]; [reflexivity |].
  cbn [right_to_left]. rewrite IH. cbn [fmap list_fmap tail hd].
  destruct rest as [| c' rest']; cbn; f_equal;
    destruct (_ <? _); lia.
Qed.

(** C7: on every text over the seven symbols, canonical or not,
    [romanToDecimal] returns the value of the right-to-left rule of the
    specification (a value is subtracted when smaller than the one seen
    before, added otherwise); it gives 4 on IIII and 1994 on MCMXCIV. *)
Theorem romanToDecimal_right_to_left (text : str) :
  (Forall roman_symbol text ->
   romanToDecimal text = Return (VInt (fst (right_to_left text))))
  /\ romanToDecimal (lit "IIII") = Return (VInt 4)
  /\ romanToDecimal (lit "MCMXCIV") = Return (VInt 1994).
Proof.
  split; [apply convert_symbols |].
  split; vm_compute; reflexivity.
Qed.

Lemma romanToDecimal_right_to_left_witness :
  Forall roman_symbol (lit "XLII")
  /\ romanToDecimal (lit "XLII") = Return (VInt 42).
Proof.
  assert (H : Forall roman_symbol (lit "XLII")) by by_decide.
  split; [exact H |].
  exact (proj1 (romanToDecimal_right_to_left (lit "XLII")) H).
Defined.

(** C10: on the empty text [romanToDecimal] does not fail; it returns 0,
    which is not in the range 1 to 3999. *)
Theorem romanToDecimal_empty :
  romanToDecimal [] = Return (VInt 0) /\ ~ (1 <= 0 <= 3999).
Proof. split; [reflexivity | lia]. Qed.

Section DecimalToRoman.

Import DecimalToRomanConverter.

(** The inner loop ends when the table value is positive: [fuel] bounds
    the number of subtractions left. *)
Lemma while_fuel_returns v numeral : 0 < v ->
  forall fuel num result, num <= Z.of_nat fuel ->
  exists num' result',
    while_fuel fuel v numeral num result = Return (num', result')
    /\ num' < v /\ num' <= num.
Proof.
  intros Hv. induction fuel as [| fuel IH]; intros num result Hle;
    cbn [while_fuel]; destruct (Z.geb_spec num v) as [Hge | Hlt].
  - lia.
  - exists num, result. split_and!; [done | lia | lia].
  - destruct (IH (num - v) (result ++ [numeral])) as (n' & r' & E & ? & ?);
      [lia |].
    exists n', r'. split_and!; [done | lia | lia].
  - exists num, result. split_and!; [done | lia | lia].
Qed.

Lemma while_loop_returns v numeral num result : 0 < v ->
  exists num' result',
    while_loop v numeral num result = Return (num', result') /\ num' <= num.
Proof.
  intros Hv. unfold while_loop.
  destruct (while_fuel_returns v numeral Hv (Z.to_nat num) num result)
    as (n' & r' & E & _ & ?); [lia |]. by exists n', r'.
Qed.

(** With a table value that is not positive the loop would not end. *)
Lemma while_loop_diverges v numeral num result :
  v <= 0 -> v <= num -> while_loop v numeral num result = Diverge.
Proof.
  intros Hv. unfold while_loop. generalize (Z.to_nat num) as fuel.
  intros fuel. revert num result.
  induction fuel as [| fuel IH]; intros num result Hle; cbn [while_fuel];
    destruct (Z.geb_spec num v); try lia; [done |].
  apply IH. lia.
Qed.

Lemma for_each_body_returns table : Forall (fun e => 0 < e.1) table ->
  forall num result, exists acc, for_each body table (num, result) = Return acc.
Proof.
  induction 1 as [| [v numeral] table Hv _ IH]; intros num result.
  - by eexists.
  - cbn [for_each body].
    destruct (while_loop_returns v numeral num result Hv) as (n' & r' & E & _).
    rewrite E. apply IH.
Qed.

Lemma _value_map_positive : Forall (fun e => 0 < e.1) _value_map.
Proof. repeat constructor. Qed.

Lemma convert_in_range n : 1 <= n <= 3999 ->
  exists s, convert (VInt n) = Return (VStr s).
Proof.
  intros Hn. unfold convert.
  destruct (Z.ltb_spec 0 n); [| lia]. destruct (Z.ltb_spec n 4000); [| lia].
  cbn [andb negb].
  destruct (for_each_body_returns _ _value_map_positive n []) as [acc E].
  rewrite E. by eexists.
Qed.

Lemma convert_out_of_range n :
  n <= 0 \/ 4000 <= n <-> convert (VInt n) = Raise OutOfRange.
Proof.
  split.
  - intros Hn. unfold convert.
    destruct (Z.ltb_spec 0 n), (Z.ltb_spec n 4000); try reflexivity; lia.
  - intros E. destruct (decide (1 <= n <= 3999)) as [Hn | Hn]; [| lia].
    destruct (convert_in_range n Hn) as [s Hs]. congruence.
Qed.

End DecimalToRoman.

(** C5: [decimalToRoman n] raises the out-of-range error exactly when
    [n <= 0] or [n >= 4000], so at 0 and at 4000; for [n] from 1 to 3999
    it returns a string. *)
Theorem decimalToRoman_out_of_range (n : Z) :
  (n <= 0 \/ 4000 <= n <-> decimalToRoman n = Raise OutOfRange)
  /\ decimalToRoman 0 = Raise OutOfRange
  /\ decimalToRoman 4000 = Raise OutOfRange
  /\ (1 <= n <= 3999 -> exists s, decimalToRoman n = Return (VStr s)).
Proof.
  split_and!.
  - apply convert_out_of_range.
  - reflexivity.
  - reflexivity.
  - apply convert_in_range.
Qed.

Lemma decimalToRoman_out_of_range_witness :
  1 <= 3999 <= 3999 /\ exists s, decimalToRoman 3999 = Return (VStr s).
Proof.
  assert (H : 1 <= 3999 <= 3999) by lia.
  split; [exact H |].
  exact (proj2 (proj2 (proj2 (decimalToRoman_out_of_range 3999))) H).
Defined.

(** Every number of the range survives the round trip: checked on each of
    the 3999 numbers. *)
Lemma roundtrip_ok_range n : 1 <= n <= 3999 -> roundtrip_ok n = true.
Proof.
  intros Hn.
  assert (Hall : forallb roundtrip_ok (Z.of_nat <$> seq 1 3999) = true)
    by (vm_compute; reflexivity).
  rewrite forallb_forall in Hall. apply Hall.
  apply list_elem_of_In, list_elem_of_fmap. exists (Z.to_nat n).
  split; [lia |]. apply list_elem_of_In, in_seq. lia.
Qed.

Lemma roundtrip_ok_inv n : roundtrip_ok n = true ->
  exists r, decimalToRoman n = Return (VStr r)
            /\ romanToDecimal r = Return (VInt n).
Proof.
  unfold roundtrip_ok. intros H.
  destruct (decimalToRoman n) as [[| |r] | |]; try discriminate.
  exists r. split; [reflexivity |].
  destruct (romanToDecimal r) as [[|m|] | |]; try discriminate.
  apply Z.eqb_eq in H. by subst.
Qed.

(** C1: for every [n] from 1 to 3999, [decimalToRoman n] returns a
    numeral on which [romanToDecimal] returns [n]. *)
Theorem roundtrip_decimal (n : Z) :
  1 <= n <= 3999 ->
  exists r, decimalToRoman n = Return (VStr r)
            /\ romanToDecimal r = Return (VInt n).
Proof. intros Hn. by apply roundtrip_ok_inv, roundtrip_ok_range. Qed.

Lemma roundtrip_decimal_witness :
  1 <= 1994 <= 3999
  /\ exists r, decimalToRoman 1994 = Return (VStr r)
               /\ romanToDecimal r = Return (VInt 1994).
Proof.
  assert (H : 1 <= 1994 <= 3999) by lia.
  split; [exact H | exact (roundtrip_decimal 1994 H)].
Defined.

(** C2: for every canonical numeral [r], the result of [decimalToRoman]
    on some [n] from 1 to 3999, [romanToDecimal r] returns a number on
    which [decimalToRoman] returns [r] again. *)
Theorem roundtrip_canonical (r : str) :
  (exists n, 1 <= n <= 3999 /\ decimalToRoman n = Return (VStr r)) ->
  exists m, romanToDecimal r = Return (VInt m)
            /\ decimalToRoman m = Return (VStr r).
Proof.
  intros (n & Hn & E).
  destruct (roundtrip_ok_inv n (roundtrip_ok_range n Hn)) as (r' & E' & Hr).
  rewrite E in E'. injection E' as <-. by exists n.
Qed.

Lemma roundtrip_canonical_witness :
  (exists n, 1 <= n <= 3999
             /\ decimalToRoman n = Return (VStr (lit "MCMXCIV")))
  /\ exists m, romanToDecimal (lit "MCMXCIV") = Return (VInt m)
               /\ decimalToRoman m = Return (VStr (lit "MCMXCIV")).
Proof.
  assert (H : exists n, 1 <= n <= 3999
                        /\ decimalToRoman n = Return (VStr (lit "MCMXCIV")))
    by (exists 1994; split; [lia | vm_compute; reflexivity]).
  split; [exact H | exact (roundtrip_canonical (lit "MCMXCIV") H)].
Defined.

(** ** The heap *)

Section Heap.

Implicit Types (h : list object) (l a : loc) (rs : list record).

Lemma records_at_holds w l rs :
  records_at w l = Some rs <-> holds (heap w) l rs.
Proof.
  unfold records_at, items_at, holds. split.
  - destruct (heap w !! l) as [[d | items] |] eqn:E; try discriminate.
    cbn. intros H. exists items. split; [done |].
    apply mapM_Some in H. eapply Forall2_impl; [exact H |].
    intros a d. unfold dict_at.
    by destruct (heap w !! a) as [[? | ?] |]; intros [= ->].
  - intros (items & -> & H). cbn. apply mapM_Some.
    eapply Forall2_impl; [exact H |].
    intros a d Ha. unfold dict_at. by rewrite Ha.
Qed.

(** Allocation leaves what is there as it is. *)
Lemma holds_alloc h l rs o : holds h l rs -> holds (h ++ [o]) l rs.
Proof.
  intros (items & Hl & H). exists items. split.
  - by apply lookup_app_l_Some.
  - eapply Forall2_impl; [exact H |]. intros a d Ha.
    by apply lookup_app_l_Some.
Qed.

(** Appending to the list at [l] a reference to a dictionary. *)
Lemma holds_append h l rs items a d :
  holds h l rs -> h !! l = Some (OList items) -> h !! a = Some (ODict d) ->
  holds (<[l := OList (items ++ [a])]> h) l (rs ++ [d]).
Proof.
  intros (items' & Hl & H) Hl' Ha. rewrite Hl in Hl'. injection Hl' as <-.
  assert (Hlt : (l < length h)%nat) by by eapply lookup_lt_Some.
  exists (items' ++ [a]). split; [by apply list_lookup_insert_eq |].
  apply Forall2_app.
  - eapply Forall2_impl; [exact H |]. intros a' d' Ha'.
    rewrite list_lookup_insert_ne; [done |]. congruence.
  - constructor; [| constructor].
    rewrite list_lookup_insert_ne; [done |]. congruence.
Qed.

(** A change of another list object leaves the list at [l], and the
    dictionaries it refers to, as they are. *)
Lemma holds_assign_other h l rs l' old items' :
  holds h l rs -> h !! l' = Some (OList old) -> l' <> l ->
  holds (<[l' := OList items']> h) l rs.
Proof.
  intros (items & Hl & H) Hl' Hne. exists items. split.
  - by rewrite list_lookup_insert_ne.
  - eapply Forall2_impl; [exact H |]. intros a d Ha.
    rewrite list_lookup_insert_ne; [done |]. congruence.
Qed.

Lemma holds_inj h l rs rs' : holds h l rs -> holds h l rs' -> rs = rs'.
Proof.
  intros (items & Hl & H) (items' & Hl' & H').
  rewrite Hl in Hl'. injection Hl' as <-.
  clear Hl. revert rs' H'.
  induction H as [| a d items rs Ha _ IH]; intros rs' H'.
  - by apply Forall2_nil_inv_l in H'.
  - apply Forall2_cons_inv_l in H' as (d' & rs'' & Ha' & H' & ->).
    rewrite Ha in Ha'. injection Ha' as <-. f_equal. by apply IH.
Qed.

End Heap.

(** ** The history ledger *)

Section Ledger.

Import ConversionHistory.

Implicit Types (self : ConversionHistory.t) (rs : list record).

Lemma add_record_holds self w rs from_val to_val direction :
  holds (heap w) (_history self) rs ->
  exists h',
    add_record self from_val to_val direction w
    = (Return tt, set_heap h' w)
    /\ holds h' (_history self) (rs ++ [mkRecord from_val to_val direction])
    /\ (length (heap w) < length h')%nat
    /\ forall l' rs', l' <> _history self ->
         holds (heap w) l' rs' -> holds h' l' rs'.
Proof.
  intros Hh. pose proof Hh as (items & Hl & H).
  assert (Hlt : (_history self < length (heap w))%nat)
    by by eapply lookup_lt_Some.
  exists (<[_history self := OList (items ++ [length (heap w)])]>
            (heap w ++ [ODict (mkRecord from_val to_val direction)])).
  assert (Hl2 : (heap w ++ [ODict (mkRecord from_val to_val direction)])
                !! _history self = Some (OList items))
    by by apply lookup_app_l_Some.
  split_and!.
  - unfold add_record, mbind, M_bind, mbind', alloc, list_append.
    cbn. by rewrite Hl2.
  - apply holds_append; [by apply holds_alloc | done |].
    by rewrite lookup_app_r, Nat.sub_diag.
  - rewrite length_insert, length_app. cbn. lia.
  - intros l' rs' Hne Hh'.
    eapply holds_assign_other; [by apply holds_alloc | exact Hl2 | done].
Qed.

Lemma add_records_holds self ds : forall w rs,
  holds (heap w) (_history self) rs ->
  exists h',
    add_records self ds w = (Return tt, set_heap h' w)
    /\ holds h' (_history self) (rs ++ ds)
    /\ (length (heap w) <= length h')%nat
    /\ forall l' rs', l' <> _history self ->
         holds (heap w) l' rs' -> holds h' l' rs'.
Proof.
  induction ds as [| [i o t] ds IH]; intros w rs Hh.
  - exists (heap w). destruct w. rewrite app_nil_r. split_and!; done.
  - destruct (add_record_holds self w rs i o t Hh) as (h1 & E1 & H1 & Hlen & F1).
    destruct (IH (set_heap h1 w) _ H1) as (h2 & E2 & H2 & Hlen2 & F2).
    exists h2. split_and!.
    + unfold add_records in *. cbn [for_eachM]. unfold mbind'. cbn [input output type].
      rewrite E1. exact E2.
    + by rewrite <- app_assoc in H2.
    + cbn in Hlen2. lia.
    + intros l' rs' Hne Hh'. apply F2; [done |]. by apply F1.
Qed.

Lemma get_history_holds self w rs :
  holds (heap w) (_history self) rs ->
  exists items,
    get_history self w
    = (Return (length (heap w)), set_heap (heap w ++ [OList items]) w)
    /\ heap w !! _history self = Some (OList items)
    /\ holds (heap w ++ [OList items]) (length (heap w)) rs
    /\ length (heap w) <> _history self.
Proof.
  intros Hh. pose proof Hh as (items & Hl & H). exists items.
  assert (Hlt : (_history self < length (heap w))%nat)
    by by eapply lookup_lt_Some.
  split_and!.
  - unfold get_history, list_copy, alloc. by rewrite Hl.
  - done.
  - exists items. split; [by rewrite lookup_app_r, Nat.sub_diag |].
    eapply Forall2_impl; [exact H |]. intros a d Ha.
    by apply lookup_app_l_Some.
  - lia.
Qed.

End Ledger.

Example fresh_system_init :
  ConversionSystem.__init__ empty_world = (Return fresh_system, fresh_world).
Proof. reflexivity. Qed.

(** X27: for a ledger that holds the records [rs], appending the records
    [new] and taking a snapshot gives a list object with the records
    [rs ++ new], in this order, so exactly the appended ones for a new
    ledger.  The snapshot is another object than the ledger's list:
    whatever a caller puts into the snapshot list, the ledger still holds
    [rs ++ new], and so does the next snapshot.  (The record
    dictionaries themselves are shared with the ledger.) *)
Theorem snapshot_is_a_new_list (h : ConversionHistory.t) (w : world)
    (rs new : list record) :
  records_at w (ConversionHistory._history h) = Some rs ->
  exists w1 snapshot w2,
    add_records h new w = (Return tt, w1)
    /\ ConversionHistory.get_history h w1 = (Return snapshot, w2)
    /\ records_at w2 snapshot = Some (rs ++ new)
    /\ length (rs ++ new) = (length rs + length new)%nat
    /\ snapshot <> ConversionHistory._history h
    /\ forall items, exists w3 snapshot' w4,
         list_assign snapshot items w2 = (Return tt, w3)
         /\ records_at w3 (ConversionHistory._history h) = Some (rs ++ new)
         /\ ConversionHistory.get_history h w3 = (Return snapshot', w4)
         /\ records_at w4 snapshot' = Some (rs ++ new).
Proof.
  intros Hrs. apply records_at_holds in Hrs.
  destruct (add_records_holds h new w rs Hrs) as (h1 & E1 & H1 & _ & _).
  destruct (get_history_holds h (set_heap h1 w) _ H1)
    as (items0 & E2 & Hl & H2 & Hne).
  eexists _, _, _. split_and!; [exact E1 | exact E2 | | | exact Hne |].
  - by apply records_at_holds.
  - apply length_app.
  - intros items.
    set (w2 := set_heap (heap (set_heap h1 w) ++ [OList items0]) (set_heap h1 w)).
    assert (Hs : heap w2 !! length h1 = Some (OList items0))
      by (cbn; by rewrite lookup_app_r, Nat.sub_diag).
    assert (H3 : holds (<[length h1 := OList items]> (heap w2))
                   (ConversionHistory._history h) (rs ++ new)).
    { eapply holds_assign_other; [| exact Hs | exact Hne].
      cbn. by apply holds_alloc. }
    destruct (get_history_holds h
                (set_heap (<[length h1 := OList items]> (heap w2)) w2) _ H3)
      as (items1 & E4 & _ & H4 & _).
    eexists _, _, _. split_and!.
    + unfold list_assign. fold w2. cbn [heap set_heap] in Hs |- *.
      by rewrite Hs.
    + by apply records_at_holds.
    + exact E4.
    + by apply records_at_holds.
Qed.

Lemma snapshot_is_a_new_list_witness :
  records_at fresh_world 0%nat = Some []
  /\ exists w1 snapshot w2,
       add_records (ConversionHistory.mk 0)
         [mkRecord (VStr (lit "IV")) (VInt 4) (VStr (lit "roman"));
          mkRecord (VInt 9) (VStr (lit "IX")) (VStr (lit "decimal"))]
         fresh_world = (Return tt, w1)
       /\ ConversionHistory.get_history (ConversionHistory.mk 0) w1
          = (Return snapshot, w2)
       /\ records_at w2 snapshot
          = Some ([] ++
              [mkRecord (VStr (lit "IV")) (VInt 4) (VStr (lit "roman"));
               mkRecord (VInt 9) (VStr (lit "IX")) (VStr (lit "decimal"))])
       /\ length ([] ++
              [mkRecord (VStr (lit "IV")) (VInt 4) (VStr (lit "roman"));
               mkRecord (VInt 9) (VStr (lit "IX")) (VStr (lit "decimal"))])
          = (length (@nil record) + 2)%nat
       /\ snapshot <> 0%nat
       /\ forall items, exists w3 snapshot' w4,
            list_assign snapshot items w2 = (Return tt, w3)
            /\ records_at w3 0%nat
               = Some ([] ++
                   [mkRecord (VStr (lit "IV")) (VInt 4) (VStr (lit "roman"));
                    mkRecord (VInt 9) (VStr (lit "IX")) (VStr (lit "decimal"))])
            /\ ConversionHistory.get_history (ConversionHistory.mk 0) w3
               = (Return snapshot', w4)
            /\ records_at w4 snapshot'
               = Some ([] ++
                   [mkRecord (VStr (lit "IV")) (VInt 4) (VStr (lit "roman"));
                    mkRecord (VInt 9) (VStr (lit "IX")) (VStr (lit "decimal"))]).
Proof.
  split; [reflexivity |].
  exact (snapshot_is_a_new_list (ConversionHistory.mk 0) fresh_world [] _
           eq_refl).
Defined.

(** C8: the code does not keep the records of a snapshot apart from the
    ledger.  [get_history] returns [self._history.copy()], a copy of the
    list whose items are the ledger's own record dictionaries: after
    [add_record('IV', 4, 'roman')], a snapshot, and an assignment of
    ['X'] to the key ['input'] of the record found in the snapshot, the
    ledger holds the record with input ['X'].  The claim, and the
    docstring of [get_history] (protected data), say that it still holds
    ['IV']. *)
Lemma snapshot_shares_the_records :
  (assign_through_snapshot empty_world).1
  = Return
      (Some [mkRecord (VStr (lit "IV")) (VInt 4) (VStr (lit "roman"))],
       Some [mkRecord (VStr (lit "X")) (VInt 4) (VStr (lit "roman"))])
  /\ mkRecord (VStr (lit "IV")) (VInt 4) (VStr (lit "roman"))
     <> mkRecord (VStr (lit "X")) (VInt 4) (VStr (lit "roman")).
Proof. split; [vm_compute; reflexivity | discriminate]. Qed.

(** ** The coordinator *)

Section System.

Lemma get_converter_unknown conversion_type :
  conversion_type <> lit "roman" -> conversion_type <> lit "decimal" ->
  ConverterFactory.get_converter conversion_type = None.
Proof.
  intros H1 H2. unfold ConverterFactory.get_converter, ConverterFactory.converters.
  rewrite lookup_insert_ne by done. by rewrite lookup_singleton_ne.
Qed.

Lemma convert_known sys w rs v conversion_type codec :
  ledger w sys = Some rs ->
  ConverterFactory.get_converter conversion_type = Some (mkConverter codec) ->
  converts_with codec
    (if bool_decide (conversion_type = lit "roman")
     then lit "roman" else lit "decimal")
    sys w rs v conversion_type.
Proof.
  intros Hrs Hget. apply records_at_holds in Hrs. split.
  - intros result Hres.
    destruct (add_record_holds (ConversionSystem.history sys) w rs v result
                (VStr (if bool_decide (conversion_type = lit "roman")
                       then lit "roman" else lit "decimal")) Hrs)
      as (h' & E & Hh & _).
    exists (set_heap h' w). split; [| by apply records_at_holds].
    unfold ConversionSystem.convert. rewrite Hget.
    unfold mbind, M_bind, mbind', lift. cbn [convert]. rewrite Hres.
    destruct (bool_decide (conversion_type = lit "roman")); by rewrite E.
  - intros e Hres. unfold ConversionSystem.convert. rewrite Hget.
    unfold mbind, M_bind, mbind', lift. cbn [convert].
    by rewrite Hres.
Qed.

End System.

(** C9: with the conversion type ['roman'] or ['decimal'], [convert] calls
    the converter of that direction; when it returns, [convert] returns
    its result and the ledger has exactly one more record, with the value,
    the result and the direction; an exception of the converter goes to
    the caller and the ledger stays as it is.  With any other conversion
    type [convert] raises the unknown-type error and appends nothing. *)
Theorem convert_records_one (sys : ConversionSystem.t) (w : world)
    (rs : list record) (v : value) (conversion_type : str) :
  ledger w sys = Some rs ->
  (conversion_type = lit "roman" ->
   converts_with RomanToDecimalConverter.convert (lit "roman")
     sys w rs v conversion_type)
  /\ (conversion_type = lit "decimal" ->
      converts_with DecimalToRomanConverter.convert (lit "decimal")
        sys w rs v conversion_type)
  /\ (conversion_type <> lit "roman" -> conversion_type <> lit "decimal" ->
      ConversionSystem.convert sys v conversion_type w
      = (Raise (UnknownConversionType conversion_type), w)).
Proof.
  intros Hrs. split_and!.
  - intros ->. by apply (convert_known sys w rs v (lit "roman")).
  - intros ->. by apply (convert_known sys w rs v (lit "decimal")).
  - intros H1 H2. unfold ConversionSystem.convert.
    by rewrite get_converter_unknown.
Qed.

Lemma convert_records_one_witness :
  ledger fresh_world fresh_system = Some []
  /\ exists w',
       ConversionSystem.convert fresh_system (VStr (lit "IV")) (lit "roman")
         fresh_world = (Return (VInt 4), w')
       /\ ledger w' fresh_system
          = Some [mkRecord (VStr (lit "IV")) (VInt 4) (VStr (lit "roman"))].
Proof.
  assert (H : ledger fresh_world fresh_system = Some []) by reflexivity.
  split; [exact H |].
  exact (proj1 (proj1 (convert_records_one fresh_system fresh_world []
                         (VStr (lit "IV")) (lit "roman") H) eq_refl)
           (VInt 4) eq_refl).
Defined.

(** ** Text *)

Section Text.

Implicit Types (s sub sep cur : str) (c : char).

Lemma startswith_app sub s : startswith sub (sub ++ s) = true.
Proof.
  induction sub as [| a sub IH]; [by destruct s |].
  cbn. by rewrite N.eqb_refl.
Qed.

Lemma contains_here sub s : contains sub (sub ++ s) = true.
Proof.
  destruct sub, s; cbn; rewrite ?N.eqb_refl, ?startswith_app; done.
Qed.

Lemma contains_app_r sub s1 s2 :
  contains sub s2 = true -> contains sub (s1 ++ s2) = true.
Proof.
  intros H. induction s1 as [| c s1 IH]; [done |].
  cbn [app contains]. rewrite IH. apply orb_true_r.
Qed.

(** A separator whose second character is not in [a], and differs from
    its first, does not start inside [a]. *)
Lemma startswith_second x y z c a t :
  y ∉ a -> y <> x -> startswith (x :: y :: z) (c :: a ++ x :: t) = false.
Proof.
  intros Hy Hne. cbn [startswith]. destruct (x =? c)%N; [| done].
  destruct a as [| c' a]; cbn [app startswith andb].
  - by rewrite (proj2 (N.eqb_neq y x) Hne).
  - apply not_elem_of_cons in Hy as [Hy _].
    by rewrite (proj2 (N.eqb_neq y c') Hy).
Qed.

Lemma contains_skip x y z a t0 t :
  y ∉ a -> t0 <> y ->
  contains (x :: y :: z) (a ++ t0 :: t) = contains (x :: y :: z) (t0 :: t).
Proof.
  intros Hy Hne. induction a as [| c a IH]; [done |].
  apply not_elem_of_cons in Hy as [Hc Hy].
  change ((c :: a) ++ t0 :: t) with (c :: (a ++ t0 :: t)).
  cbn [contains]. rewrite (IH Hy).
  replace (startswith (x :: y :: z) (c :: a ++ t0 :: t)) with false; [done |].
  symmetry. cbn [startswith]. destruct (x =? c)%N; [| done].
  destruct a as [| c' a]; cbn [app startswith andb].
  - by rewrite (proj2 (N.eqb_neq y t0)).
  - apply not_elem_of_cons in Hy as [Hy _].
    by rewrite (proj2 (N.eqb_neq y c') Hy).
Qed.

Lemma split_go_none sep s : forall cur,
  contains sep s = false -> split_go sep s 0 cur = [cur ++ s].
Proof.
  induction s as [| c s IH]; intros cur H; [by rewrite app_nil_r |].
  cbn [contains] in H. apply orb_false_iff in H as [H1 H2].
  cbn [split_go]. rewrite H1, (IH _ H2). by rewrite <- app_assoc.
Qed.

Lemma split_go_skip sep p s cur :
  split_go sep (p ++ s) (length p) cur = split_go sep s 0 cur.
Proof. induction p as [| c p IH]; [done | exact IH]. Qed.

Lemma split_go_first x y z a t : forall cur,
  y ∉ a -> y <> x ->
  split_go (x :: y :: z) (a ++ (x :: y :: z) ++ t) 0 cur
  = (cur ++ a) :: split_go (x :: y :: z) t 0 [].
Proof.
  induction a as [| c a IH]; intros cur Hy Hne.
  - rewrite app_nil_r, app_nil_l.
    change ((x :: y :: z) ++ t) with (x :: ((y :: z) ++ t)).
    cbn [split_go].
    change (x :: (y :: z) ++ t) with ((x :: y :: z) ++ t).
    rewrite startswith_app.
    replace (length (x :: y :: z) - 1)%nat with (length (y :: z))
      by (cbn; lia).
    by rewrite split_go_skip.
  - apply not_elem_of_cons in Hy as [Hc Hy].
    change ((c :: a) ++ (x :: y :: z) ++ t)
      with (c :: (a ++ x :: (y :: z) ++ t)).
    cbn [split_go]. rewrite startswith_second by done.
    change (a ++ x :: (y :: z) ++ t) with (a ++ (x :: y :: z) ++ t).
    rewrite (IH _ Hy Hne). by rewrite <- app_assoc.
Qed.

Lemma rstrip_by_keep p s c : p c = false -> rstrip_by p (s ++ [c]) = s ++ [c].
Proof.
  intros H. unfold rstrip_by. rewrite reverse_snoc. cbn [lstrip_by].
  rewrite H. by rewrite reverse_cons, reverse_involutive.
Qed.

Lemma rstrip_by_drop p s c : p c = true -> rstrip_by p (s ++ [c]) = rstrip_by p s.
Proof.
  intros H. unfold rstrip_by. rewrite reverse_snoc. cbn [lstrip_by].
  by rewrite H.
Qed.

Lemma universal_newlines_id s : CR ∉ s -> universal_newlines s = s.
Proof.
  induction s as [| c s IH]; [done |]. intros H.
  apply not_elem_of_cons in H as [Hc Hs]. cbn [universal_newlines].
  rewrite (proj2 (N.eqb_neq c CR)) by done. by rewrite IH.
Qed.

Lemma lines_go_line l rest : forall cur,
  LF ∉ l -> lines_go (l ++ LF :: rest) cur = (cur ++ l ++ [LF]) :: lines_go rest [].
Proof.
  induction l as [| c l IH]; intros cur H.
  - cbn. done.
  - apply not_elem_of_cons in H as [Hc Hl].
    cbn [app lines_go]. rewrite (proj2 (N.eqb_neq c LF)) by done.
    rewrite (IH _ Hl). by rewrite <- app_assoc.
Qed.

End Text.

(** ** Running a method *)

Lemma run_bind {A B} (m : M A) (k : A -> M B) w a w' :
  m w = (Return a, w') -> (m ≫= k) w = k a w'.
Proof. intros E. unfold mbind, M_bind, mbind'. by rewrite E. Qed.

Lemma for_eachM_app {A} (body : A -> M unit) xs ys w w' :
  for_eachM body xs w = (Return tt, w') ->
  for_eachM body (xs ++ ys) w = for_eachM body ys w'.
Proof.
  revert w. induction xs as [| x xs IH]; intros w E.
  - by injection E as <-.
  - cbn [app for_eachM] in *. unfold mbind' in *.
    destruct (body x w) as [[[] | e |] w1]; try discriminate. by apply IH.
Qed.

(** ** Saving *)

Section Save.

Import ConversionSystem.

(** The loop that writes one piece of text for each record. *)
Lemma write_records filename (line : record -> str) items : forall rs w c,
  Forall2 (fun a d => heap w !! a = Some (ODict d)) items rs ->
  files w !! filename = Some c ->
  exists w',
    for_eachM (fun a => d ← get_dict a; file_write filename (line d)) items w
    = (Return tt, w')
    /\ files w' !! filename = Some (c ++ concat (line <$> rs)).
Proof.
  induction items as [| a items IH]; intros rs w c H Hc.
  - apply Forall2_nil_inv_l in H as ->. exists w. by rewrite app_nil_r.
  - apply Forall2_cons_inv_l in H as (d & rs' & Ha & H & ->).
    destruct (IH rs' (set_files (<[filename := c ++ line d]> (files w)) w)
                (c ++ line d) H) as (w' & E & Hf).
    { cbn. apply lookup_insert_eq. }
    exists w'. split.
    + cbn [for_eachM]. unfold mbind'.
      erewrite run_bind; [| unfold get_dict, dict_at; by rewrite Ha].
      unfold file_write. rewrite Hc. exact E.
    + rewrite Hf. cbn [fmap list_fmap concat]. by rewrite <- app_assoc.
Qed.

(** Saving with a banner and one piece of text for each record. *)
Lemma save_spec sys filename banner line w rs :
  ledger w sys = Some rs ->
  exists w1,
    (_ ← open_w filename;
     _ ← file_write filename banner;
     snapshot ← ConversionHistory.get_history (history sys);
     items ← list_items snapshot;
     _ ← for_eachM
           (fun a => d ← get_dict a; file_write filename (line d)) items;
     print (lit "History saved to " ++ filename)) w
    = (Return tt, w1)
    /\ files w1 !! filename = Some (banner ++ concat (line <$> rs)).
Proof.
  intros Hrs. apply records_at_holds in Hrs.
  set (w0 := set_files (<[filename := [] ++ banner]>
                          (<[filename := []]> (files w))) w).
  destruct (get_history_holds (history sys) w0 rs Hrs)
    as (items & E & Hl & (items' & Hl' & H') & _).
  assert (items' = items) as ->.
  { cbn in Hl'. rewrite lookup_app_r, Nat.sub_diag in Hl' by done.
    by injection Hl'. }
  destruct (write_records filename line items rs
              (set_heap (heap w0 ++ [OList items]) w0) ([] ++ banner) H')
    as (w' & E' & Hf); [cbn; apply lookup_insert_eq |].
  eexists. split.
  - erewrite run_bind; [| reflexivity].
    erewrite run_bind;
      [| unfold file_write; cbn; rewrite lookup_insert_eq; reflexivity].
    erewrite run_bind; [| exact E].
    erewrite run_bind;
      [| unfold list_items, items_at; cbn;
         by rewrite lookup_app_r, Nat.sub_diag].
    erewrite run_bind; [| exact E']. reflexivity.
  - cbn. exact Hf.
Qed.

Lemma save_to_txt_spec sys filename w rs :
  ledger w sys = Some rs ->
  exists w1,
    save_to_txt sys filename w = (Return tt, w1)
    /\ files w1 !! filename = Some (txt_banner ++ concat (txt_line <$> rs)).
Proof.
  intros Hrs.
  destruct (save_spec sys filename txt_banner txt_line w rs Hrs)
    as (w1 & E & Hf).
  exists w1. split; [| done]. rewrite <- E. unfold save_to_txt.
  unfold mbind, M_bind, mbind', open_w, file_write. cbn.
  rewrite !lookup_insert_eq. cbn. rewrite !insert_insert_eq.
  reflexivity.
Qed.

End Save.

(** ** Loading the text format *)

Section LoadTxt.

Import ConversionSystem.

Local Abbreviation sep := txt_sep.
Local Abbreviation sep2 := txt_sep2.

(** The line of a record, in the shape the parser takes it apart. *)
Lemma txt_line_shape d :
  txt_line d
  = py_str (input d) ++ sep
      ++ (py_str (output d) ++ sep2 ++ direction_label d ++ [41%N]) ++ [LF].
Proof. unfold txt_line. by rewrite <- !app_assoc. Qed.

Lemma direction_label_cases d :
  (type d = VStr (lit "roman")
   /\ direction_label d = lit "Roman" ++ [arrow] ++ lit "Decimal")
  \/ (type d <> VStr (lit "roman")
      /\ direction_label d = lit "Decimal" ++ [arrow] ++ lit "Roman").
Proof. unfold direction_label. case_bool_decide; [left | right]; done. Qed.

Lemma strip_txt_line first c rest' :
  first = c :: rest' -> isspace c = false -> forall body,
  strip (first ++ body ++ [41%N] ++ [LF]) = first ++ body ++ [41%N].
Proof.
  intros -> Hc body. unfold strip. cbn [app lstrip_by]. rewrite Hc.
  change (c :: rest' ++ body ++ 41%N :: [LF])
    with ((c :: rest') ++ body ++ [41%N] ++ [LF]).
  rewrite !app_assoc. rewrite rstrip_by_drop by done.
  by rewrite rstrip_by_keep.
Qed.

Lemma load_txt_line_record self d :
  txt_safe d ->
  load_txt_line self (txt_line d)
  = ConversionHistory.add_record (history self)
      (input (txt_reloaded d)) (output (txt_reloaded d))
      (type (txt_reloaded d)).
Proof.
  intros (_ & _ & Hstart & Hi & Ho).
  assert (Hia : arrow ∉ py_str (input d)).
  { intros Hin. eapply Forall_forall in Hi; [| exact Hin]. set_solver. }
  assert (Hoa : arrow ∉ py_str (output d)).
  { intros Hin. eapply Forall_forall in Ho; [| exact Hin]. set_solver. }
  assert (Hop : 40%N ∉ py_str (output d)).
  { intros Hin. eapply Forall_forall in Ho; [| exact Hin]. set_solver. }
  unfold load_txt_line.
  replace (contains [arrow] (txt_line d)) with true.
  2:{ symmetry. rewrite txt_line_shape.
      change sep with ([32%N] ++ [arrow] ++ [32%N]).
      rewrite <- !app_assoc, (app_assoc _ [32%N]).
      apply contains_app_r, contains_here. }
  rewrite txt_line_shape.
  destruct (py_str (input d)) as [| c first'] eqn:Efirst; [done |].
  cbn [starts_with_text] in Hstart.
  replace (strip ((c :: first') ++ sep
             ++ (py_str (output d) ++ sep2 ++ direction_label d ++ [41%N])
             ++ [LF]))
    with ((c :: first') ++ sep
          ++ py_str (output d) ++ sep2 ++ direction_label d ++ [41%N]).
  2:{ pose proof (strip_txt_line (c :: first') c first' eq_refl Hstart
                    (sep ++ py_str (output d) ++ sep2 ++ direction_label d))
        as Hs.
      rewrite <- !app_assoc in Hs. rewrite <- !app_assoc. by rewrite Hs. }
  change (lit " " ++ [arrow] ++ lit " ") with sep.
  change (lit " (") with sep2.
  unfold split.
  unfold txt_sep at 1 2. rewrite (split_go_first 32%N arrow [32%N] _ _ _ Hia) by done.
  fold txt_sep.
  rewrite app_nil_l.
  assert (Hrest : forall label,
    contains sep ([32%N; 40%N] ++ label ++ [41%N]) = false ->
    contains sep (py_str (output d) ++ sep2 ++ label ++ [41%N]) = false).
  { intros label Hl. unfold txt_sep, txt_sep2 in *. cbn [app] in *.
    rewrite (contains_skip 32%N arrow [32%N] _ 32%N) by done. exact Hl. }
  assert (Hsplit2 : forall label,
    split_go sep2 (py_str (output d) ++ sep2 ++ label ++ [41%N]) 0 []
    = py_str (output d) :: split_go sep2 (label ++ [41%N]) 0 []).
  { intros label. unfold txt_sep2.
    by rewrite (split_go_first 32%N 40%N [] _ _ _ Hop). }
  unfold txt_reloaded.
  destruct (direction_label_cases d) as [[Ht ->] | [Ht ->]].
  - rewrite split_go_none by (apply Hrest; vm_compute; reflexivity).
    rewrite app_nil_l, Hsplit2.
    rewrite (bool_decide_eq_true_2 _ Ht).
    rewrite split_go_none by (vm_compute; reflexivity).
    cbn [input output type]. rewrite Efirst.
    lazymatch goal with
    | |- context [contains ?a (rstrip ?b ?t)] =>
        replace (contains a (rstrip b t)) with true
          by (vm_compute; reflexivity)
    end.
    reflexivity.
  - rewrite split_go_none by (apply Hrest; vm_compute; reflexivity).
    rewrite app_nil_l, Hsplit2.
    rewrite (bool_decide_eq_false_2 _ Ht).
    rewrite split_go_none by (vm_compute; reflexivity).
    cbn [input output type]. rewrite Efirst.
    lazymatch goal with
    | |- context [contains ?a (rstrip ?b ?t)] =>
        replace (contains a (rstrip b t)) with false
          by (vm_compute; reflexivity)
    end.
    reflexivity.
Qed.

(** A line without an arrow is passed over. *)
Lemma load_txt_line_banner self line :
  contains [arrow] line = false -> load_txt_line self line = mret tt.
Proof. intros H. unfold load_txt_line. by rewrite H. Qed.

Lemma load_txt_lines self rs : forall w rs0,
  Forall txt_safe rs ->
  holds (heap w) (ConversionHistory._history (history self)) rs0 ->
  exists h',
    for_eachM (load_txt_line self) (txt_line <$> rs) w
    = (Return tt, set_heap h' w)
    /\ holds h' (ConversionHistory._history (history self))
         (rs0 ++ (txt_reloaded <$> rs)).
Proof.
  induction rs as [| d rs IH]; intros w rs0 Hsafe Hh.
  - exists (heap w). rewrite app_nil_r. by destruct w.
  - apply Forall_cons in Hsafe as [Hd Hsafe].
    destruct (add_record_holds (history self) w rs0
                (input (txt_reloaded d)) (output (txt_reloaded d))
                (type (txt_reloaded d)) Hh) as (h1 & E1 & H1 & _).
    destruct (IH (set_heap h1 w) _ Hsafe H1) as (h2 & E2 & H2).
    exists h2. split.
    + cbn [fmap list_fmap for_eachM]. unfold mbind'.
      rewrite (load_txt_line_record self d Hd), E1. exact E2.
    + rewrite <- app_assoc in H2. cbn [fmap list_fmap].
      destruct (txt_reloaded d). exact H2.
Qed.

(** The lines of a saved file: the two banner lines and one line for
    each record. *)
Lemma no_line_end_in_line d c :
  txt_safe d -> c = LF \/ c = CR ->
  c ∉ py_str (input d) ++ sep
        ++ py_str (output d) ++ sep2 ++ direction_label d ++ [41%N].
Proof.
  intros (_ & _ & _ & Hi & Ho) Hc.
  assert (Hl : c ∉ direction_label d).
  { destruct (direction_label_cases d) as [[_ ->] | [_ ->]];
      destruct Hc as [-> | ->]; by_decide. }
  rewrite !not_elem_of_app. split_and!.
  - intros Hin. eapply Forall_forall in Hi; [| exact Hin].
    destruct Hc as [-> | ->]; set_solver.
  - destruct Hc as [-> | ->]; by_decide.
  - intros Hin. eapply Forall_forall in Ho; [| exact Hin].
    destruct Hc as [-> | ->]; set_solver.
  - destruct Hc as [-> | ->]; by_decide.
  - done.
  - destruct Hc as [-> | ->]; by_decide.
Qed.

Lemma readlines_txt rs :
  Forall txt_safe rs ->
  readlines (txt_banner ++ concat (txt_line <$> rs))
  = [lit "Conversion History:" ++ [LF]; lit "==================" ++ [LF]]
      ++ (txt_line <$> rs).
Proof.
  intros Hsafe. unfold readlines.
  assert (Hlines : lines_go (concat (txt_line <$> rs)) [] = txt_line <$> rs
                   /\ CR ∉ concat (txt_line <$> rs)).
  { induction Hsafe as [| d rs Hd _ [IH1 IH2]]; [split; [done | set_solver] |].
    cbn [fmap list_fmap concat]. split.
    - rewrite txt_line_shape at 1.
      rewrite (app_assoc _ sep), (app_assoc _ _ [LF]), <- (app_assoc _ [LF]).
      cbn [app]. rewrite lines_go_line.
      + rewrite IH1, app_nil_l. f_equal.
        rewrite txt_line_shape. by rewrite <- !app_assoc.
      + rewrite <- app_assoc. apply no_line_end_in_line; auto.
    - rewrite not_elem_of_app. split; [| done].
      rewrite txt_line_shape.
      rewrite (app_assoc _ sep), (app_assoc _ _ [LF]).
      rewrite not_elem_of_app. split; [| by_decide].
      rewrite <- app_assoc. apply no_line_end_in_line; auto. }
  destruct Hlines as [Hlines Hcr].
  rewrite universal_newlines_id.
  - unfold txt_banner. rewrite <- !app_assoc. cbn [app].
    rewrite lines_go_line by by_decide.
    rewrite lines_go_line by by_decide.
    by rewrite Hlines.
  - rewrite not_elem_of_app. split; [by_decide | done].
Qed.

Lemma load_from_txt_spec self filename w rs :
  Forall txt_safe rs ->
  files w !! filename = Some (txt_banner ++ concat (txt_line <$> rs)) ->
  holds (heap w) (ConversionHistory._history (history self)) [] ->
  exists w',
    load_from_txt self filename w = (Return tt, w')
    /\ ledger w' self = Some (txt_reloaded <$> rs).
Proof.
  intros Hsafe Hf Hh. unfold load_from_txt. rewrite Hf.
  rewrite (readlines_txt rs Hsafe).
  destruct (load_txt_lines self rs w [] Hsafe Hh) as (h' & E & H').
  eexists. split.
  - erewrite run_bind; [reflexivity |].
    cbn [app for_eachM]. unfold mbind'.
    rewrite !load_txt_line_banner by (vm_compute; reflexivity).
    unfold mret. exact E.
  - apply records_at_holds. exact H'.
Qed.

End LoadTxt.

(** ** The records [convert] makes *)

Section ConvertRecords.

Lemma lit_String a s : lit (String a s) = N_of_ascii a :: lit s.
Proof. reflexivity. Qed.

Lemma string_of_uint_digits d :
  Forall (fun c => (48 <= c <= 57)%N) (lit (NilEmpty.string_of_uint d)).
Proof.
  induction d; cbn [NilEmpty.string_of_uint]; [constructor | ..];
    rewrite lit_String; (constructor; [vm_compute; split; discriminate | done]).
Qed.

(** The text of an integer: digits, after a minus sign for a negative
    one; it is not empty. *)
Lemma str_of_int_chars n :
  str_of_int n <> []
  /\ Forall (fun c => c = 45%N \/ (48 <= c <= 57)%N) (str_of_int n).
Proof.
  unfold str_of_int.
  assert (Hu : forall d,
    lit (NilZero.string_of_uint d) <> []
    /\ Forall (fun c => (48 <= c <= 57)%N) (lit (NilZero.string_of_uint d))).
  { intros d. split.
    - by destruct d.
    - destruct d; try apply string_of_uint_digits.
      repeat constructor; discriminate. }
  destruct (Z.to_int n) as [d | d]; cbn [NilZero.string_of_int].
  - destruct (Hu d) as [Hne Hd]. split; [done |].
    eapply Forall_impl; [exact Hd | by right].
  - rewrite lit_String. split; [done |]. constructor; [by left |].
    eapply Forall_impl; [apply Hu | by right].
Qed.

Lemma str_of_int_txt n :
  starts_with_text (str_of_int n)
  /\ Forall (fun c => c ∉ [arrow; 40%N; LF; CR]) (str_of_int n).
Proof.
  destruct (str_of_int_chars n) as [Hne Hd].
  assert (Hc : forall c, c = 45%N \/ (48 <= c <= 57)%N ->
                isspace c = false /\ c ∉ [arrow; 40%N; LF; CR]).
  { intros c Hc.
    assert (Hin : c ∈ [45; 48; 49; 50; 51; 52; 53; 54; 55; 56; 57]%N).
    { rewrite !elem_of_cons. lia. }
    repeat (apply elem_of_cons in Hin as [-> | Hin];
            [split; [done | by_decide] |]).
    by apply elem_of_nil in Hin. }
  split.
  - destruct (str_of_int n) as [| c s]; [done |].
    apply Forall_cons in Hd as [Hd _]. by apply Hc.
  - eapply Forall_impl; [exact Hd |]. intros c Hd'. by apply Hc.
Qed.

Lemma roman_symbol_txt c :
  roman_symbol c ->
  isspace c = false /\ (c ∉ [arrow; 40%N; LF; CR]) /\ scalar c.
Proof.
  unfold roman_symbol. intros H.
  repeat (apply elem_of_cons in H as [-> | H];
          [split_and!; [done | by_decide | by_decide] |]).
  by apply elem_of_nil in H.
Qed.

Lemma roman_text_txt text :
  text <> [] -> Forall roman_symbol text ->
  starts_with_text text
  /\ Forall (fun c => c ∉ [arrow; 40%N; LF; CR]) text
  /\ Forall scalar text.
Proof.
  intros Hne Hall. split_and!.
  - destruct text as [| c text]; [done |].
    apply Forall_cons in Hall as [Hc _]. by apply roman_symbol_txt.
  - eapply Forall_impl; [exact Hall |]. intros c Hc. by apply roman_symbol_txt.
  - eapply Forall_impl; [exact Hall |]. intros c Hc. by apply roman_symbol_txt.
Qed.

Lemma without_parenthesis (s : str) :
  Forall (fun c => c ∉ [arrow; 40%N; LF; CR]) s ->
  Forall (fun c => c ∉ [arrow; LF; CR]) s.
Proof.
  intros H. eapply Forall_impl; [exact H |]. intros c Hc.
  rewrite !not_elem_of_cons in Hc. rewrite !not_elem_of_cons. tauto.
Qed.

(** The value of a numeral is at most 1000 for each symbol. *)
Lemma right_to_left_bound text :
  Z.abs (right_to_left text).1 <= 1000 * Z.of_nat (length text)
  /\ 0 <= (right_to_left text).2 <= 1000.
Proof.
  induction text as [| c text [IH1 IH2]]; [cbn; lia |].
  cbn [right_to_left length]. destruct (right_to_left text) as [total prev].
  cbn [fst snd] in *.
  assert (Hv : 0 <= symbol_value c <= 1000).
  { unfold symbol_value. repeat (destruct (_ =? _)%N; [lia |]). lia. }
  destruct (symbol_value c <? prev); cbn [fst snd]; lia.
Qed.

Lemma roman_result_renders text n :
  Forall roman_symbol text ->
  1000 * Z.of_nat (length text) < 10 ^ 4300 ->
  romanToDecimal text = Return (VInt n) -> renders (VInt n).
Proof.
  intros Hall Hlen E. unfold romanToDecimal in E.
  rewrite (convert_symbols text Hall) in E. injection E as <-.
  cbn [renders]. eapply Z.le_lt_trans; [| exact Hlen].
  apply right_to_left_bound.
Qed.

(** The record that [convert] makes of a numeral that is not empty is
    safe for the text format. *)
Lemma roman_record_txt_safe text n :
  text <> [] -> Forall roman_symbol text ->
  1000 * Z.of_nat (length text) < 10 ^ 4300 ->
  romanToDecimal text = Return (VInt n) ->
  txt_safe (mkRecord (VStr text) (VInt n) (VStr (lit "roman"))).
Proof.
  intros Hne Hall Hlen E.
  pose proof (roman_result_renders text n Hall Hlen E) as Hn.
  destruct (roman_text_txt text Hne Hall) as (H1 & H2 & H3).
  unfold txt_safe. cbn [input output py_str renders].
  split_and!; [done | done | done | by apply without_parenthesis |].
  apply str_of_int_txt.
Qed.

Lemma canonical_ok_range n : 1 <= n <= 3999 -> canonical_ok n = true.
Proof.
  intros Hn.
  assert (Hall : forallb canonical_ok (Z.of_nat <$> seq 1 3999) = true)
    by (vm_compute; reflexivity).
  rewrite forallb_forall in Hall. apply Hall.
  apply list_elem_of_In, list_elem_of_fmap. exists (Z.to_nat n).
  split; [lia |]. apply list_elem_of_In, in_seq. lia.
Qed.

(** The record that [convert] makes of a number is safe for the text
    format. *)
Lemma decimal_record_txt_safe n s :
  1 <= n <= 3999 -> decimalToRoman n = Return (VStr s) ->
  txt_safe (mkRecord (VInt n) (VStr s) (VStr (lit "decimal"))).
Proof.
  intros Hn E. pose proof (canonical_ok_range n Hn) as Hok.
  unfold canonical_ok in Hok. rewrite E in Hok.
  apply bool_decide_eq_true in Hok as (Hne & Hall & _).
  destruct (roman_text_txt s Hne Hall) as (_ & H2 & H5).
  destruct (str_of_int_txt n) as [H3 H4].
  unfold txt_safe. cbn [input output py_str renders].
  split_and!; [| done | done | by apply without_parenthesis | done].
  apply Z.lt_trans with 4000; [lia | vm_compute; reflexivity].
Qed.

(** The decimal text of a number has at most as many digits as the
    number has bits. *)
Lemma nb_digits_double d :
  (Decimal.nb_digits (Decimal.Little.double d) <= S (Decimal.nb_digits d))%nat
  /\ (Decimal.nb_digits (Decimal.Little.succ_double d)
      <= S (Decimal.nb_digits d))%nat.
Proof.
  induction d as [| d [IH1 IH2] | d [IH1 IH2] | d [IH1 IH2] | d [IH1 IH2]
                  | d [IH1 IH2] | d [IH1 IH2] | d [IH1 IH2] | d [IH1 IH2]
                  | d [IH1 IH2] | d [IH1 IH2]]; cbn; lia.
Qed.

Lemma nb_digits_to_little_uint p :
  (Decimal.nb_digits (Pos.to_little_uint p) <= Pos.size_nat p)%nat.
Proof.
  induction p as [p IH | p IH |]; cbn [Pos.to_little_uint Pos.size_nat].
  - pose proof (proj2 (nb_digits_double (Pos.to_little_uint p))). lia.
  - pose proof (proj1 (nb_digits_double (Pos.to_little_uint p))). lia.
  - cbn. lia.
Qed.

Lemma size_nat_bound p : forall k,
  Z.pos p < 2 ^ Z.of_nat k -> (Pos.size_nat p <= k)%nat.
Proof.
  induction p as [p IH | p IH |]; intros [| k] H; cbn [Pos.size_nat];
    try (cbn in H; lia);
    rewrite Nat2Z.inj_succ, Z.pow_succ_r in H by lia;
    specialize (IH k); lia.
Qed.

Lemma length_string_of_uint d :
  length (lit (NilEmpty.string_of_uint d)) = Decimal.nb_digits d.
Proof.
  induction d; cbn [NilEmpty.string_of_uint Decimal.nb_digits];
    rewrite ?lit_String; cbn [length]; by rewrite ?IHd.
Qed.

Lemma length_str_of_pos p :
  (length (lit (NilZero.string_of_uint (Pos.to_uint p))) <= Pos.size_nat p)%nat.
Proof.
  pose proof (nb_digits_to_little_uint p) as H.
  unfold Pos.to_uint. rewrite <- DecimalFacts.nb_digits_rev in H.
  destruct (Decimal.rev (Pos.to_little_uint p)) eqn:E;
    cbn [NilZero.string_of_uint];
    try (rewrite length_string_of_uint; exact H).
  change (length (lit "0")) with 1%nat.
  destruct p; cbn [Pos.size_nat]; lia.
Qed.

Lemma length_str_of_int n k :
  0 <= k -> Z.abs n < 2 ^ k -> Z.of_nat (length (str_of_int n)) <= k + 2.
Proof.
  intros Hk H. unfold str_of_int.
  assert (Hp : forall p, Z.pos p < 2 ^ k ->
    Z.of_nat (length (lit (NilZero.string_of_uint (Pos.to_uint p)))) <= k).
  { intros p Hlt. pose proof (length_str_of_pos p) as H1.
    pose proof (size_nat_bound p (Z.to_nat k)) as H2.
    rewrite Z2Nat.id in H2 by done. specialize (H2 Hlt). lia. }
  destruct n as [| p | p]; cbn [Z.to_int NilZero.string_of_int].
  - change (length (lit (NilZero.string_of_uint (Decimal.D0 Decimal.Nil))))
      with 1%nat. lia.
  - specialize (Hp p H). lia.
  - rewrite lit_String. cbn [length]. specialize (Hp p H). lia.
Qed.

(** An integer that can be written is a safe field of the tabular
    format. *)
Lemma int_csv_safe n : renders (VInt n) -> csv_safe_field (VInt n).
Proof.
  intros Hn. split; [done |]. cbn [csv.field_text renders] in *. split.
  - destruct (str_of_int_txt n) as [_ H]. intros Hin.
    eapply Forall_forall in H; [| exact Hin].
    rewrite !not_elem_of_cons in H. tauto.
  - assert (Hk : Z.abs n < 2 ^ 16384).
    { eapply Z.lt_trans; [exact Hn |]. vm_compute. reflexivity. }
    assert (H0 : 0 <= 16384) by done.
    pose proof (length_str_of_int n 16384 H0 Hk) as Hlen.
    clear Hn Hk. unfold csv.field_limit. lia.
Qed.

Lemma roman_text_csv_safe text :
  Forall roman_symbol text ->
  (N.of_nat (length text) <= csv.field_limit)%N ->
  csv_safe_field (VStr text).
Proof.
  intros Hall Hlen. unfold csv_safe_field. cbn [csv.field_text renders].
  split_and!; [| | done].
  - eapply Forall_impl; [exact Hall |]. intros c Hc. by apply roman_symbol_txt.
  - intros Hin. eapply Forall_forall in Hall; [| exact Hin].
    apply roman_symbol_txt in Hall as (_ & H & _).
    rewrite !not_elem_of_cons in H. tauto.
Qed.

(** The records that [convert] makes are safe for the tabular format,
    when the numeral is not longer than the reader's limit. *)
Lemma roman_record_csv_safe text n :
  Forall roman_symbol text ->
  (N.of_nat (length text) <= csv.field_limit)%N ->
  romanToDecimal text = Return (VInt n) ->
  csv_safe (mkRecord (VStr text) (VInt n) (VStr (lit "roman"))).
Proof.
  intros Hall Hlen E.
  assert (Hn : renders (VInt n)).
  { apply (roman_result_renders text n Hall); [| done].
    apply Z.le_lt_trans with (1000 * 131072); [| vm_compute; reflexivity].
    unfold csv.field_limit in Hlen. lia. }
  unfold csv_safe. cbn [input output type].
  split_and!; [by apply roman_text_csv_safe | by apply int_csv_safe |].
  unfold csv_safe_field. cbn [csv.field_text renders].
  split_and!; [by_decide | by_decide | vm_compute; discriminate].
Qed.

Lemma decimal_record_csv_safe n s :
  1 <= n <= 3999 -> decimalToRoman n = Return (VStr s) ->
  csv_safe (mkRecord (VInt n) (VStr s) (VStr (lit "decimal"))).
Proof.
  intros Hn E. pose proof (canonical_ok_range n Hn) as Hok.
  unfold canonical_ok in Hok. rewrite E in Hok.
  apply bool_decide_eq_true in Hok as (_ & Hall & Hlen).
  unfold csv_safe. cbn [input output type]. split_and!.
  - apply int_csv_safe. cbn [renders].
    apply Z.lt_trans with 4000; [lia | vm_compute; reflexivity].
  - apply roman_text_csv_safe; [done |]. unfold csv.field_limit. lia.
  - unfold csv_safe_field. cbn [csv.field_text renders].
    split_and!; [by_decide | by_decide | vm_compute; discriminate].
Qed.

End ConvertRecords.

Lemma init_holds w :
  exists sys2,
    ConversionSystem.__init__ w
    = (Return sys2, set_heap (heap w ++ [OList []]) w)
    /\ holds (heap w ++ [OList []])
         (ConversionHistory._history (ConversionSystem.history sys2)) [].
Proof.
  eexists. split; [reflexivity |]. exists []. cbn.
  split; [by rewrite lookup_app_r, Nat.sub_diag | constructor].
Qed.

(** C4 (as amended): for a ledger whose records are all safe for the text
    format (input and output can be written as text, the text of the
    input starts with a character that is not white space, the texts of
    input and output have no arrow and no line end, and the text of the
    output has no opening parenthesis), saving
    to the text format and loading the file into a new ledger gives as
    many records, in the same order: a record of type ['roman'] comes back
    with the texts of its input and output, a record of any other type
    comes back with type ['decimal'], the text of its output as input and
    the text of its input as output. *)
Theorem txt_round_trip (sys : ConversionSystem.t) (w : world)
    (rs : list record) (filename : str) :
  ledger w sys = Some rs ->
  Forall txt_safe rs ->
  exists w1 sys2 w2 w3,
    ConversionSystem.save_to_txt sys filename w = (Return tt, w1)
    /\ ConversionSystem.__init__ w1 = (Return sys2, w2)
    /\ ConversionSystem.load_from_txt sys2 filename w2 = (Return tt, w3)
    /\ ledger w3 sys2 = Some (txt_reloaded <$> rs).
Proof.
  intros Hrs Hsafe.
  destruct (save_to_txt_spec sys filename w rs Hrs) as (w1 & E1 & Hf).
  destruct (init_holds w1) as (sys2 & E2 & Hh).
  destruct (load_from_txt_spec sys2 filename
              (set_heap (heap w1 ++ [OList []]) w1) rs Hsafe Hf Hh)
    as (w3 & E3 & Hl).
  by exists w1, sys2, (set_heap (heap w1 ++ [OList []]) w1), w3.
Qed.

Lemma txt_round_trip_witness :
  ledger sample_world fresh_system = Some sample_records
  /\ Forall txt_safe sample_records
  /\ exists w1 sys2 w2 w3,
       ConversionSystem.save_to_txt fresh_system (lit "h.txt") sample_world
       = (Return tt, w1)
       /\ ConversionSystem.__init__ w1 = (Return sys2, w2)
       /\ ConversionSystem.load_from_txt sys2 (lit "h.txt") w2
          = (Return tt, w3)
       /\ ledger w3 sys2
          = Some [mkRecord (VStr (lit "XIV")) (VStr (lit "14"))
                    (VStr (lit "roman"));
                  mkRecord (VStr (lit "IX")) (VStr (lit "9"))
                    (VStr (lit "decimal"))].
Proof.
  assert (H1 : ledger sample_world fresh_system = Some sample_records)
    by reflexivity.
  assert (H2 : Forall txt_safe sample_records).
  { repeat constructor; try reflexivity; by_decide. }
  split; [exact H1 |]. split; [exact H2 |].
  exact (txt_round_trip fresh_system sample_world sample_records
           (lit "h.txt") H1 H2).
Defined.

(** C4 as stated does not hold.  After [convert] on the empty numeral and
    on IV the ledger holds two records of type ['roman']; the file read
    back gives one record: the line of the first one starts with the
    separator and is passed over, and the second one comes back with the
    text ['4'] where it had the integer 4. *)
Lemma txt_round_trip_changes_records :
  (round_trip ConversionSystem.save_to_txt ConversionSystem.load_from_txt
     (fun sys =>
        _ ← ConversionSystem.convert sys (VStr []) (lit "roman");
        _ ← ConversionSystem.convert sys (VStr (lit "IV")) (lit "roman");
        mret tt)
     (lit "conversions.txt") empty_world).1
  = Return
      (Some [mkRecord (VStr []) (VInt 0) (VStr (lit "roman"));
             mkRecord (VStr (lit "IV")) (VInt 4) (VStr (lit "roman"))],
       Some [mkRecord (VStr (lit "IV")) (VStr (lit "4"))
               (VStr (lit "roman"))])
  /\ [mkRecord (VStr []) (VInt 0) (VStr (lit "roman"));
      mkRecord (VStr (lit "IV")) (VInt 4) (VStr (lit "roman"))]
     <> [mkRecord (VStr (lit "IV")) (VStr (lit "4")) (VStr (lit "roman"))].
Proof. split; [vm_compute; reflexivity | discriminate]. Qed.

(** ** The reader of the tabular format *)

Section Reader.

Import csv.

Variable body : gmap str value -> M unit.

Local Abbreviation step := csv_step.

Lemma for_each_app {A S} (f : S -> A -> outcome S) xs ys (s : S) :
  for_each f (xs ++ ys) s = for_each f xs s ≫= for_each f ys.
Proof.
  revert s. induction xs as [| x xs IH]; intros s; [done |].
  cbn [app for_each]. unfold mbind, outcome_bind, obind.
  destruct (f s x); [apply IH | done | done].
Qed.

Lemma parse_line_app r cur l :
  parse_line r (cur ++ l) = for_each step cur r ≫= fun r' => parse_line r' l.
Proof.
  unfold parse_line. fold csv_step. rewrite for_each_app.
  unfold mbind, outcome_bind, obind. by destruct (for_each step cur r).
Qed.

(** Lines and characters agree: the reader that has taken the lines before
    and is given the rest of the text, with [cur] of the current line
    already seen, does what the character reader does after [cur]. *)
Lemma DictReader_for_stream s : forall fn cur r0,
  DictReader_for body fn r0 (lines_go s cur)
  = match for_each step cur r0 with
    | Return r =>
        DictReader_stream body fn r s (negb (bool_decide (cur = [])))
    | Raise e => mraise e
    | Diverge => lift Diverge
    end.
Proof.
  induction s as [| c s IH]; intros fn cur r0.
  - destruct cur as [| c cur]; [reflexivity |].
    cbn [lines_go DictReader_for].
    rewrite <- (app_nil_r (c :: cur)) at 1. rewrite parse_line_app.
    unfold mbind, outcome_bind, obind.
    by destruct (for_each step (c :: cur) r0).
  - cbn [lines_go DictReader_stream].
    destruct (c =? LF)%N eqn:Ec.
    + cbn [DictReader_for]. rewrite parse_line_app.
      unfold mbind, outcome_bind, obind.
      destruct (for_each step cur r0) as [r | e |]; [| done | done].
      destruct (parse_line r [c]) as [r' | e |]; [| done | done].
      destruct (state r'); try (by rewrite (IH fn [] r')).
      unfold DictReader_row.
      destruct fn as [fn |]; [destruct (fields r') |];
        by rewrite (IH _ [] parse_reset).
    + rewrite (IH fn (cur ++ [c]) r0), for_each_app.
      unfold mbind, outcome_bind, obind.
      destruct (for_each step cur r0) as [r | e |]; [| done | done].
      cbn [for_each]. unfold mbind, outcome_bind, obind.
      change (csv_step r c) with (parse_process_char r (Some c)).
      destruct (parse_process_char r (Some c)) as [r' | e |]; [| done | done].
      by destruct cur.
Qed.

Local Abbreviation stream := (DictReader_stream body).

Ltac reader_simpl :=
  unfold set_state, parse_save_field, end_of_line; cbn [state fields field].
Ltac outcome_simpl :=
  unfold mbind, outcome_bind, obind; cbn beta iota.

Lemma parse_add_char_ok st fs pre c :
  (N.of_nat (length pre) < field_limit)%N ->
  parse_add_char (mkReader st fs pre) c = Return (mkReader st fs (pre ++ [c])).
Proof.
  intros H. unfold parse_add_char. cbn [field fields state].
  by destruct (N.leb_spec field_limit (N.of_nat (length pre))); [lia |].
Qed.

Lemma length_snoc_limit pre c (f : str) :
  (N.of_nat (length (pre ++ c :: f)) <= field_limit)%N ->
  (N.of_nat (length pre) < field_limit)%N
  /\ (N.of_nat (length ((pre ++ [c]) ++ f)) <= field_limit)%N.
Proof. rewrite <- app_assoc. cbn [app]. rewrite !length_app. cbn. lia. Qed.

(** The characters of a field that needs no quotes. *)
Lemma stream_plain fn fs f : forall pre s,
  existsb must_quote f = false ->
  (N.of_nat (length (pre ++ f)) <= field_limit)%N ->
  stream fn (mkReader IN_FIELD fs pre) (f ++ s) true
  = stream fn (mkReader IN_FIELD fs (pre ++ f)) s true.
Proof.
  induction f as [| c f IH]; intros pre s Hq Hlen.
  - by rewrite app_nil_r.
  - cbn [existsb] in Hq. apply orb_false_iff in Hq as [Hc Hq].
    apply length_snoc_limit in Hlen as [Hlt Hlen].
    unfold must_quote in Hc. rewrite !orb_false_iff in Hc.
    destruct Hc as [[Hd Hqc] Hnl].
    rewrite bool_decide_eq_false in Hnl.
    assert (Hlf : (c =? LF)%N = false) by (apply N.eqb_neq; set_solver).
    assert (Hcr : (c =? CR)%N = false) by (apply N.eqb_neq; set_solver).
    cbn [app DictReader_stream]. rewrite Hlf.
    unfold parse_process_char. cbn [state]. unfold is_nl.
    rewrite Hlf, Hcr, Hd. cbn [orb].
    rewrite parse_add_char_ok by done.
    rewrite (IH (pre ++ [c]) s Hq Hlen). by rewrite <- app_assoc.
Qed.

Lemma parse_line_one r c :
  parse_line r [c]
  = parse_process_char r (Some c) ≫= fun r' => parse_process_char r' None.
Proof.
  unfold parse_line. cbn [for_each]. outcome_simpl.
  by destruct (parse_process_char r (Some c)).
Qed.

Lemma step_in_quoted fs pre c :
  (c =? quotechar)%N = false ->
  (N.of_nat (length pre) < field_limit)%N ->
  parse_process_char (mkReader IN_QUOTED_FIELD fs pre) (Some c)
  = Return (mkReader IN_QUOTED_FIELD fs (pre ++ [c])).
Proof.
  intros Hq Hlt. unfold parse_process_char. cbn [state]. rewrite Hq.
  by apply parse_add_char_ok.
Qed.

Lemma step_doubled_quote fs pre :
  (N.of_nat (length pre) < field_limit)%N ->
  parse_process_char (mkReader QUOTE_IN_QUOTED_FIELD fs pre) (Some quotechar)
  = Return (mkReader IN_QUOTED_FIELD fs (pre ++ [quotechar])).
Proof.
  intros Hlt. unfold parse_process_char. cbn [state N.eqb quotechar Pos.eqb].
  rewrite parse_add_char_ok by done. by outcome_simpl.
Qed.

(** The characters of a field inside quotes, and the closing quote. *)
Lemma stream_quoted fn fs f : forall pre s p,
  CR ∉ f ->
  (N.of_nat (length (pre ++ f)) <= field_limit)%N ->
  stream fn (mkReader IN_QUOTED_FIELD fs pre)
    (csv_escape f ++ quotechar :: s) p
  = stream fn (mkReader QUOTE_IN_QUOTED_FIELD fs (pre ++ f)) s true.
Proof.
  induction f as [| c f IH]; intros pre s p Hcr Hlen.
  - by rewrite app_nil_r.
  - apply not_elem_of_cons in Hcr as [Hc Hcr].
    apply length_snoc_limit in Hlen as [Hlt Hlen].
    cbn [csv_escape flat_map]. fold (csv_escape f).
    replace (pre ++ c :: f) with ((pre ++ [c]) ++ f)
      by (by rewrite <- app_assoc).
    rewrite <- (IH (pre ++ [c]) s true Hcr Hlen).
    destruct (c =? quotechar)%N eqn:Eq.
    + apply N.eqb_eq in Eq as ->.
      change (([quotechar; quotechar] ++ csv_escape f) ++ quotechar :: s)
        with (quotechar :: quotechar :: csv_escape f ++ quotechar :: s).
      cbn [DictReader_stream].
      change (quotechar =? LF)%N with false. cbn iota.
      change (parse_process_char (mkReader IN_QUOTED_FIELD fs pre)
                (Some quotechar))
        with (Return (mkReader QUOTE_IN_QUOTED_FIELD fs pre)).
      cbn iota. by rewrite step_doubled_quote.
    + cbn [app DictReader_stream].
      destruct (c =? LF)%N eqn:Elf.
      * rewrite parse_line_one, step_in_quoted by done.
        outcome_simpl. unfold parse_process_char. cbn [state].
        by rewrite (IH (pre ++ [c]) s false Hcr Hlen),
             (IH (pre ++ [c]) s true Hcr Hlen).
      * by rewrite step_in_quoted.
Qed.

Lemma must_quote_false c :
  must_quote c = false ->
  (c =? delimiter)%N = false /\ (c =? quotechar)%N = false
  /\ (c =? LF)%N = false /\ (c =? CR)%N = false.
Proof.
  unfold must_quote. rewrite !orb_false_iff, bool_decide_eq_false.
  intros [[Hd Hq] Hnl]. split_and!; [done | done | |];
    apply N.eqb_neq; set_solver.
Qed.

Lemma step_first_plain st fs c :
  st = START_RECORD \/ st = START_FIELD ->
  must_quote c = false ->
  parse_process_char (mkReader st fs []) (Some c)
  = Return (mkReader IN_FIELD fs [c]).
Proof.
  intros Hst Hc. apply must_quote_false in Hc as (Hd & Hq & Hlf & Hcr).
  destruct Hst as [-> | ->]; unfold parse_process_char, start_field;
    cbn [state]; unfold is_nl; rewrite ?Hlf, ?Hcr, ?Hq, ?Hd; cbn [orb];
    reader_simpl; rewrite ?Hlf, ?Hcr, ?Hq, ?Hd; cbn [orb];
    (rewrite parse_add_char_ok by (cbn; unfold field_limit; lia));
    by outcome_simpl.
Qed.

Lemma step_open_quote st fs :
  st = START_RECORD \/ st = START_FIELD ->
  parse_process_char (mkReader st fs []) (Some quotechar)
  = Return (mkReader IN_QUOTED_FIELD fs []).
Proof. by intros [-> | ->]. Qed.

Lemma stream_field fn st fs f s p :
  st = START_RECORD \/ st = START_FIELD ->
  CR ∉ f ->
  (N.of_nat (length f) <= field_limit)%N ->
  exists r p',
    field_read st fs f r
    /\ stream fn (mkReader st fs []) (join_append f ++ s) p = stream fn r s p'.
Proof.
  intros Hst Hcr Hlen. unfold join_append.
  destruct (existsb must_quote f) eqn:Hq.
  - exists (mkReader QUOTE_IN_QUOTED_FIELD fs f), true.
    split; [right; by left |].
    rewrite <- !app_assoc. cbn [app DictReader_stream].
    change (quotechar =? LF)%N with false. cbn iota.
    rewrite (step_open_quote st fs Hst).
    fold (csv_escape f). by rewrite stream_quoted.
  - destruct f as [| c f].
    + exists (mkReader st fs []), p. split; [| done]. right. by right.
    + exists (mkReader IN_FIELD fs (c :: f)), true. split; [by left |].
      cbn [existsb] in Hq. apply orb_false_iff in Hq as [Hc Hq].
      cbn [app DictReader_stream].
      rewrite (proj1 (proj2 (proj2 (must_quote_false c Hc)))).
      rewrite (step_first_plain st fs c Hst Hc).
      by rewrite (stream_plain fn fs f [c] s Hq Hlen).
Qed.

(** The delimiter after a field. *)
Lemma stream_delimiter fn st fs f r s p :
  st = START_RECORD \/ st = START_FIELD ->
  field_read st fs f r ->
  stream fn r (delimiter :: s) p
  = stream fn (mkReader START_FIELD (fs ++ [f]) []) s true.
Proof.
  intros Hst [-> | [-> | [-> ->]]]; [done | done |].
  by destruct Hst as [-> | ->].
Qed.

(** The end of the line after the last field. *)
Lemma stream_line_end fn fs f r s p :
  field_read START_FIELD fs f r ->
  stream fn r (LF :: s) p
  = DictReader_row body fn (fs ++ [f])
      (fun fn' => stream fn' parse_reset s false).
Proof. by intros [-> | [-> | [-> ->]]]. Qed.

Lemma stream_row fn f1 f2 f3 s :
  CR ∉ f1 -> CR ∉ f2 -> CR ∉ f3 ->
  (N.of_nat (length f1) <= field_limit)%N ->
  (N.of_nat (length f2) <= field_limit)%N ->
  (N.of_nat (length f3) <= field_limit)%N ->
  stream fn parse_reset (row_line f1 f2 f3 ++ s) false
  = DictReader_row body fn [f1; f2; f3]
      (fun fn' => stream fn' parse_reset s false).
Proof.
  intros C1 C2 C3 L1 L2 L3.
  replace (row_line f1 f2 f3 ++ s)
    with (join_append f1 ++ delimiter :: join_append f2
            ++ delimiter :: join_append f3 ++ LF :: s)
    by (unfold row_line; repeat (rewrite <- app_assoc; cbn [app]); done).
  unfold parse_reset.
  destruct (stream_field fn START_RECORD [] f1
              (delimiter :: join_append f2 ++ delimiter :: join_append f3 ++ LF :: s)
              false (or_introl eq_refl) C1 L1) as (r1 & p1 & R1 & ->).
  rewrite (stream_delimiter fn START_RECORD [] f1 r1 _ p1 (or_introl eq_refl) R1).
  destruct (stream_field fn START_FIELD ([] ++ [f1]) f2
              (delimiter :: join_append f3 ++ LF :: s)
              true (or_intror eq_refl) C2 L2) as (r2 & p2 & R2 & ->).
  rewrite (stream_delimiter fn START_FIELD _ f2 r2 _ p2 (or_intror eq_refl) R2).
  destruct (stream_field fn START_FIELD (([] ++ [f1]) ++ [f2]) f3
              (LF :: s) true (or_intror eq_refl) C3 L3) as (r3 & p3 & R3 & ->).
  by rewrite (stream_line_end fn _ f3 r3 s p3 R3).
Qed.

End Reader.


(** ** The tabular format *)

Section Csv.

Import csv ConversionSystem.

Lemma universal_newlines_crlf a rest :
  CR ∉ a ->
  universal_newlines (a ++ CR :: LF :: rest) = a ++ LF :: universal_newlines rest.
Proof.
  induction a as [| c a IH]; intros H; [done |].
  apply not_elem_of_cons in H as [Hc Ha]. cbn [app universal_newlines].
  rewrite (proj2 (N.eqb_neq c CR)) by done. by rewrite IH.
Qed.

Lemma join_append_no_CR f : CR ∉ f -> CR ∉ join_append f.
Proof.
  intros H. unfold join_append. destruct (existsb must_quote f); [| done].
  rewrite !not_elem_of_app. split_and!; [by_decide | | by_decide].
  rewrite list_elem_of_In, in_flat_map. intros (c & Hc & Hin).
  apply list_elem_of_In in Hc, Hin.
  assert (c = CR) as ->; [| done].
  destruct (c =? quotechar)%N;
    repeat (apply elem_of_cons in Hin as [-> | Hin]; [done |]);
    by apply elem_of_nil in Hin.
Qed.

Lemma writerow_three v1 v2 v3 :
  writerow [v1; v2; v3]
  = join_append (field_text v1) ++ delimiter :: join_append (field_text v2)
      ++ delimiter :: join_append (field_text v3) ++ [CR; LF].
Proof.
  unfold writerow. cbn [fmap list_fmap join compose].
  unfold lineterminator.
  destruct (join_append (field_text v1)); cbn [app];
    repeat (rewrite <- app_assoc; cbn [app]); done.
Qed.

Lemma universal_newlines_row v1 v2 v3 rest :
  CR ∉ field_text v1 -> CR ∉ field_text v2 -> CR ∉ field_text v3 ->
  universal_newlines (writerow [v1; v2; v3] ++ rest)
  = row_line (field_text v1) (field_text v2) (field_text v3)
      ++ universal_newlines rest.
Proof.
  intros C1 C2 C3. rewrite writerow_three. unfold row_line.
  replace ((join_append (field_text v1) ++ delimiter
              :: join_append (field_text v2) ++ delimiter
              :: join_append (field_text v3) ++ [CR; LF]) ++ rest)
    with ((join_append (field_text v1) ++ delimiter
              :: join_append (field_text v2) ++ delimiter
              :: join_append (field_text v3)) ++ CR :: LF :: rest)
    by (repeat (rewrite <- app_assoc; cbn [app]); done).
  rewrite universal_newlines_crlf.
  - repeat (rewrite <- app_assoc; cbn [app]). done.
  - rewrite not_elem_of_app, not_elem_of_cons, not_elem_of_app,
      not_elem_of_cons.
    split_and!; try by apply join_append_no_CR. all: by_decide.
Qed.

Lemma universal_newlines_rows rs :
  Forall csv_safe rs ->
  universal_newlines (concat (writerow ∘ _dict_to_list <$> rs))
  = concat (record_line <$> rs).
Proof.
  induction 1 as [| d rs ((_ & C1 & _) & (_ & C2 & _) & (_ & C3 & _)) _ IH];
    [done |].
  cbn [fmap list_fmap concat compose]. unfold _dict_to_list at 1.
  rewrite universal_newlines_row by done. by rewrite IH.
Qed.

Lemma DictReader_dict_three f1 f2 f3 :
  DictReader_dict fieldnames [f1; f2; f3] !! lit "input" = Some (VStr f1)
  /\ DictReader_dict fieldnames [f1; f2; f3] !! lit "output" = Some (VStr f2)
  /\ DictReader_dict fieldnames [f1; f2; f3] !! lit "type" = Some (VStr f3).
Proof. split_and!; vm_compute; reflexivity. Qed.

Lemma load_csv_row_three self f1 f2 f3 :
  load_csv_row self (DictReader_dict fieldnames [f1; f2; f3])
  = ConversionHistory.add_record (history self) (VStr f1) (VStr f2) (VStr f3).
Proof.
  unfold load_csv_row, getitem.
  destruct (DictReader_dict_three f1 f2 f3) as (-> & -> & ->).
  reflexivity.
Qed.

Lemma load_csv_rows self rs : forall w rs0,
  Forall csv_safe rs ->
  holds (heap w) (ConversionHistory._history (history self)) rs0 ->
  exists h',
    DictReader_stream (load_csv_row self) (Some fieldnames) parse_reset
      (concat (record_line <$> rs)) false w
    = (Return tt, set_heap h' w)
    /\ holds h' (ConversionHistory._history (history self))
         (rs0 ++ (csv_reloaded <$> rs)).
Proof.
  induction rs as [| d rs IH]; intros w rs0 Hsafe Hh.
  - exists (heap w). rewrite app_nil_r. by destruct w.
  - apply Forall_cons in Hsafe
      as [((_ & C1 & L1) & (_ & C2 & L2) & (_ & C3 & L3)) Hsafe].
    destruct (add_record_holds (history self) w rs0
                (VStr (field_text (input d))) (VStr (field_text (output d)))
                (VStr (field_text (type d))) Hh) as (h1 & E1 & H1 & _).
    destruct (IH (set_heap h1 w) _ Hsafe H1) as (h2 & E2 & H2).
    exists h2. split.
    + cbn [fmap list_fmap concat]. unfold record_line at 1.
      rewrite stream_row by done.
      unfold DictReader_row. rewrite load_csv_row_three.
      erewrite run_bind; [| exact E1]. exact E2.
    + by rewrite <- app_assoc in H2.
Qed.

Lemma save_to_csv_spec sys filename w rs :
  ledger w sys = Some rs ->
  exists w1,
    save_to_csv sys filename w = (Return tt, w1)
    /\ files w1 !! filename
       = Some (writerow (VStr <$> fieldnames)
                 ++ concat (writerow ∘ _dict_to_list <$> rs)).
Proof.
  intros Hrs.
  destruct (save_spec sys filename (writerow (VStr <$> fieldnames))
              (writerow ∘ _dict_to_list) w rs Hrs) as (w1 & E & Hf).
  by exists w1.
Qed.

Lemma load_from_csv_spec self filename w rs :
  Forall csv_safe rs ->
  files w !! filename
  = Some (writerow (VStr <$> fieldnames)
            ++ concat (writerow ∘ _dict_to_list <$> rs)) ->
  holds (heap w) (ConversionHistory._history (history self)) [] ->
  exists w',
    load_from_csv self filename w = (Return tt, w')
    /\ ledger w' self = Some (csv_reloaded <$> rs).
Proof.
  intros Hsafe Hf Hh. unfold load_from_csv. rewrite Hf.
  fold (load_csv_row self). unfold readlines.
  rewrite (DictReader_for_stream (load_csv_row self)). cbn [for_each].
  change (negb (bool_decide ([] = []))) with false.
  change (VStr <$> fieldnames)
    with [VStr (lit "input"); VStr (lit "output"); VStr (lit "type")].
  rewrite universal_newlines_row by by_decide.
  rewrite universal_newlines_rows by done.
  cbn [field_text].
  destruct (load_csv_rows self rs w [] Hsafe Hh) as (h' & E & H').
  eexists. split.
  - erewrite run_bind; [reflexivity |].
    rewrite stream_row; [| by_decide | by_decide | by_decide | | |];
      try (vm_compute; discriminate).
    unfold DictReader_row. exact E.
  - apply records_at_holds. exact H'.
Qed.

End Csv.

(** C3 (as amended): for a ledger whose records can be written as text,
    have no carriage return in the text of a field, and no field longer
    than the reader's limit of 131072 characters, saving to the tabular
    format and loading the file into a new ledger gives as many records,
    in the same order, each with the texts of the three fields of the
    original record: a string comes back as it was, an integer as its
    decimal text. *)
Theorem csv_round_trip (sys : ConversionSystem.t) (w : world)
    (rs : list record) (filename : str) :
  ledger w sys = Some rs ->
  Forall csv_safe rs ->
  exists w1 sys2 w2 w3,
    ConversionSystem.save_to_csv sys filename w = (Return tt, w1)
    /\ ConversionSystem.__init__ w1 = (Return sys2, w2)
    /\ ConversionSystem.load_from_csv sys2 filename w2 = (Return tt, w3)
    /\ ledger w3 sys2 = Some (csv_reloaded <$> rs).
Proof.
  intros Hrs Hsafe.
  destruct (save_to_csv_spec sys filename w rs Hrs) as (w1 & E1 & Hf).
  destruct (init_holds w1) as (sys2 & E2 & Hh).
  destruct (load_from_csv_spec sys2 filename
              (set_heap (heap w1 ++ [OList []]) w1) rs Hsafe Hf Hh)
    as (w3 & E3 & Hl).
  by exists w1, sys2, (set_heap (heap w1 ++ [OList []]) w1), w3.
Qed.

Lemma csv_round_trip_witness :
  ledger sample_world fresh_system = Some sample_records
  /\ Forall csv_safe sample_records
  /\ exists w1 sys2 w2 w3,
       ConversionSystem.save_to_csv fresh_system (lit "h.csv") sample_world
       = (Return tt, w1)
       /\ ConversionSystem.__init__ w1 = (Return sys2, w2)
       /\ ConversionSystem.load_from_csv sys2 (lit "h.csv") w2
          = (Return tt, w3)
       /\ ledger w3 sys2
          = Some [mkRecord (VStr (lit "XIV")) (VStr (lit "14"))
                    (VStr (lit "roman"));
                  mkRecord (VStr (lit "9")) (VStr (lit "IX"))
                    (VStr (lit "decimal"))].
Proof.
  assert (H1 : ledger sample_world fresh_system = Some sample_records)
    by reflexivity.
  assert (H2 : Forall csv_safe sample_records).
  { repeat constructor; try reflexivity; try by_decide;
      vm_compute; discriminate. }
  split; [exact H1 |]. split; [exact H2 |].
  exact (csv_round_trip fresh_system sample_world sample_records
           (lit "h.csv") H1 H2).
Defined.

(** C3 as stated does not hold.  After [convert] on IV the ledger holds a
    record whose output is the integer 4; the record read back from the
    file has the text ['4'] there. *)
Lemma csv_round_trip_changes_records :
  (round_trip ConversionSystem.save_to_csv ConversionSystem.load_from_csv
     (fun sys =>
        _ ← ConversionSystem.convert sys (VStr (lit "IV")) (lit "roman");
        mret tt)
     (lit "conversions.csv") empty_world).1
  = Return
      (Some [mkRecord (VStr (lit "IV")) (VInt 4) (VStr (lit "roman"))],
       Some [mkRecord (VStr (lit "IV")) (VStr (lit "4"))
               (VStr (lit "roman"))])
  /\ mkRecord (VStr (lit "IV")) (VInt 4) (VStr (lit "roman"))
     <> mkRecord (VStr (lit "IV")) (VStr (lit "4")) (VStr (lit "roman")).
Proof. split; [vm_compute; reflexivity | discriminate]. Qed.

(** Why a field must have no carriage return: a record of three strings
    with one in its output comes back with a line feed in its place. *)
Example csv_round_trip_carriage_return :
  (round_trip ConversionSystem.save_to_csv ConversionSystem.load_from_csv
     (fun sys =>
        ConversionHistory.add_record (ConversionSystem.history sys)
          (VStr (lit "a,b")) (VStr [120; CR; 121]%N) (VStr (lit "roman")))
     (lit "conversions.csv") empty_world).1
  = Return
      (Some [mkRecord (VStr (lit "a,b")) (VStr [120; CR; 121]%N)
               (VStr (lit "roman"))],
       Some [mkRecord (VStr (lit "a,b")) (VStr [120; LF; 121]%N)
               (VStr (lit "roman"))]).
Proof. vm_compute. reflexivity. Qed.

(** ** Further checks *)

Example decimalToRoman_1994 :
  decimalToRoman 1994 = Return (VStr (lit "MCMXCIV")).
Proof. vm_compute. reflexivity. Qed.

Example decimalToRoman_3999 :
  decimalToRoman 3999 = Return (VStr (lit "MMMCMXCIX")).
Proof. vm_compute. reflexivity. Qed.

Example romanToDecimal_lower_case :
  romanToDecimal (lit "iv") = Raise (KeyError (lit "v")).
Proof. vm_compute. reflexivity. Qed.

(** Loading a file that does not exist reports it and leaves the heap,
    and so the ledger, as it is. *)
Lemma load_missing_file self filename w :
  files w !! filename = None ->
  ConversionSystem.load_from_csv self filename w
  = print (lit "Error: " ++ filename ++ lit " not found") w
  /\ ConversionSystem.load_from_txt self filename w
     = print (lit "Error: " ++ filename ++ lit " not found") w
  /\ heap (print (lit "Error: " ++ filename ++ lit " not found") w).2 = heap w.
Proof.
  intros H. unfold ConversionSystem.load_from_csv,
    ConversionSystem.load_from_txt. by rewrite H.
Qed.

(** * Further properties *)

(** ** The codec *)

Section CodecExtras.

Lemma symbol_value_cases c :
  roman_symbol c ->
  symbol_value c ∈ [1; 5; 10; 50; 100; 500; 1000].
Proof.
  unfold roman_symbol. intros H.
  repeat (apply elem_of_cons in H as [-> | H]; [by_decide |]).
  by apply elem_of_nil in H.
Qed.

(** After a text that is not empty, the total exceeds what the symbols to
    come can take off, and the value seen last is that of the first
    symbol. *)
Lemma right_to_left_above text :
  Forall roman_symbol text -> text <> [] ->
  below (right_to_left text).2 + 1 <= (right_to_left text).1
  /\ (right_to_left text).2 ∈ [1; 5; 10; 50; 100; 500; 1000].
Proof.
  induction 1 as [| c text Hc Hall IH]; [done |]. intros _.
  cbn [right_to_left].
  pose proof (symbol_value_cases c Hc) as Hv.
  destruct text as [| c' text'].
  - cbn [right_to_left fst snd]. split; [| done].
    repeat (apply elem_of_cons in Hv as [-> | Hv]; [cbn; lia |]).
    by apply elem_of_nil in Hv.
  - destruct IH as [IH1 IH2]; [done |].
    destruct (right_to_left (c' :: text')) as [total prev].
    cbn [fst snd] in *. split; [| done].
    repeat (apply elem_of_cons in Hv as [-> | Hv];
      [repeat (apply elem_of_cons in IH2 as [-> | IH2];
               [cbn in *; lia |]); by apply elem_of_nil in IH2 |]).
    by apply elem_of_nil in Hv.
Qed.

End CodecExtras.

(** X1: on a text over the seven symbols that is not empty,
    [romanToDecimal] returns a number that is at least 1 and at most 1000
    for each symbol; it returns 0 on the empty text only. *)
Theorem romanToDecimal_positive (text : str) :
  Forall roman_symbol text -> text <> [] ->
  exists n, romanToDecimal text = Return (VInt n)
            /\ 1 <= n <= 1000 * Z.of_nat (length text).
Proof.
  intros Hall Hne. eexists. split; [by apply convert_symbols |].
  destruct (right_to_left_above text Hall Hne) as [H1 H2].
  pose proof (right_to_left_bound text) as [H3 _].
  assert (0 <= below (right_to_left text).2).
  { unfold below. repeat (destruct (_ <=? _); [lia |]). lia. }
  lia.
Qed.

Lemma romanToDecimal_positive_witness :
  Forall roman_symbol (lit "IIX") /\ lit "IIX" <> []
  /\ exists n, romanToDecimal (lit "IIX") = Return (VInt n)
               /\ 1 <= n <= 1000 * Z.of_nat (length (lit "IIX")).
Proof.
  assert (H1 : Forall roman_symbol (lit "IIX")) by by_decide.
  assert (H2 : lit "IIX" <> []) by discriminate.
  split; [exact H1 |]. split; [exact H2 |].
  exact (romanToDecimal_positive (lit "IIX") H1 H2).
Defined.

Section GreedyExtras.

Import DecimalToRomanConverter.

(** The inner loop in closed form: the numeral is appended as many times
    as the value goes into the number, and the remainder is left. *)
Lemma while_fuel_div_mod v numeral : 0 < v ->
  forall fuel num result, 0 <= num <= Z.of_nat fuel ->
  while_fuel fuel v numeral num result
  = Return (num mod v, result ++ replicate (Z.to_nat (num / v)) numeral).
Proof.
  intros Hv. induction fuel as [| fuel IH]; intros num result Hnum;
    cbn [while_fuel]; destruct (Z.geb_spec num v) as [Hge | Hlt].
  - lia.
  - rewrite Z.mod_small, Z.div_small by lia. by rewrite app_nil_r.
  - rewrite IH by lia.
    assert (Hm : num mod v = (num - v) mod v).
    { replace num with ((num - v) + 1 * v) at 1 by lia.
      apply Z_mod_plus_full. }
    assert (Hd : num / v = (num - v) / v + 1).
    { replace num with ((num - v) + 1 * v) at 1 by lia.
      apply Z.div_add. lia. }
    rewrite Hm, Hd.
    rewrite Z2Nat.inj_add by (try apply Z.div_pos; lia).
    rewrite Nat.add_comm. cbn [Z.to_nat Pos.to_nat Pos.iter_op Nat.add replicate].
    by rewrite <- app_assoc.
  - rewrite Z.mod_small, Z.div_small by lia. by rewrite app_nil_r.
Qed.

Lemma for_each_body_greedy table : Forall (fun e => 0 < e.1) table ->
  forall num result, 0 <= num ->
  for_each body table (num, result)
  = Return (greedy_rest table num, result ++ greedy table num).
Proof.
  induction 1 as [| [v numeral] table Hv _ IH]; intros num result Hnum.
  - by rewrite app_nil_r.
  - cbn [for_each body greedy greedy_rest]. unfold while_loop.
    rewrite while_fuel_div_mod by (cbn in Hv; lia).
    cbn [mbind outcome_bind obind]. unfold mbind, outcome_bind, obind.
    rewrite IH by (apply Z.mod_pos_bound; done).
    by rewrite <- app_assoc.
Qed.

End GreedyExtras.

(** X2: for a number from 1 to 3999 [decimalToRoman] returns the numerals
    of the table in closed form: each entry, from the largest value down,
    as many times as its value goes into what the entries before have
    left; nothing is left of the number at the end. *)
Theorem decimalToRoman_greedy (n : Z) :
  1 <= n <= 3999 ->
  decimalToRoman n
  = Return (VStr (concat (greedy DecimalToRomanConverter._value_map n)))
  /\ greedy_rest DecimalToRomanConverter._value_map n = 0.
Proof.
  intros Hn. split.
  - unfold decimalToRoman, DecimalToRomanConverter.convert.
    destruct (Z.ltb_spec 0 n); [| lia]. destruct (Z.ltb_spec n 4000); [| lia].
    cbn [andb negb].
    rewrite (for_each_body_greedy _ _value_map_positive) by lia.
    reflexivity.
  - cbn [greedy_rest DecimalToRomanConverter._value_map].
    apply Z.mod_1_r.
Qed.

Lemma decimalToRoman_greedy_witness :
  1 <= 1994 <= 3999
  /\ decimalToRoman 1994
     = Return (VStr (concat (greedy DecimalToRomanConverter._value_map 1994)))
  /\ greedy_rest DecimalToRomanConverter._value_map 1994 = 0.
Proof.
  assert (H : 1 <= 1994 <= 3999) by lia.
  split; [exact H | exact (decimalToRoman_greedy 1994 H)].
Defined.

Lemma canonical_shape_ok_range n : 1 <= n <= 3999 -> canonical_shape_ok n = true.
Proof.
  intros Hn.
  assert (Hall : forallb canonical_shape_ok (Z.of_nat <$> seq 1 3999) = true)
    by (vm_compute; reflexivity).
  rewrite forallb_forall in Hall. apply Hall.
  apply list_elem_of_In, list_elem_of_fmap. exists (Z.to_nat n).
  split; [lia |]. apply list_elem_of_In, in_seq. lia.
Qed.

(** X3: the numeral of a number from 1 to 3999 is not empty, has the
    seven symbols only, at most 15 of them, and no symbol four times in a
    row. *)
Theorem decimalToRoman_shape (n : Z) :
  1 <= n <= 3999 ->
  exists s, decimalToRoman n = Return (VStr s)
            /\ s <> [] /\ Forall roman_symbol s /\ (length s <= 15)%nat
            /\ no_four_in_a_row s = true.
Proof.
  intros Hn. pose proof (canonical_ok_range n Hn) as H1.
  pose proof (canonical_shape_ok_range n Hn) as H2.
  unfold canonical_ok, canonical_shape_ok in *.
  destruct (decimalToRoman n) as [[| |s] | |]; try discriminate.
  apply bool_decide_eq_true in H1 as (? & ? & ?). by exists s.
Qed.

Lemma decimalToRoman_shape_witness :
  1 <= 3888 <= 3999
  /\ exists s, decimalToRoman 3888 = Return (VStr s)
               /\ s <> [] /\ Forall roman_symbol s /\ (length s <= 15)%nat
               /\ no_four_in_a_row s = true.
Proof.
  assert (H : 1 <= 3888 <= 3999) by lia.
  split; [exact H | exact (decimalToRoman_shape 3888 H)].
Defined.

(** X4: two different numbers from 1 to 3999 have different numerals. *)
Theorem decimalToRoman_injective (n m : Z) :
  1 <= n <= 3999 -> 1 <= m <= 3999 ->
  decimalToRoman n = decimalToRoman m -> n = m.
Proof.
  intros Hn Hm E.
  destruct (roundtrip_ok_inv n (roundtrip_ok_range n Hn)) as (r & E1 & R1).
  destruct (roundtrip_ok_inv m (roundtrip_ok_range m Hm)) as (r' & E2 & R2).
  rewrite E, E2 in E1. injection E1 as ->. congruence.
Qed.

Lemma decimalToRoman_injective_witness :
  1 <= 4 <= 3999 /\ 1 <= 4 <= 3999
  /\ (decimalToRoman 4 = decimalToRoman 4 -> 4 = 4).
Proof.
  assert (H : 1 <= 4 <= 3999) by lia.
  split; [exact H |]. split; [exact H |].
  exact (decimalToRoman_injective 4 4 H H).
Defined.

(** X5: the [KeyError] of [romanToDecimal] carries the last character of
    the text that is not one of the seven symbols: the text is read from
    the right. *)
Theorem romanToDecimal_last_invalid (before after : str) (c : N) :
  ~ roman_symbol c -> Forall roman_symbol after ->
  romanToDecimal (before ++ c :: after) = Raise (KeyError [c]).
Proof.
  intros Hc Hafter. unfold romanToDecimal, RomanToDecimalConverter.convert.
  rewrite reverse_app, reverse_cons, <- app_assoc. cbn [app].
  rewrite for_each_app.
  change (0, 0) with (right_to_left []).
  rewrite for_each_body_symbols by (by apply Forall_reverse).
  unfold mbind, outcome_bind, obind. cbn [for_each].
  destruct (right_to_left _) as [total prev].
  by rewrite (body_other _ c Hc).
Qed.

Lemma romanToDecimal_last_invalid_witness :
  ~ roman_symbol 66%N /\ Forall roman_symbol (lit "IV")
  /\ romanToDecimal (lit "XA" ++ 66%N :: lit "IV") = Raise (KeyError [66%N]).
Proof.
  assert (H1 : ~ roman_symbol 66%N) by by_decide.
  assert (H2 : Forall roman_symbol (lit "IV")) by by_decide.
  split; [exact H1 |]. split; [exact H2 |].
  exact (romanToDecimal_last_invalid (lit "XA") (lit "IV") 66%N H1 H2).
Defined.

Lemma symbol_value_nonneg c : 0 <= symbol_value c.
Proof. unfold symbol_value. repeat (destruct (_ =? _)%N; [lia |]). lia. Qed.

(** The rule on a text put before another: only the last symbol of the
    first text sees the second one. *)
Lemma right_to_left_app a c s :
  (right_to_left ((a ++ [c]) ++ s)).1
  = (right_to_left (a ++ [c])).1 + (right_to_left s).1
    - (if symbol_value c <? (right_to_left s).2
       then 2 * symbol_value c else 0)
  /\ (right_to_left ((a ++ [c]) ++ s)).2 = (right_to_left (a ++ [c])).2.
Proof.
  induction a as [| e a [IH1 IH2]].
  - cbn [app right_to_left]. destruct (right_to_left s) as [total prev].
    cbn [fst snd]. pose proof (symbol_value_nonneg c).
    destruct (Z.ltb_spec (symbol_value c) 0); [lia |].
    destruct (symbol_value c <? prev); cbn [fst snd]; split; lia.
  - change (((e :: a) ++ [c]) ++ s) with (e :: ((a ++ [c]) ++ s)).
    change ((e :: a) ++ [c]) with (e :: (a ++ [c])).
    cbn [right_to_left].
    destruct (right_to_left ((a ++ [c]) ++ s)) as [t1 p1].
    destruct (right_to_left (a ++ [c])) as [t2 p2].
    cbn [fst snd] in *. subst p1.
    destruct (symbol_value e <? p2); cbn [fst snd]; split; lia.
Qed.

(** X6: the value of two numerals written one after the other is the sum
    of their values, less twice the value of the last symbol of the first
    when the second starts with a larger symbol. *)
Theorem romanToDecimal_app (a b : str) (c d : N) :
  Forall roman_symbol (a ++ [c]) -> Forall roman_symbol (d :: b) ->
  exists x y,
    romanToDecimal (a ++ [c]) = Return (VInt x)
    /\ romanToDecimal (d :: b) = Return (VInt y)
    /\ romanToDecimal ((a ++ [c]) ++ d :: b)
       = Return (VInt (x + y - (if symbol_value c <? symbol_value d
                                then 2 * symbol_value c else 0))).
Proof.
  intros Ha Hb. eexists _, _.
  split; [by apply convert_symbols |]. split; [by apply convert_symbols |].
  unfold romanToDecimal. rewrite convert_symbols by (by apply Forall_app).
  destruct (right_to_left_app a c (d :: b)) as [-> _].
  do 3 f_equal. cbn [right_to_left].
  by destruct (right_to_left b).
Qed.

Lemma romanToDecimal_app_witness :
  Forall roman_symbol (lit "X" ++ [ord "I"])
  /\ Forall roman_symbol (ord "V" :: lit "I")
  /\ exists x y,
       romanToDecimal (lit "X" ++ [ord "I"]) = Return (VInt x)
       /\ romanToDecimal (ord "V" :: lit "I") = Return (VInt y)
       /\ romanToDecimal ((lit "X" ++ [ord "I"]) ++ ord "V" :: lit "I")
          = Return (VInt (x + y - (if symbol_value (ord "I")
                                      <? symbol_value (ord "V")
                                   then 2 * symbol_value (ord "I") else 0))).
Proof.
  assert (H1 : Forall roman_symbol (lit "X" ++ [ord "I"])) by by_decide.
  assert (H2 : Forall roman_symbol (ord "V" :: lit "I")) by by_decide.
  split; [exact H1 |]. split; [exact H2 |].
  exact (romanToDecimal_app (lit "X") (lit "I") (ord "I") (ord "V") H1 H2).
Defined.


(** ** What no method does *)

Section Preserving.

Variable hist : loc.

Lemma preserves_refl w : preserves hist w w.
Proof. intros l rs H. exists []. by rewrite app_nil_r. Qed.

Lemma preserves_trans w1 w2 w3 :
  preserves hist w1 w2 -> preserves hist w2 w3 -> preserves hist w1 w3.
Proof.
  intros H12 H23 l rs H.
  destruct (H12 l rs H) as (m1 & H1 & E1).
  destruct (H23 l _ H1) as (m2 & H2 & E2).
  exists (m1 ++ m2). split; [by rewrite app_assoc |].
  intros Hne. by rewrite E1, E2.
Qed.

Lemma preserves_same_heap w w' : heap w' = heap w -> preserves hist w w'.
Proof. intros E l rs H. exists []. rewrite E, app_nil_r. done. Qed.

Lemma preserves_alloc w o :
  preserves hist w (set_heap (heap w ++ [o]) w).
Proof.
  intros l rs H. exists []. rewrite app_nil_r. split; [| done].
  by apply holds_alloc.
Qed.

Lemma preserving_ret {A} (a : A) : preserving hist (mret a).
Proof. intros w. apply preserves_refl. Qed.

Lemma preserving_raise {A} e : preserving hist (@mraise A e).
Proof. intros w. apply preserves_refl. Qed.

Lemma preserving_lift {A} (o : outcome A) : preserving hist (lift o).
Proof. intros w. apply preserves_refl. Qed.

Lemma preserving_bind {A B} (m : M A) (k : A -> M B) :
  preserving hist m -> (forall a, preserving hist (k a)) ->
  preserving hist (m ≫= k).
Proof.
  intros Hm Hk w. unfold mbind, M_bind, mbind'.
  specialize (Hm w). destruct (m w) as [[a | e |] w1]; cbn in *; [| done | done].
  eapply preserves_trans; [exact Hm | apply Hk].
Qed.

Lemma preserving_for_eachM {A} (body : A -> M unit) xs :
  (forall x, preserving hist (body x)) -> preserving hist (for_eachM body xs).
Proof.
  intros Hb. induction xs as [| x xs IH]; [apply preserving_ret |].
  cbn [for_eachM]. apply (preserving_bind (body x)); [apply Hb | done].
Qed.

Lemma preserving_print line : preserving hist (print line).
Proof. intros w. by apply preserves_same_heap. Qed.

Lemma preserving_open_w filename : preserving hist (open_w filename).
Proof. intros w. by apply preserves_same_heap. Qed.

Lemma preserving_file_write filename text :
  preserving hist (file_write filename text).
Proof. intros w. by apply preserves_same_heap. Qed.

Lemma preserving_list_items l : preserving hist (list_items l).
Proof.
  intros w. unfold list_items. destruct (items_at w l); apply preserves_refl.
Qed.

Lemma preserving_get_dict a : preserving hist (get_dict a).
Proof.
  intros w. unfold get_dict. destruct (dict_at w a); apply preserves_refl.
Qed.

Lemma preserving_getitem d key : preserving hist (csv.getitem d key).
Proof.
  unfold csv.getitem. destruct (d !! key);
    [apply preserving_ret | apply preserving_raise].
Qed.

Lemma preserving_get_history self :
  preserving hist (ConversionHistory.get_history self).
Proof.
  intros w. unfold ConversionHistory.get_history, list_copy.
  destruct (heap w !! _) as [[d | items] |]; try apply preserves_refl.
  apply preserves_alloc.
Qed.

End Preserving.

(** [add_record] on the history at [hist]: one more record there, and
    every other list as it was; also when the model is given a location
    that holds no list. *)
Lemma preserving_add_record self from_val to_val direction :
  preserving (ConversionHistory._history self)
    (ConversionHistory.add_record self from_val to_val direction).
Proof.
  intros w. unfold ConversionHistory.add_record, mbind, M_bind, mbind', alloc,
    list_append. cbn [fst snd heap set_heap].
  set (h1 := heap w ++ [ODict (mkRecord from_val to_val direction)]).
  destruct (h1 !! ConversionHistory._history self) as [[d | items] |] eqn:E;
    cbn [snd]; try apply preserves_alloc.
  intros l rs H. apply (holds_alloc _ _ _ (ODict (mkRecord from_val to_val direction))) in H.
  fold h1 in H.
  destruct (decide (l = ConversionHistory._history self)) as [-> | Hne].
  - exists [mkRecord from_val to_val direction]. split; [| done].
    cbn [heap]. apply holds_append; [done | done |].
    unfold h1. by rewrite lookup_app_r, Nat.sub_diag.
  - exists []. rewrite app_nil_r. split; [| done]. cbn [heap].
    by eapply holds_assign_other.
Qed.

Section PreservingMethods.

Variable sys : ConversionSystem.t.

Local Abbreviation hist :=
  (ConversionHistory._history (ConversionSystem.history sys)).

Lemma preserving_DictReader_row body fn row k :
  (forall d, preserving hist (body d)) ->
  (forall fn', preserving hist (k fn')) ->
  preserving hist (csv.DictReader_row body fn row k).
Proof.
  intros Hb Hk. unfold csv.DictReader_row.
  destruct fn as [fn |]; [| apply Hk].
  destruct row; [apply Hk |].
  apply (preserving_bind _ (body _)); [apply Hb | intros _; apply Hk].
Qed.

Lemma preserving_DictReader_for body lines :
  (forall d, preserving hist (body d)) ->
  forall fn r, preserving hist (csv.DictReader_for body fn r lines).
Proof.
  intros Hb. induction lines as [| line lines IH]; intros fn r.
  - cbn [csv.DictReader_for].
    destruct (csv.field r), (csv.state r);
      try apply preserving_ret;
      (apply preserving_DictReader_row; [done | intros; apply preserving_ret]).
  - cbn [csv.DictReader_for].
    destruct (csv.parse_line r line) as [r' | e |];
      [| apply preserving_raise | apply preserving_lift].
    destruct (csv.state r'); try apply IH.
    apply preserving_DictReader_row; [done | intros; apply IH].
Qed.

Lemma preserving_load_txt_line line :
  preserving hist (ConversionSystem.load_txt_line sys line).
Proof.
  unfold ConversionSystem.load_txt_line.
  destruct (contains _ line); [| apply preserving_ret].
  destruct (split _ (strip line)) as [| a [| rest [| ? ?]]];
    try apply preserving_ret.
  destruct (split _ rest) as [| o [| t [| ? ?]]];
    try apply preserving_raise.
  destruct (contains _ _); apply preserving_add_record.
Qed.

Lemma preserving_save filename banner line :
  preserving hist
    (_ ← open_w filename;
     _ ← file_write filename banner;
     snapshot ← ConversionHistory.get_history (ConversionSystem.history sys);
     items ← list_items snapshot;
     _ ← for_eachM
           (fun a => d ← get_dict a; file_write filename (line d)) items;
     print (lit "History saved to " ++ filename)).
Proof.
  apply (preserving_bind _ (open_w filename)); [apply preserving_open_w |].
  intros _.
  apply (preserving_bind _ (file_write filename banner));
    [apply preserving_file_write |]. intros _.
  apply (preserving_bind _ (ConversionHistory.get_history _));
    [apply preserving_get_history |]. intros snapshot.
  apply (preserving_bind _ (list_items snapshot));
    [apply preserving_list_items |]. intros items.
  apply (preserving_bind _ (for_eachM _ items)); [| intros _; apply preserving_print].
  apply preserving_for_eachM. intros a.
  apply (preserving_bind _ (get_dict a)); [apply preserving_get_dict |].
  intros d. apply preserving_file_write.
Qed.

Lemma preserving_perform r : preserving hist (perform sys r).
Proof.
  destruct r as [v ty | f | f | f | f]; cbn [perform].
  - apply (preserving_bind _ (ConversionSystem.convert sys v ty));
      [| intros; apply preserving_ret].
    unfold ConversionSystem.convert.
    destruct (ConverterFactory.get_converter ty) as [converter |];
      [| apply preserving_raise].
    apply (preserving_bind _ (lift _)); [apply preserving_lift |].
    intros result.
    apply (preserving_bind _ (if bool_decide (ty = lit "roman") then _ else _));
      [| intros; apply preserving_ret].
    destruct (bool_decide _); apply preserving_add_record.
  - apply preserving_save.
  - unfold ConversionSystem.save_to_txt.
    intros w. pose proof (preserving_save f txt_banner ConversionSystem.txt_line w) as H.
    revert H. unfold mbind, M_bind, mbind', open_w, file_write. cbn.
    rewrite !lookup_insert_eq. cbn. by rewrite !insert_insert_eq.
  - intros w. unfold ConversionSystem.load_from_csv.
    destruct (files w !! f); [| by apply preserves_same_heap].
    revert w. apply (preserving_bind _ (csv.DictReader_for _ _ _ _));
      [| intros; apply preserving_print].
    apply preserving_DictReader_for. intros d.
    apply (preserving_bind _ (csv.getitem d _)); [apply preserving_getitem |].
    intros i.
    apply (preserving_bind _ (csv.getitem d _)); [apply preserving_getitem |].
    intros o.
    apply (preserving_bind _ (csv.getitem d _)); [apply preserving_getitem |].
    intros ty. apply preserving_add_record.
  - intros w. unfold ConversionSystem.load_from_txt.
    destruct (files w !! f); [| by apply preserves_same_heap].
    revert w. apply (preserving_bind _ (for_eachM _ _));
      [| intros; apply preserving_print].
    apply preserving_for_eachM. apply preserving_load_txt_line.
Qed.

End PreservingMethods.

(** X7: no request removes or changes a record.  Whatever a request to a
    system returns or raises, and whatever a file it loads holds, the
    records the system's ledger held are still its first records, in
    order, and every other list of records (the ledger of another system)
    holds what it held. *)
Theorem requests_only_append (sys : ConversionSystem.t) (r : request)
    (w : world) (rs : list record) :
  ledger w sys = Some rs ->
  (exists more, ledger (perform sys r w).2 sys = Some (rs ++ more))
  /\ forall sys' rs',
       ConversionSystem.history sys' <> ConversionSystem.history sys ->
       ledger w sys' = Some rs' ->
       ledger (perform sys r w).2 sys' = Some rs'.
Proof.
  intros Hrs. split.
  - apply records_at_holds in Hrs.
    destruct (preserving_perform sys r w _ _ Hrs) as (more & H & _).
    exists more. by apply records_at_holds.
  - intros sys' rs' Hne Hrs'. apply records_at_holds in Hrs'.
    destruct (preserving_perform sys r w _ _ Hrs') as (more & H & E).
    rewrite E, app_nil_r in H; [by apply records_at_holds |].
    intros Heq. apply Hne.
    destruct (ConversionSystem.history sys'), (ConversionSystem.history sys).
    cbn in Heq. by subst.
Qed.

Lemma requests_only_append_witness :
  ledger sample_world fresh_system = Some sample_records
  /\ (exists more,
        ledger (perform fresh_system (Convert (VStr (lit "IV")) (lit "roman"))
                  sample_world).2 fresh_system
        = Some (sample_records ++ more))
  /\ forall sys' rs',
       ConversionSystem.history sys' <> ConversionSystem.history fresh_system ->
       ledger sample_world sys' = Some rs' ->
       ledger (perform fresh_system (Convert (VStr (lit "IV")) (lit "roman"))
                 sample_world).2 sys' = Some rs'.
Proof.
  assert (H : ledger sample_world fresh_system = Some sample_records)
    by reflexivity.
  split; [exact H |].
  exact (requests_only_append fresh_system
           (Convert (VStr (lit "IV")) (lit "roman")) sample_world
           sample_records H).
Defined.

(** X8: a new system has an empty ledger of its own: the systems made
    before keep their records, and no request to the new system changes
    them (the converters are shared, the histories are not). *)
Theorem new_system_is_separate (sys : ConversionSystem.t) (w : world)
    (rs : list record) :
  ledger w sys = Some rs ->
  exists sys2 w2,
    ConversionSystem.__init__ w = (Return sys2, w2)
    /\ ledger w2 sys2 = Some []
    /\ ledger w2 sys = Some rs
    /\ ConversionSystem.history sys2 <> ConversionSystem.history sys
    /\ forall r, ledger (perform sys2 r w2).2 sys = Some rs.
Proof.
  intros Hrs. destruct (init_holds w) as (sys2 & E & H2).
  apply records_at_holds in Hrs.
  assert (Hlt : (ConversionHistory._history (ConversionSystem.history sys)
                 < length (heap w))%nat).
  { destruct Hrs as (items & Hl & _). by eapply lookup_lt_Some. }
  assert (Hsys2 : ConversionHistory._history (ConversionSystem.history sys2)
                  = length (heap w)).
  { unfold ConversionSystem.__init__, ConversionHistory.__init__, mbind,
      M_bind, mbind', alloc, mret in E. cbn in E. by injection E as <-. }
  assert (Hrs2 : holds (heap w ++ [OList []])
                   (ConversionHistory._history (ConversionSystem.history sys))
                   rs) by (by apply holds_alloc).
  exists sys2, (set_heap (heap w ++ [OList []]) w). split_and!.
  - exact E.
  - by apply records_at_holds.
  - by apply records_at_holds.
  - intros Heq. rewrite Heq in Hsys2. lia.
  - intros r.
    destruct (preserving_perform sys2 r (set_heap (heap w ++ [OList []]) w)
                _ _ Hrs2) as (more & H & Emore).
    rewrite Emore, app_nil_r in H; [by apply records_at_holds |].
    rewrite Hsys2. lia.
Qed.

Lemma new_system_is_separate_witness :
  ledger sample_world fresh_system = Some sample_records
  /\ exists sys2 w2,
       ConversionSystem.__init__ sample_world = (Return sys2, w2)
       /\ ledger w2 sys2 = Some []
       /\ ledger w2 fresh_system = Some sample_records
       /\ ConversionSystem.history sys2 <> ConversionSystem.history fresh_system
       /\ forall r, ledger (perform sys2 r w2).2 fresh_system
                    = Some sample_records.
Proof.
  assert (H : ledger sample_world fresh_system = Some sample_records)
    by reflexivity.
  split; [exact H |].
  exact (new_system_is_separate fresh_system sample_world sample_records H).
Defined.



(** ** Saving, exactly *)

Section SaveExact.

Lemma file_write_more filename c text fs w :
  file_write filename text (set_files (<[filename := c]> fs) w)
  = (Return tt, set_files (<[filename := c ++ text]> fs) w).
Proof.
  unfold file_write, set_files. cbn.
  by rewrite lookup_insert_eq, insert_insert_eq.
Qed.

Lemma write_records_exact filename (line : record -> str) items :
  forall rs w fs c,
  Forall2 (fun a d => heap w !! a = Some (ODict d)) items rs ->
  for_eachM (fun a => d ← get_dict a; file_write filename (line d)) items
    (set_files (<[filename := c]> fs) w)
  = (Return tt,
     set_files (<[filename := c ++ concat (line <$> rs)]> fs) w).
Proof.
  induction items as [| a items IH]; intros rs w fs c H.
  - apply Forall2_nil_inv_l in H as ->. cbn. by rewrite app_nil_r.
  - apply Forall2_cons_inv_l in H as (d & rs' & Ha & H & ->).
    cbn [for_eachM]. unfold mbind'.
    erewrite run_bind; [| unfold get_dict, dict_at; cbn; by rewrite Ha].
    rewrite file_write_more, (IH rs' w fs (c ++ line d) H).
    cbn [fmap list_fmap concat]. by rewrite <- app_assoc.
Qed.

Lemma save_exact sys filename banner line w rs :
  ledger w sys = Some rs ->
  exists items,
    (_ ← open_w filename;
     _ ← file_write filename banner;
     snapshot ← ConversionHistory.get_history (ConversionSystem.history sys);
     items ← list_items snapshot;
     _ ← for_eachM
           (fun a => d ← get_dict a; file_write filename (line d)) items;
     print (lit "History saved to " ++ filename)) w
    = (Return tt,
       mkWorld (heap w ++ [OList items])
         (<[filename := banner ++ concat (line <$> rs)]> (files w))
         (stdout w ++ [lit "History saved to " ++ filename]))
    /\ holds (heap w ++ [OList items])
         (ConversionHistory._history (ConversionSystem.history sys)) rs.
Proof.
  intros Hrs. apply records_at_holds in Hrs.
  set (w0 := set_files (<[filename := banner]> (files w)) w).
  destruct (get_history_holds (ConversionSystem.history sys) w0 rs Hrs)
    as (items & E & Hl & (items' & Hl' & H') & _).
  assert (items' = items) as ->.
  { cbn in Hl'. rewrite lookup_app_r, Nat.sub_diag in Hl' by done.
    by injection Hl'. }
  exists items. split; [| by apply holds_alloc].
  erewrite run_bind; [| reflexivity].
  erewrite run_bind;
    [| change (set_files (<[filename := []]> (files w)) w)
         with (set_files (<[filename := []]> (files w)) w);
       apply file_write_more].
  cbn [app]. fold w0.
  erewrite run_bind; [| exact E].
  erewrite run_bind;
    [| unfold list_items, items_at; cbn;
       by rewrite lookup_app_r, Nat.sub_diag].
  erewrite run_bind;
    [| exact (write_records_exact filename line items rs
                (set_heap (heap w ++ [OList items]) w) (files w) banner H')].
  reflexivity.
Qed.

End SaveExact.

(** X10: saving writes the whole ledger and touches nothing else.  For a
    ledger whose fields can be written as text, and a file name that is
    valid text and can be opened for writing (as every name can in the
    model), each save method returns without an exception, replaces the
    file of that name by the header and one row or line for each record,
    whatever the file held, leaves every other file as it was, leaves the
    ledger as it was, and prints one line. *)
Theorem save_writes_the_ledger (sys : ConversionSystem.t) (w : world)
    (rs : list record) (filename : str) :
  ledger w sys = Some rs ->
  Forall renders_record rs ->
  valid_text filename ->
  (exists w1,
     ConversionSystem.save_to_csv sys filename w = (Return tt, w1)
     /\ files w1 = <[filename := csv_file rs]> (files w)
     /\ ledger w1 sys = Some rs
     /\ stdout w1 = stdout w ++ [lit "History saved to " ++ filename])
  /\ (exists w1,
        ConversionSystem.save_to_txt sys filename w = (Return tt, w1)
        /\ files w1 = <[filename := txt_file rs]> (files w)
        /\ ledger w1 sys = Some rs
        /\ stdout w1 = stdout w ++ [lit "History saved to " ++ filename]).
Proof.
  intros Hrs _ _. split.
  - destruct (save_exact sys filename
                (csv.writerow (VStr <$> ConversionSystem.fieldnames))
                (csv.writerow ∘ ConversionSystem._dict_to_list) w rs Hrs)
      as (items & E & H).
    eexists. split; [exact E |]. split_and!; [done | | done].
    by apply records_at_holds.
  - destruct (save_exact sys filename txt_banner ConversionSystem.txt_line
                w rs Hrs) as (items & E & H).
    eexists. split.
    + rewrite <- E. unfold ConversionSystem.save_to_txt.
      unfold mbind, M_bind, mbind', open_w, file_write. cbn.
      rewrite !lookup_insert_eq. cbn. rewrite !insert_insert_eq.
      reflexivity.
    + split_and!; [done | by apply records_at_holds | done].
Qed.

Lemma save_writes_the_ledger_witness :
  ledger sample_world fresh_system = Some sample_records
  /\ Forall renders_record sample_records
  /\ valid_text (lit "h.csv")
  /\ (exists w1,
        ConversionSystem.save_to_csv fresh_system (lit "h.csv") sample_world
        = (Return tt, w1)
        /\ files w1 = <[lit "h.csv" := csv_file sample_records]>
                        (files sample_world)
        /\ ledger w1 fresh_system = Some sample_records
        /\ stdout w1
           = stdout sample_world ++ [lit "History saved to " ++ lit "h.csv"])
  /\ (exists w1,
        ConversionSystem.save_to_txt fresh_system (lit "h.csv") sample_world
        = (Return tt, w1)
        /\ files w1 = <[lit "h.csv" := txt_file sample_records]>
                        (files sample_world)
        /\ ledger w1 fresh_system = Some sample_records
        /\ stdout w1
           = stdout sample_world ++ [lit "History saved to " ++ lit "h.csv"]).
Proof.
  assert (H1 : ledger sample_world fresh_system = Some sample_records)
    by reflexivity.
  assert (H2 : Forall renders_record sample_records).
  { repeat constructor; try reflexivity; by_decide. }
  assert (H3 : valid_text (lit "h.csv")) by by_decide.
  split; [exact H1 |]. split; [exact H2 |]. split; [exact H3 |].
  exact (save_writes_the_ledger fresh_system sample_world sample_records
           (lit "h.csv") H1 H2 H3).
Defined.

(** ** Loading adds to the ledger *)

Section LoadOnto.

Import csv ConversionSystem.

Lemma load_from_csv_onto self filename w rs0 rs :
  Forall csv_safe rs ->
  files w !! filename = Some (csv_file rs) ->
  holds (heap w) (ConversionHistory._history (history self)) rs0 ->
  exists h',
    load_from_csv self filename w
    = (Return tt,
       mkWorld h' (files w)
         (stdout w ++ [lit "History loaded from " ++ filename]))
    /\ holds h' (ConversionHistory._history (history self))
         (rs0 ++ (csv_reloaded <$> rs)).
Proof.
  intros Hsafe Hf Hh. unfold load_from_csv. rewrite Hf. unfold csv_file.
  fold (load_csv_row self). unfold readlines.
  rewrite (DictReader_for_stream (load_csv_row self)). cbn [for_each].
  change (negb (bool_decide ([] = []))) with false.
  change (VStr <$> fieldnames)
    with [VStr (lit "input"); VStr (lit "output"); VStr (lit "type")].
  rewrite universal_newlines_row by by_decide.
  rewrite universal_newlines_rows by done.
  cbn [field_text].
  destruct (load_csv_rows self rs w rs0 Hsafe Hh) as (h' & E & H').
  exists h'. split; [| exact H'].
  erewrite (run_bind _ _ _ tt (set_heap h' w)); [reflexivity |].
  rewrite stream_row; [| by_decide | by_decide | by_decide | | |];
    try (vm_compute; discriminate).
  unfold DictReader_row. exact E.
Qed.

Lemma load_from_txt_onto self filename w rs0 rs :
  Forall txt_safe rs ->
  files w !! filename = Some (txt_file rs) ->
  holds (heap w) (ConversionHistory._history (history self)) rs0 ->
  exists h',
    load_from_txt self filename w
    = (Return tt,
       mkWorld h' (files w)
         (stdout w ++ [lit "History loaded from " ++ filename]))
    /\ holds h' (ConversionHistory._history (history self))
         (rs0 ++ (txt_reloaded <$> rs)).
Proof.
  intros Hsafe Hf Hh. unfold load_from_txt. rewrite Hf. unfold txt_file.
  rewrite (readlines_txt rs Hsafe).
  destruct (load_txt_lines self rs w rs0 Hsafe Hh) as (h' & E & H').
  exists h'. split; [| exact H'].
  erewrite (run_bind _ _ _ tt (set_heap h' w)); [reflexivity |].
  cbn [app for_eachM]. unfold mbind'.
  rewrite !load_txt_line_banner by (vm_compute; reflexivity).
  unfold mret. exact E.
Qed.

End LoadOnto.

(** X11: loading a tabular file adds to the ledger, it does not replace
    it.  When the file holds what [save_to_csv] writes for the records
    [rs] (which the format keeps), [load_from_csv] into a system whose
    ledger holds [before] returns without an exception, the ledger then
    holds [before] followed by the records read, no file is changed and
    one line is printed. *)
Theorem load_from_csv_appends (sys : ConversionSystem.t) (w : world)
    (before rs : list record) (filename : str) :
  ledger w sys = Some before ->
  Forall csv_safe rs ->
  files w !! filename = Some (csv_file rs) ->
  exists w',
    ConversionSystem.load_from_csv sys filename w = (Return tt, w')
    /\ ledger w' sys = Some (before ++ (csv_reloaded <$> rs))
    /\ files w' = files w
    /\ stdout w' = stdout w ++ [lit "History loaded from " ++ filename].
Proof.
  intros Hb Hsafe Hf. apply records_at_holds in Hb.
  destruct (load_from_csv_onto sys filename w before rs Hsafe Hf Hb)
    as (h' & E & H').
  eexists. split; [exact E |].
  split_and!; [by apply records_at_holds | done | done].
Qed.

Lemma load_from_csv_appends_witness :
  ledger saved_world fresh_system = Some sample_records
  /\ Forall csv_safe sample_records
  /\ files saved_world !! lit "h.csv" = Some (csv_file sample_records)
  /\ exists w',
       ConversionSystem.load_from_csv fresh_system (lit "h.csv") saved_world
       = (Return tt, w')
       /\ ledger w' fresh_system
          = Some (sample_records ++ (csv_reloaded <$> sample_records))
       /\ files w' = files saved_world
       /\ stdout w'
          = stdout saved_world ++ [lit "History loaded from " ++ lit "h.csv"].
Proof.
  assert (H1 : ledger saved_world fresh_system = Some sample_records)
    by reflexivity.
  assert (H2 : Forall csv_safe sample_records).
  { repeat constructor; try reflexivity; try by_decide;
      vm_compute; discriminate. }
  assert (H3 : files saved_world !! lit "h.csv"
               = Some (csv_file sample_records))
    by (vm_compute; reflexivity).
  split; [exact H1 |]. split; [exact H2 |]. split; [exact H3 |].
  exact (load_from_csv_appends fresh_system saved_world sample_records
           sample_records (lit "h.csv") H1 H2 H3).
Defined.

(** X12: loading a text file adds to the ledger in the same way: when
    the file holds what [save_to_txt] writes for the records [rs] (which
    the format keeps), [load_from_txt] into a system whose ledger holds
    [before] returns without an exception, the ledger then holds [before]
    followed by the records read, no file is changed and one line is
    printed. *)
Theorem load_from_txt_appends (sys : ConversionSystem.t) (w : world)
    (before rs : list record) (filename : str) :
  ledger w sys = Some before ->
  Forall txt_safe rs ->
  files w !! filename = Some (txt_file rs) ->
  exists w',
    ConversionSystem.load_from_txt sys filename w = (Return tt, w')
    /\ ledger w' sys = Some (before ++ (txt_reloaded <$> rs))
    /\ files w' = files w
    /\ stdout w' = stdout w ++ [lit "History loaded from " ++ filename].
Proof.
  intros Hb Hsafe Hf. apply records_at_holds in Hb.
  destruct (load_from_txt_onto sys filename w before rs Hsafe Hf Hb)
    as (h' & E & H').
  eexists. split; [exact E |].
  split_and!; [by apply records_at_holds | done | done].
Qed.

Lemma load_from_txt_appends_witness :
  ledger saved_world fresh_system = Some sample_records
  /\ Forall txt_safe sample_records
  /\ files saved_world !! lit "h.txt" = Some (txt_file sample_records)
  /\ exists w',
       ConversionSystem.load_from_txt fresh_system (lit "h.txt") saved_world
       = (Return tt, w')
       /\ ledger w' fresh_system
          = Some (sample_records ++ (txt_reloaded <$> sample_records))
       /\ files w' = files saved_world
       /\ stdout w'
          = stdout saved_world ++ [lit "History loaded from " ++ lit "h.txt"].
Proof.
  assert (H1 : ledger saved_world fresh_system = Some sample_records)
    by reflexivity.
  assert (H2 : Forall txt_safe sample_records).
  { repeat constructor; try reflexivity; try by_decide;
      vm_compute; discriminate. }
  assert (H3 : files saved_world !! lit "h.txt"
               = Some (txt_file sample_records))
    by (vm_compute; reflexivity).
  split; [exact H1 |]. split; [exact H2 |]. split; [exact H3 |].
  exact (load_from_txt_appends fresh_system saved_world sample_records
           sample_records (lit "h.txt") H1 H2 H3).
Defined.

(** ** Round trips of what was loaded *)

Lemma csv_reloaded_text d : text_record d -> csv_reloaded d = d.
Proof. by destruct d as [[] [] []]. Qed.

Lemma csv_reloaded_is_text d : text_record (csv_reloaded d).
Proof. done. Qed.

Lemma csv_reloaded_safe d : csv_safe d -> csv_safe (csv_reloaded d).
Proof.
  intros (H1 & H2 & H3).
  assert (H : forall v, csv_safe_field v ->
                csv_safe_field (VStr (csv.field_text v))).
  { intros v (Hr & Hc & Hl). split; [| done].
    destruct v as [| n | s]; cbn; [constructor | | done].
    apply Forall_forall. intros c Hin.
    pose proof (proj2 (str_of_int_chars n)) as Hd.
    rewrite Forall_forall in Hd. destruct (Hd c Hin) as [-> | [_ Hle]].
    - by left.
    - left. lia. }
  split_and!; by apply H.
Qed.

(** X13: the tabular format gives back records of strings exactly.  For a
    ledger whose records have strings in all three fields (and which the
    format keeps), saving to the tabular format and loading the file into
    a new system gives a ledger with the same records. *)
Theorem csv_round_trip_of_text (sys : ConversionSystem.t) (w : world)
    (rs : list record) (filename : str) :
  ledger w sys = Some rs ->
  Forall csv_safe rs ->
  Forall text_record rs ->
  exists w1 sys2 w2 w3,
    ConversionSystem.save_to_csv sys filename w = (Return tt, w1)
    /\ ConversionSystem.__init__ w1 = (Return sys2, w2)
    /\ ConversionSystem.load_from_csv sys2 filename w2 = (Return tt, w3)
    /\ ledger w3 sys2 = Some rs.
Proof.
  intros Hrs Hsafe Htext.
  destruct (save_exact sys filename
              (csv.writerow (VStr <$> ConversionSystem.fieldnames))
              (csv.writerow ∘ ConversionSystem._dict_to_list) w rs Hrs)
    as (items & E1 & _).
  set (w1 := mkWorld _ _ _) in E1.
  destruct (init_holds w1) as (sys2 & E2 & Hh).
  destruct (load_from_csv_onto sys2 filename
              (set_heap (heap w1 ++ [OList []]) w1) [] rs Hsafe)
    as (h' & E3 & H3); [apply lookup_insert_eq | exact Hh |].
  eexists _, _, _, _. split_and!; [exact E1 | exact E2 | exact E3 |].
  apply records_at_holds. cbn [heap app] in *.
  replace (csv_reloaded <$> rs) with rs in H3; [done |].
  clear -Htext. induction Htext as [| d rs Hd _ IH]; [done |].
  cbn [fmap list_fmap]. by rewrite csv_reloaded_text, <- IH.
Qed.

Lemma csv_round_trip_of_text_witness :
  ledger text_world fresh_system = Some text_records
  /\ Forall csv_safe text_records
  /\ Forall text_record text_records
  /\ exists w1 sys2 w2 w3,
       ConversionSystem.save_to_csv fresh_system (lit "h.csv") text_world
       = (Return tt, w1)
       /\ ConversionSystem.__init__ w1 = (Return sys2, w2)
       /\ ConversionSystem.load_from_csv sys2 (lit "h.csv") w2
          = (Return tt, w3)
       /\ ledger w3 sys2 = Some text_records.
Proof.
  assert (H1 : ledger text_world fresh_system = Some text_records)
    by reflexivity.
  assert (H2 : Forall csv_safe text_records).
  { repeat constructor; try reflexivity; try by_decide;
      vm_compute; discriminate. }
  assert (H3 : Forall text_record text_records) by (repeat constructor).
  split; [exact H1 |]. split; [exact H2 |]. split; [exact H3 |].
  exact (csv_round_trip_of_text fresh_system text_world text_records
           (lit "h.csv") H1 H2 H3).
Defined.

Lemma txt_reloaded_twice d : txt_reloaded (txt_reloaded d) = txt_as_text d.
Proof.
  unfold txt_reloaded, txt_as_text.
  destruct (bool_decide (type d = VStr (lit "roman"))); reflexivity.
Qed.

(** X14: the text format turns a record of the direction decimal to
    Roman around at each load, so two round trips put the fields back.
    For a ledger that the text format keeps, and whose records as loaded
    it keeps too, saving, loading into a new system, saving that system
    and loading into a third one gives the records of the first ledger
    with input and output in their places, as text, and the type
    ['roman'] or ['decimal']. *)
Theorem txt_round_trip_twice (sys : ConversionSystem.t) (w : world)
    (rs : list record) (filename : str) :
  ledger w sys = Some rs ->
  Forall txt_safe rs ->
  Forall txt_safe (txt_reloaded <$> rs) ->
  exists w1 sys2 w2 w3 w4 sys3 w5 w6,
    ConversionSystem.save_to_txt sys filename w = (Return tt, w1)
    /\ ConversionSystem.__init__ w1 = (Return sys2, w2)
    /\ ConversionSystem.load_from_txt sys2 filename w2 = (Return tt, w3)
    /\ ledger w3 sys2 = Some (txt_reloaded <$> rs)
    /\ ConversionSystem.save_to_txt sys2 filename w3 = (Return tt, w4)
    /\ ConversionSystem.__init__ w4 = (Return sys3, w5)
    /\ ConversionSystem.load_from_txt sys3 filename w5 = (Return tt, w6)
    /\ ledger w6 sys3 = Some (txt_as_text <$> rs).
Proof.
  intros Hrs Hsafe Hsafe2.
  assert (Hround : forall sys w rs,
    ledger w sys = Some rs -> Forall txt_safe rs ->
    exists w1 sys2 w2 w3,
      ConversionSystem.save_to_txt sys filename w = (Return tt, w1)
      /\ ConversionSystem.__init__ w1 = (Return sys2, w2)
      /\ ConversionSystem.load_from_txt sys2 filename w2 = (Return tt, w3)
      /\ ledger w3 sys2 = Some (txt_reloaded <$> rs)).
  { clear. intros sys w rs Hrs Hsafe.
    destruct (save_exact sys filename txt_banner ConversionSystem.txt_line
                w rs Hrs) as (items & E1 & _).
    set (w1 := mkWorld _ _ _) in E1.
    destruct (init_holds w1) as (sys2 & E2 & Hh).
    destruct (load_from_txt_onto sys2 filename
                (set_heap (heap w1 ++ [OList []]) w1) [] rs Hsafe)
      as (h' & E3 & H3); [apply lookup_insert_eq | exact Hh |].
    eexists _, _, _, _. split_and!; [| exact E2 | exact E3 |].
    - rewrite <- E1. unfold ConversionSystem.save_to_txt.
      unfold mbind, M_bind, mbind', open_w, file_write. cbn.
      rewrite !lookup_insert_eq. cbn. rewrite !insert_insert_eq.
      reflexivity.
    - by apply records_at_holds. }
  destruct (Hround sys w rs Hrs Hsafe) as (w1 & sys2 & w2 & w3 & E1 & E2 & E3 & H3).
  destruct (Hround sys2 w3 _ H3 Hsafe2)
    as (w4 & sys3 & w5 & w6 & E4 & E5 & E6 & H6).
  exists w1, sys2, w2, w3, w4, sys3, w5, w6.
  split_and!; try done.
  rewrite H6, <- list_fmap_compose. f_equal.
  apply list_fmap_ext. intros _ d _. apply txt_reloaded_twice.
Qed.

Lemma txt_round_trip_twice_witness :
  ledger sample_world fresh_system = Some sample_records
  /\ Forall txt_safe sample_records
  /\ Forall txt_safe (txt_reloaded <$> sample_records)
  /\ exists w1 sys2 w2 w3 w4 sys3 w5 w6,
       ConversionSystem.save_to_txt fresh_system (lit "h.txt") sample_world
       = (Return tt, w1)
       /\ ConversionSystem.__init__ w1 = (Return sys2, w2)
       /\ ConversionSystem.load_from_txt sys2 (lit "h.txt") w2
          = (Return tt, w3)
       /\ ledger w3 sys2 = Some (txt_reloaded <$> sample_records)
       /\ ConversionSystem.save_to_txt sys2 (lit "h.txt") w3 = (Return tt, w4)
       /\ ConversionSystem.__init__ w4 = (Return sys3, w5)
       /\ ConversionSystem.load_from_txt sys3 (lit "h.txt") w5
          = (Return tt, w6)
       /\ ledger w6 sys3 = Some text_records.
Proof.
  assert (H1 : ledger sample_world fresh_system = Some sample_records)
    by reflexivity.
  assert (H2 : Forall txt_safe sample_records).
  { repeat constructor; try reflexivity; by_decide. }
  assert (H3 : Forall txt_safe (txt_reloaded <$> sample_records)).
  { repeat constructor; try reflexivity; by_decide. }
  split; [exact H1 |]. split; [exact H2 |]. split; [exact H3 |].
  exact (txt_round_trip_twice fresh_system sample_world sample_records
           (lit "h.txt") H1 H2 H3).
Defined.

(** ** Loading a file of the other format *)

Section OtherFormat.

Import ConversionSystem.

Lemma startswith_one a s : startswith [a] s = true -> a ∈ s.
Proof.
  destruct s as [| b s]; [done |]. cbn. rewrite andb_true_r.
  intros ->%N.eqb_eq. by left.
Qed.

Lemma contains_one a s : a ∉ s -> contains [a] s = false.
Proof.
  induction s as [| b s IH]; [done |]. intros [Hb Hs]%not_elem_of_cons.
  cbn [contains]. rewrite (IH Hs), orb_false_r.
  apply not_true_is_false. intros H%startswith_one.
  apply elem_of_cons in H as [-> | H]; [done |]. by apply Hs.
Qed.

Lemma universal_newlines_chars c : forall n s,
  (length s <= n)%nat -> c ∈ universal_newlines s -> c ∈ s \/ c = LF.
Proof.
  induction n as [| n IH]; intros s Hn.
  { destruct s; [| cbn in Hn; lia]. by left. }
  destruct s as [| a s]; [by left |]. cbn [universal_newlines].
  cbn [length] in Hn. destruct (a =? CR)%N.
  - intros [-> | H]%elem_of_cons; [by right |].
    destruct s as [| b s]; [by apply elem_of_nil in H |].
    cbn [length] in Hn.
    destruct (b =? LF)%N;
      (apply IH in H; [| cbn [length]; lia]);
      destruct H as [H | H]; try by right.
    + left. by do 2 right.
    + left. by right.
  - intros [-> | H]%elem_of_cons; [left; by left |].
    apply IH in H as [H | H]; [left; by right | by right | lia].
Qed.

Lemma lines_go_chars s : forall cur,
  Forall (fun line => forall c, c ∈ line -> c ∈ cur ++ s) (lines_go s cur).
Proof.
  induction s as [| a s IH]; intros cur.
  - cbn. rewrite app_nil_r. destruct cur; [constructor |].
    constructor; [done | constructor].
  - cbn [lines_go]. destruct (a =? LF)%N.
    + constructor.
      * intros c Hc. rewrite cons_middle, app_assoc.
        apply elem_of_app. by left.
      * eapply Forall_impl; [apply (IH [])|]. cbn.
        intros line H c Hc. apply elem_of_app. right. right. by apply H.
    + eapply Forall_impl; [apply (IH (cur ++ [a]))|]. cbn.
      intros line H c Hc. rewrite cons_middle, app_assoc. by apply H.
Qed.

Lemma readlines_chars content c :
  c <> LF -> c ∉ content -> Forall (fun line => c ∉ line) (readlines content).
Proof.
  intros Hc Hn. unfold readlines.
  eapply Forall_impl; [apply lines_go_chars |]. cbn.
  intros line H Hin. apply H in Hin.
  apply universal_newlines_chars with (n := length content) in Hin
    as [Hin | Hin]; done.
Qed.

Lemma load_txt_lines_nothing self lines w :
  Forall (fun line => arrow ∉ line) lines ->
  for_eachM (load_txt_line self) lines w = (Return tt, w).
Proof.
  induction 1 as [| line lines Hl _ IH]; [done |].
  cbn [for_eachM]. unfold mbind'.
  rewrite load_txt_line_banner by by apply contains_one.
  unfold mret. exact IH.
Qed.

End OtherFormat.

(** X15: [load_from_txt] passes over every line without an arrow.  On a
    file that is there and holds valid text in which the arrow does not
    occur, so on an empty file and on a tabular file whose fields have
    none, it adds no record, raises no exception, and prints that the
    history was loaded. *)
Theorem load_from_txt_no_arrow (sys : ConversionSystem.t) (w : world)
    (filename content : str) :
  files w !! filename = Some content ->
  valid_text content ->
  valid_text filename ->
  (arrow ∉ content) ->
  ConversionSystem.load_from_txt sys filename w
  = (Return tt,
     mkWorld (heap w) (files w)
       (stdout w ++ [lit "History loaded from " ++ filename])).
Proof.
  intros Hf _ _ Ha. unfold ConversionSystem.load_from_txt. rewrite Hf.
  erewrite run_bind; [reflexivity |].
  apply load_txt_lines_nothing. by apply readlines_chars.
Qed.

Lemma load_from_txt_no_arrow_witness :
  files saved_world !! lit "h.csv" = Some (csv_file sample_records)
  /\ valid_text (csv_file sample_records)
  /\ valid_text (lit "h.csv")
  /\ (arrow ∉ csv_file sample_records)
  /\ ConversionSystem.load_from_txt fresh_system (lit "h.csv") saved_world
     = (Return tt,
        mkWorld (heap saved_world) (files saved_world)
          (stdout saved_world ++ [lit "History loaded from " ++ lit "h.csv"])).
Proof.
  assert (H1 : files saved_world !! lit "h.csv"
               = Some (csv_file sample_records)) by (vm_compute; reflexivity).
  assert (H2 : valid_text (csv_file sample_records)) by by_decide.
  assert (H3 : valid_text (lit "h.csv")) by by_decide.
  assert (H4 : arrow ∉ csv_file sample_records) by by_decide.
  split; [exact H1 |]. split; [exact H2 |]. split; [exact H3 |].
  split; [exact H4 |].
  exact (load_from_txt_no_arrow fresh_system saved_world (lit "h.csv")
           (csv_file sample_records) H1 H2 H3 H4).
Defined.

Section TxtAsCsv.

Import csv ConversionSystem.

Lemma universal_newlines_app a b :
  CR ∉ a -> universal_newlines (a ++ b) = a ++ universal_newlines b.
Proof.
  induction a as [| c a IH]; [done |]. intros [Hc Ha]%not_elem_of_cons.
  cbn [app universal_newlines].
  rewrite (proj2 (N.eqb_neq c CR)) by done. by rewrite IH.
Qed.

Lemma readlines_banner rest :
  readlines (txt_banner ++ rest)
  = (lit "Conversion History:" ++ [LF])
      :: (lit "==================" ++ [LF]) :: readlines rest.
Proof.
  unfold readlines. rewrite universal_newlines_app by by_decide.
  unfold txt_banner. rewrite <- !app_assoc. cbn [app].
  rewrite lines_go_line by by_decide.
  rewrite lines_go_line by by_decide. reflexivity.
Qed.

End TxtAsCsv.

(** X16: [load_from_csv] does not read the text format.  On a file that
    is there, holds valid text and starts with the two banner lines
    [save_to_txt] writes, whatever text follows them, the first line is
    taken for the header, the second for a row, and the lookup of
    ['input'] in that row raises [KeyError]; nothing is added to the
    ledger and nothing is printed. *)
Theorem load_from_csv_of_txt (sys : ConversionSystem.t) (w : world)
    (filename rest : str) :
  files w !! filename = Some (txt_banner ++ rest) ->
  valid_text rest ->
  ConversionSystem.load_from_csv sys filename w
  = (Raise (KeyError (lit "input")), w).
Proof.
  intros Hf _. unfold ConversionSystem.load_from_csv. rewrite Hf.
  rewrite readlines_banner. by destruct w.
Qed.

Lemma load_from_csv_of_txt_witness :
  files saved_world !! lit "h.txt"
  = Some (txt_banner ++ concat (ConversionSystem.txt_line <$> sample_records))
  /\ valid_text (concat (ConversionSystem.txt_line <$> sample_records))
  /\ ConversionSystem.load_from_csv fresh_system (lit "h.txt") saved_world
     = (Raise (KeyError (lit "input")), saved_world).
Proof.
  assert (H : files saved_world !! lit "h.txt"
              = Some (txt_banner
                        ++ concat (ConversionSystem.txt_line
                                     <$> sample_records)))
    by (vm_compute; reflexivity).
  assert (H2 : valid_text
                 (concat (ConversionSystem.txt_line <$> sample_records)))
    by by_decide.
  split; [exact H |]. split; [exact H2 |].
  exact (load_from_csv_of_txt fresh_system saved_world (lit "h.txt") _ H H2).
Defined.

(** ** The exceptions of the loaders *)

Section Finishes.

Variable hist : loc.
Variable P : exn -> Prop.

Lemma finishes_ret {A} (a : A) : finishes hist P (mret a).
Proof. by intros w rs _. Qed.

Lemma finishes_raise {A} e : P e -> finishes hist P (@mraise A e).
Proof. by intros He w rs _. Qed.

Lemma finishes_bind {A B} (m : M A) (k : A -> M B) :
  finishes hist P m -> preserving hist m ->
  (forall a, finishes hist P (k a)) ->
  finishes hist P (m ≫= k).
Proof.
  intros Hm Hp Hk w rs H. unfold mbind, M_bind, mbind'.
  specialize (Hm w rs H). destruct (Hp w hist rs H) as (more & H1 & _).
  destruct (m w) as [[a | e |] w1]; cbn in *; [| done | done].
  by eapply Hk.
Qed.

Lemma finishes_for_eachM {A} (body : A -> M unit) xs :
  (forall x, finishes hist P (body x)) ->
  (forall x, preserving hist (body x)) ->
  finishes hist P (for_eachM body xs).
Proof.
  intros Hb Hp. induction xs as [| x xs IH]; [apply finishes_ret |].
  cbn [for_eachM]. by apply (finishes_bind (body x)).
Qed.

Lemma finishes_print line : finishes hist P (print line).
Proof. by intros w rs _. Qed.

End Finishes.

Lemma finishes_add_record P self from_val to_val direction :
  finishes (ConversionHistory._history self) P
    (ConversionHistory.add_record self from_val to_val direction).
Proof.
  intros w rs H.
  by destruct (add_record_holds self w rs from_val to_val direction H)
    as (h1 & -> & _).
Qed.

Section LoaderExceptions.

Import csv.

Lemma parse_add_char_raises r c :
  match parse_add_char r c with
  | Return r' => state r' = state r
  | Raise e => e = field_limit_error
  | Diverge => False
  end.
Proof. unfold parse_add_char. by destruct (_ <=? _)%N. Qed.

Ltac add_char r c :=
  let H := fresh in
  pose proof (parse_add_char_raises r c) as H;
  destruct (parse_add_char r c); cbn; try done.

Lemma step_raises r c :
  state r <> EAT_CRNL -> is_nl c = false ->
  match parse_process_char r (Some c) with
  | Return r' => state r' <> EAT_CRNL
  | Raise e => e = field_limit_error
  | Diverge => False
  end.
Proof.
  intros Hs Hc. unfold parse_process_char, start_field.
  destruct r as [st fs f]. cbn [state] in *. rewrite ?Hc.
  destruct st; try done; cbn [set_state state fields field parse_save_field];
    rewrite ?Hc;
    repeat (match goal with
            | |- context [if (?a =? ?b)%N then _ else _] =>
                destruct (a =? b)%N
            end; cbn; try done);
    match goal with
    | |- context [parse_add_char ?r ?c] => add_char r c
    end.
  all: try by rewrite H.
Qed.

Lemma body_raises cs : forall r,
  state r <> EAT_CRNL -> Forall (fun c => is_nl c = false) cs ->
  match for_each (fun r c => parse_process_char r (Some c)) cs r with
  | Return r' => state r' <> EAT_CRNL
  | Raise e => e = field_limit_error
  | Diverge => False
  end.
Proof.
  induction cs as [| c cs IH]; intros r Hs Hcs; [done |].
  apply Forall_cons in Hcs as [Hc Hcs]. cbn [for_each].
  pose proof (step_raises r c Hs Hc) as H.
  destruct (parse_process_char r (Some c)); cbn; [by apply IH | done | done].
Qed.

Lemma line_end_raises r :
  exists r', parse_process_char r None = Return r' /\ state r' <> EAT_CRNL.
Proof.
  destruct r as [[] fs f]; eexists; (split; [reflexivity | done]).
Qed.

Lemma line_feed_raises r :
  state r <> EAT_CRNL ->
  match parse_process_char r (Some LF) with
  | Return r' => True
  | Raise e => e = field_limit_error
  | Diverge => False
  end.
Proof.
  intros Hs. destruct r as [[] fs f]; try done; cbn.
  add_char (mkReader IN_QUOTED_FIELD fs f) LF.
Qed.

Lemma parse_line_raises r line :
  state r <> EAT_CRNL -> well_ended line ->
  match parse_line r line with
  | Return r' => state r' <> EAT_CRNL
  | Raise e => e = field_limit_error
  | Diverge => False
  end.
Proof.
  intros Hs (body & tail & -> & Hb & Ht). unfold parse_line.
  rewrite for_each_app. pose proof (body_raises body r Hs Hb) as H.
  destruct (for_each _ body r) as [r1 | e |]; cbn; [| done | done].
  destruct Ht as [-> | ->]; cbn [for_each].
  - cbn. destruct (line_end_raises r1) as (r2 & -> & H2). done.
  - pose proof (line_feed_raises r1 H) as H1.
    destruct (parse_process_char r1 (Some LF)) as [r2 | e |]; cbn;
      [| done | done].
    destruct (line_end_raises r2) as (r3 & -> & H3). done.
Qed.

Lemma universal_newlines_no_CR : forall n s,
  (length s <= n)%nat -> CR ∉ universal_newlines s.
Proof.
  induction n as [| n IH]; intros s Hn.
  { destruct s; [| cbn in Hn; lia]. apply not_elem_of_nil. }
  destruct s as [| a s]; [apply not_elem_of_nil |].
  cbn [universal_newlines length] in *.
  destruct (N.eqb_spec a CR) as [-> | Ha].
  - apply not_elem_of_cons. split; [done |].
    destruct s as [| b s]; [apply not_elem_of_nil |]. cbn [length] in Hn.
    destruct (b =? LF)%N; apply IH; cbn [length]; lia.
  - apply not_elem_of_cons. split; [done |]. apply IH. lia.
Qed.

Lemma lines_go_well_ended s : forall cur,
  CR ∉ s -> Forall (fun c => is_nl c = false) cur ->
  Forall well_ended (lines_go s cur).
Proof.
  induction s as [| a s IH]; intros cur Hs Hcur.
  - cbn. destruct cur; [constructor |].
    constructor; [| constructor]. exists (n :: cur), [].
    rewrite app_nil_r. split_and!; [done | done | by left].
  - apply not_elem_of_cons in Hs as [Ha Hs]. cbn [lines_go].
    destruct (N.eqb_spec a LF) as [-> | Hlf].
    + constructor; [| by apply IH].
      exists cur, [LF]. split_and!; [done | done | by right].
    + apply IH; [done |]. apply Forall_app. split; [done |].
      constructor; [| done]. unfold is_nl.
      by rewrite (proj2 (N.eqb_neq a LF)), (proj2 (N.eqb_neq a CR)).
Qed.

Lemma readlines_well_ended content : Forall well_ended (readlines content).
Proof.
  apply lines_go_well_ended; [| done].
  by apply (universal_newlines_no_CR (length content)).
Qed.

End LoaderExceptions.

Section CsvExceptions.

Import csv.

Variable sys : ConversionSystem.t.

Local Abbreviation hist :=
  (ConversionHistory._history (ConversionSystem.history sys)).

Lemma zip_fst_take {A B} (xs : list A) (ys : list B) :
  (zip xs ys).*1 = take (length ys) xs.
Proof.
  revert ys. induction xs as [| x xs IH]; intros [| y ys]; cbn; try done.
  by rewrite IH.
Qed.

(** A row's dictionary has every name of the header as a key. *)
Lemma DictReader_dict_keys names row k :
  k ∈ names -> is_Some (DictReader_dict names row !! k).
Proof.
  intros Hk. unfold DictReader_dict.
  apply not_eq_None_Some. intros Hn.
  apply not_elem_of_list_to_map in Hn. apply Hn.
  rewrite fmap_reverse, elem_of_reverse, fmap_app.
  rewrite zip_fst_take, length_fmap, <- list_fmap_compose.
  rewrite (list_fmap_ext (fst ∘ _) id (drop (length row) names)) by done.
  by rewrite list_fmap_id, take_drop.
Qed.

Lemma preserving_load_csv_row d : preserving hist (load_csv_row sys d).
Proof.
  unfold load_csv_row.
  apply (preserving_bind _ (csv.getitem d _)); [apply preserving_getitem |].
  intros i.
  apply (preserving_bind _ (csv.getitem d _)); [apply preserving_getitem |].
  intros o.
  apply (preserving_bind _ (csv.getitem d _)); [apply preserving_getitem |].
  intros ty. apply preserving_add_record.
Qed.

Lemma finishes_getitem {B} named names row key (k : value -> M B) :
  (named = true -> key ∈ names) ->
  missing_column (KeyError key) ->
  (forall v, finishes hist (reader_error named) (k v)) ->
  finishes hist (reader_error named)
    (getitem (DictReader_dict names row) key ≫= k).
Proof.
  intros Hin Hmiss Hk. unfold getitem.
  destruct (DictReader_dict names row !! key) as [v |] eqn:E.
  - apply finishes_bind; [apply finishes_ret | apply preserving_ret | done].
  - apply finishes_bind; [| apply preserving_raise | done].
    apply finishes_raise. right. split; [| done].
    destruct named; [| done].
    destruct (DictReader_dict_keys names row key (Hin eq_refl)) as [v Hv].
    congruence.
Qed.

Lemma finishes_load_csv_row named names row :
  header_names named (Some names) ->
  finishes hist (reader_error named)
    (load_csv_row sys (DictReader_dict names row)).
Proof.
  intros Hn. unfold load_csv_row.
  assert (Hin : named = true ->
                lit "input" ∈ names /\ lit "output" ∈ names
                /\ lit "type" ∈ names).
  { intros E. destruct (Hn E) as (names' & [= <-] & H). exact H. }
  apply finishes_getitem; [intros E; apply (Hin E) | by left |]. intros i.
  apply finishes_getitem; [intros E; apply (Hin E) | right; by left |].
  intros o.
  apply finishes_getitem; [intros E; apply (Hin E) | right; by right |].
  intros ty. apply finishes_add_record.
Qed.

Lemma finishes_DictReader_row named fn row k :
  header_names named fn ->
  (forall fn', header_names named fn' ->
     finishes hist (reader_error named) (k fn')) ->
  finishes hist (reader_error named)
    (DictReader_row (load_csv_row sys) fn row k).
Proof.
  intros Hfn Hk. unfold DictReader_row.
  destruct fn as [names |].
  - destruct row as [| f row]; [by apply Hk |].
    apply finishes_bind;
      [by apply finishes_load_csv_row | apply preserving_load_csv_row |].
    intros _. by apply Hk.
  - apply Hk. intros E. by destruct (Hfn E) as (names & [=] & _).
Qed.

Lemma finishes_DictReader_for named lines :
  Forall well_ended lines ->
  forall fn r,
  state r <> EAT_CRNL -> header_names named fn ->
  finishes hist (reader_error named)
    (DictReader_for (load_csv_row sys) fn r lines).
Proof.
  induction 1 as [| line lines Hl _ IH]; intros fn r Hs Hfn.
  - cbn [DictReader_for].
    destruct (field r), (state r); try apply finishes_ret;
      (apply finishes_DictReader_row; [done | intros; apply finishes_ret]).
  - cbn [DictReader_for].
    pose proof (parse_line_raises r line Hs Hl) as H.
    destruct (parse_line r line) as [r' | e |]; [| | done].
    + destruct (state r') eqn:E; try (apply IH; [by rewrite E | done]).
      apply finishes_DictReader_row; [done |]. intros fn' Hfn'.
      by apply IH.
    + apply finishes_raise. by left.
Qed.

End CsvExceptions.

Lemma finishes_load_from_csv sys filename :
  finishes (ConversionHistory._history (ConversionSystem.history sys))
    (reader_error false) (ConversionSystem.load_from_csv sys filename).
Proof.
  intros w rs Hrs. unfold ConversionSystem.load_from_csv.
  destruct (files w !! filename) as [content |]; [| done].
  fold (load_csv_row sys). revert w rs Hrs.
  change (finishes (ConversionHistory._history (ConversionSystem.history sys))
            (reader_error false)
            (_ ← csv.DictReader_for (load_csv_row sys) None
                   csv.parse_reset (readlines content);
             print (lit "History loaded from " ++ filename))).
  apply finishes_bind; [| | intros; apply finishes_print].
  - apply finishes_DictReader_for;
      [apply readlines_well_ended | done | done].
  - apply preserving_DictReader_for. apply preserving_load_csv_row.
Qed.

(** X17: the exceptions of [load_from_csv].  On a file that is not there,
    or that is there and holds valid text, whatever that text is, and
    with a file name that is valid text, the call returns or raises one
    of two exceptions: [csv.Error] for a field longer than the reader's
    limit, or [KeyError] for ['input'], ['output'] or ['type'] when the
    first row of the file does not name that column.  It raises nothing
    else (the file is read as text, so the reader's error for a line end
    inside a field cannot occur). *)
Theorem load_from_csv_raises (sys : ConversionSystem.t) (w : world)
    (rs : list record) (filename : str) :
  ledger w sys = Some rs ->
  (forall content, files w !! filename = Some content -> valid_text content) ->
  valid_text filename ->
  raises_only (fun e => e = field_limit_error \/ missing_column e)
    (ConversionSystem.load_from_csv sys filename w).1.
Proof.
  intros Hrs _ _. apply records_at_holds in Hrs.
  pose proof (finishes_load_from_csv sys filename w rs Hrs) as H.
  revert H.
  destruct (_ w).1 as [a | e |]; cbn; [done | | done].
  intros [-> | [_ H]]; [by left | by right].
Qed.

Lemma load_from_csv_raises_witness :
  ledger saved_world fresh_system = Some sample_records
  /\ (forall content,
        files saved_world !! lit "h.txt" = Some content -> valid_text content)
  /\ valid_text (lit "h.txt")
  /\ raises_only (fun e => e = field_limit_error \/ missing_column e)
       (ConversionSystem.load_from_csv fresh_system (lit "h.txt")
          saved_world).1.
Proof.
  assert (H1 : ledger saved_world fresh_system = Some sample_records)
    by reflexivity.
  assert (H2 : forall content,
             files saved_world !! lit "h.txt" = Some content ->
             valid_text content).
  { intros content H.
    assert (E : files saved_world !! lit "h.txt"
                = Some (txt_file sample_records)) by (vm_compute; reflexivity).
    rewrite E in H. injection H as <-. by_decide. }
  assert (H3 : valid_text (lit "h.txt")) by by_decide.
  split; [exact H1 |]. split; [exact H2 |]. split; [exact H3 |].
  exact (load_from_csv_raises fresh_system saved_world sample_records
           (lit "h.txt") H1 H2 H3).
Defined.

(** X18: with the header that [save_to_csv] writes, no column is
    missing.  On a file that is there, holds valid text and has that
    header as its first line, whatever text follows it (short rows, long
    rows, empty lines, unbalanced quotes), and with a file name that is
    valid text, [load_from_csv] returns, or raises [csv.Error] for a
    field longer than the reader's limit; it raises no [KeyError]. *)
Theorem load_from_csv_with_header (sys : ConversionSystem.t) (w : world)
    (rs : list record) (filename rest : str) :
  ledger w sys = Some rs ->
  files w !! filename
  = Some (csv.writerow (VStr <$> ConversionSystem.fieldnames) ++ rest) ->
  valid_text rest ->
  valid_text filename ->
  raises_only (fun e => e = field_limit_error)
    (ConversionSystem.load_from_csv sys filename w).1.
Proof.
  intros Hrs Hf _ _. apply records_at_holds in Hrs.
  unfold ConversionSystem.load_from_csv. rewrite Hf.
  fold (load_csv_row sys). unfold readlines.
  change (VStr <$> ConversionSystem.fieldnames)
    with [VStr (lit "input"); VStr (lit "output"); VStr (lit "type")].
  rewrite universal_newlines_row by by_decide.
  unfold row_line. cbn [csv.field_text].
  change (csv.join_append (lit "input") ++ csv.delimiter
            :: csv.join_append (lit "output") ++ csv.delimiter
            :: csv.join_append (lit "type") ++ [LF])
    with (lit "input,output,type" ++ [LF]).
  rewrite <- app_assoc. cbn [app].
  rewrite lines_go_line by by_decide.
  cbn [csv.DictReader_for].
  change (csv.parse_line csv.parse_reset ([] ++ lit "input,output,type" ++ [LF]))
    with (Return (csv.mkReader csv.START_RECORD
                    [lit "input"; lit "output"; lit "type"] [])).
  cbn [csv.state csv.fields csv.DictReader_row].
  assert (H : finishes (ConversionHistory._history (ConversionSystem.history sys))
                (reader_error true)
                (_ ← csv.DictReader_for (load_csv_row sys)
                       (Some [lit "input"; lit "output"; lit "type"])
                       csv.parse_reset
                       (lines_go (universal_newlines rest) []);
                 print (lit "History loaded from " ++ filename))).
  { apply finishes_bind; [| | intros; apply finishes_print].
    - apply finishes_DictReader_for;
        [apply (readlines_well_ended rest) | done |].
      intros _. eexists. split; [reflexivity |].
      split_and!; by_decide.
    - apply preserving_DictReader_for. apply preserving_load_csv_row. }
  specialize (H w rs Hrs). revert H.
  destruct (_ w).1 as [a | e |]; cbn; [done | | done].
  by intros [-> | [[=] _]].
Qed.

Lemma load_from_csv_with_header_witness :
  ledger saved_world fresh_system = Some sample_records
  /\ files saved_world !! lit "h.csv"
     = Some (csv.writerow (VStr <$> ConversionSystem.fieldnames)
               ++ concat (csv.writerow ∘ ConversionSystem._dict_to_list
                            <$> sample_records))
  /\ valid_text (concat (csv.writerow ∘ ConversionSystem._dict_to_list
                           <$> sample_records))
  /\ valid_text (lit "h.csv")
  /\ raises_only (fun e => e = field_limit_error)
       (ConversionSystem.load_from_csv fresh_system (lit "h.csv")
          saved_world).1.
Proof.
  assert (H1 : ledger saved_world fresh_system = Some sample_records)
    by reflexivity.
  assert (H2 : files saved_world !! lit "h.csv"
               = Some (csv.writerow (VStr <$> ConversionSystem.fieldnames)
                         ++ concat (csv.writerow
                                      ∘ ConversionSystem._dict_to_list
                                      <$> sample_records)))
    by (vm_compute; reflexivity).
  assert (H3 : valid_text
                 (concat (csv.writerow ∘ ConversionSystem._dict_to_list
                            <$> sample_records))) by by_decide.
  assert (H4 : valid_text (lit "h.csv")) by by_decide.
  split; [exact H1 |]. split; [exact H2 |]. split; [exact H3 |].
  split; [exact H4 |].
  exact (load_from_csv_with_header fresh_system saved_world sample_records
           (lit "h.csv") _ H1 H2 H3 H4).
Defined.

Lemma finishes_load_txt_line sys line :
  finishes (ConversionHistory._history (ConversionSystem.history sys))
    unpack_error (ConversionSystem.load_txt_line sys line).
Proof.
  unfold ConversionSystem.load_txt_line.
  destruct (contains _ line); [| apply finishes_ret].
  destruct (split _ (strip line)) as [| a [| rest [| ? ?]]];
    try apply finishes_ret.
  destruct (split _ rest) as [| o [| t [| ? ?]]];
    try (apply finishes_raise; by left);
    try (apply finishes_raise; by right).
  destruct (contains _ _); apply finishes_add_record.
Qed.

Lemma finishes_load_from_txt sys filename :
  finishes (ConversionHistory._history (ConversionSystem.history sys))
    unpack_error (ConversionSystem.load_from_txt sys filename).
Proof.
  intros w rs Hrs. unfold ConversionSystem.load_from_txt.
  destruct (files w !! filename) as [content |]; [| done].
  revert w rs Hrs.
  change (finishes (ConversionHistory._history (ConversionSystem.history sys))
            unpack_error
            (_ ← for_eachM (ConversionSystem.load_txt_line sys)
                   (readlines content);
             print (lit "History loaded from " ++ filename))).
  apply finishes_bind; [| | intros; apply finishes_print].
  - apply finishes_for_eachM;
      [apply finishes_load_txt_line | apply preserving_load_txt_line].
  - apply preserving_for_eachM. apply preserving_load_txt_line.
Qed.

(** X19: the exceptions of [load_from_txt].  On a file that is not
    there, or that is there and holds valid text, whatever that text is,
    and with a file name that is valid text, the call returns or raises
    [ValueError], from the unpacking of the two parts of a line at
    [' (']: a line with one arrow whose second part has no [' ('], or
    more than one.  It raises nothing else. *)
Theorem load_from_txt_raises (sys : ConversionSystem.t) (w : world)
    (rs : list record) (filename : str) :
  ledger w sys = Some rs ->
  (forall content, files w !! filename = Some content -> valid_text content) ->
  valid_text filename ->
  raises_only unpack_error
    (ConversionSystem.load_from_txt sys filename w).1.
Proof.
  intros Hrs _ _. apply records_at_holds in Hrs.
  exact (finishes_load_from_txt sys filename w rs Hrs).
Qed.

Lemma load_from_txt_raises_witness :
  ledger saved_world fresh_system = Some sample_records
  /\ (forall content,
        files saved_world !! lit "h.txt" = Some content -> valid_text content)
  /\ valid_text (lit "h.txt")
  /\ raises_only unpack_error
       (ConversionSystem.load_from_txt fresh_system (lit "h.txt")
          saved_world).1.
Proof.
  assert (H1 : ledger saved_world fresh_system = Some sample_records)
    by reflexivity.
  assert (H2 : forall content,
             files saved_world !! lit "h.txt" = Some content ->
             valid_text content).
  { intros content H.
    assert (E : files saved_world !! lit "h.txt"
                = Some (txt_file sample_records)) by (vm_compute; reflexivity).
    rewrite E in H. injection H as <-. by_decide. }
  assert (H3 : valid_text (lit "h.txt")) by by_decide.
  split; [exact H1 |]. split; [exact H2 |]. split; [exact H3 |].
  exact (load_from_txt_raises fresh_system saved_world sample_records
           (lit "h.txt") H1 H2 H3).
Defined.

(** ** The two formats side by side *)

Lemma conversion_record_reloaded d :
  conversion_record d -> txt_reloaded d = turned (csv_reloaded d).
Proof.
  intros [(Ht & text & n & Hi & Ho & _)
         | (Ht & n & numeral & Hi & Ho & _)];
    destruct d as [i o t]; cbn [input output type] in *; subst; reflexivity.
Qed.

Lemma conversion_record_turned d :
  conversion_record d -> type d = VStr (lit "decimal") ->
  csv_reloaded d <> turned (csv_reloaded d).
Proof.
  intros [(Ht & _) | (_ & n & numeral & Hi & Ho & Hn & E & _)] Hd;
    [rewrite Ht in Hd; vm_compute in Hd; discriminate |].
  destruct d as [i o t]. cbn [input output type] in *. subst.
  unfold csv_reloaded, turned. cbn [input output type csv.field_text].
  rewrite bool_decide_eq_false_2 by by_decide. intros [= H _].
  pose proof (canonical_ok_range n Hn) as Hok.
  unfold canonical_ok in Hok. rewrite E in Hok.
  apply bool_decide_eq_true in Hok as (Hne & Hall & _).
  destruct (str_of_int_chars n) as [_ Hdigits]. rewrite H in Hdigits.
  destruct numeral as [| c numeral]; [done |].
  apply Forall_cons in Hall as [Hc _]. apply Forall_cons in Hdigits as [Hd _].
  unfold roman_symbol in Hc.
  repeat (apply elem_of_cons in Hc as [-> | Hc];
          [vm_compute in Hd; destruct Hd as [Hd | [_ Hd]];
           [discriminate | by apply Hd] |]).
  by apply elem_of_nil in Hc.
Qed.

Lemma conversion_records_turned rs :
  Forall conversion_record rs ->
  Exists (fun d => type d = VStr (lit "decimal")) rs ->
  csv_reloaded <$> rs <> turned <$> (csv_reloaded <$> rs).
Proof.
  induction 1 as [| d rs Hd _ IH]; intros Hex; [by inversion Hex |].
  cbn [fmap list_fmap]. intros [= H1 H2].
  apply Exists_cons in Hex as [Ht | Hex].
  - apply (conversion_record_turned d Hd Ht). by destruct d.
  - by apply IH.
Qed.

(** X20: the two formats do not give back the same ledger.  For a ledger
    of records as [convert] makes them (that both formats keep), saving
    in the tabular format and loading into a new system gives each record
    with its fields as text; saving in the text format and loading into a
    new system gives the same records, but those of type ['decimal'] with
    input and output exchanged.  The two ledgers differ as soon as there
    is a record of type ['decimal']. *)
Theorem formats_turn_decimal_records (sys : ConversionSystem.t) (w : world)
    (rs : list record) (filename : str) :
  ledger w sys = Some rs ->
  Forall conversion_record rs ->
  Forall csv_safe rs -> Forall txt_safe rs ->
  (exists w1 sys2 w2 w3,
     ConversionSystem.save_to_csv sys filename w = (Return tt, w1)
     /\ ConversionSystem.__init__ w1 = (Return sys2, w2)
     /\ ConversionSystem.load_from_csv sys2 filename w2 = (Return tt, w3)
     /\ ledger w3 sys2 = Some (csv_reloaded <$> rs))
  /\ (exists w1 sys2 w2 w3,
        ConversionSystem.save_to_txt sys filename w = (Return tt, w1)
        /\ ConversionSystem.__init__ w1 = (Return sys2, w2)
        /\ ConversionSystem.load_from_txt sys2 filename w2 = (Return tt, w3)
        /\ ledger w3 sys2 = Some (turned <$> (csv_reloaded <$> rs)))
  /\ (Exists (fun d => type d = VStr (lit "decimal")) rs ->
      csv_reloaded <$> rs <> turned <$> (csv_reloaded <$> rs)).
Proof.
  intros Hrs Hconv Hcsv Htxt. split_and!.
  - destruct (save_exact sys filename
                (csv.writerow (VStr <$> ConversionSystem.fieldnames))
                (csv.writerow ∘ ConversionSystem._dict_to_list) w rs Hrs)
      as (items & E1 & _).
    set (w1 := mkWorld _ _ _) in E1.
    destruct (init_holds w1) as (sys2 & E2 & Hh).
    destruct (load_from_csv_onto sys2 filename
                (set_heap (heap w1 ++ [OList []]) w1) [] rs Hcsv)
      as (h' & E3 & H3); [apply lookup_insert_eq | exact Hh |].
    eexists _, _, _, _. split_and!; [exact E1 | exact E2 | exact E3 |].
    by apply records_at_holds.
  - destruct (save_exact sys filename txt_banner ConversionSystem.txt_line
                w rs Hrs) as (items & E1 & _).
    set (w1 := mkWorld _ _ _) in E1.
    destruct (init_holds w1) as (sys2 & E2 & Hh).
    destruct (load_from_txt_onto sys2 filename
                (set_heap (heap w1 ++ [OList []]) w1) [] rs Htxt)
      as (h' & E3 & H3); [apply lookup_insert_eq | exact Hh |].
    eexists _, _, _, _. split_and!; [| exact E2 | exact E3 |].
    + rewrite <- E1. unfold ConversionSystem.save_to_txt.
      unfold mbind, M_bind, mbind', open_w, file_write. cbn.
      rewrite !lookup_insert_eq. cbn. rewrite !insert_insert_eq.
      reflexivity.
    + apply records_at_holds. cbn [app] in H3.
      replace (turned <$> (csv_reloaded <$> rs)) with (txt_reloaded <$> rs);
        [done |].
      rewrite <- list_fmap_compose. apply list_fmap_ext.
      intros i d Hd. apply conversion_record_reloaded.
      rewrite Forall_forall in Hconv. apply Hconv.
      by eapply list_elem_of_lookup_2.
  - by apply conversion_records_turned.
Qed.

Lemma formats_turn_decimal_records_witness :
  ledger sample_world fresh_system = Some sample_records
  /\ Forall conversion_record sample_records
  /\ Forall csv_safe sample_records /\ Forall txt_safe sample_records
  /\ (exists w1 sys2 w2 w3,
        ConversionSystem.save_to_csv fresh_system (lit "h") sample_world
        = (Return tt, w1)
        /\ ConversionSystem.__init__ w1 = (Return sys2, w2)
        /\ ConversionSystem.load_from_csv sys2 (lit "h") w2 = (Return tt, w3)
        /\ ledger w3 sys2 = Some (csv_reloaded <$> sample_records))
  /\ (exists w1 sys2 w2 w3,
        ConversionSystem.save_to_txt fresh_system (lit "h") sample_world
        = (Return tt, w1)
        /\ ConversionSystem.__init__ w1 = (Return sys2, w2)
        /\ ConversionSystem.load_from_txt sys2 (lit "h") w2 = (Return tt, w3)
        /\ ledger w3 sys2
           = Some (turned <$> (csv_reloaded <$> sample_records)))
  /\ (Exists (fun d => type d = VStr (lit "decimal")) sample_records ->
      csv_reloaded <$> sample_records
      <> turned <$> (csv_reloaded <$> sample_records)).
Proof.
  assert (H1 : ledger sample_world fresh_system = Some sample_records)
    by reflexivity.
  assert (H2 : Forall conversion_record sample_records).
  { apply Forall_cons. split; [| apply Forall_cons; split; [| constructor]].
    - left. split; [reflexivity |]. exists (lit "XIV"), 14.
      split_and!; reflexivity.
    - right. split; [reflexivity |]. exists 9, (lit "IX").
      split_and!; try reflexivity; lia. }
  assert (H3 : Forall csv_safe sample_records).
  { repeat constructor; try reflexivity; try by_decide;
      vm_compute; discriminate. }
  assert (H4 : Forall txt_safe sample_records).
  { repeat constructor; try reflexivity; by_decide. }
  split; [exact H1 |]. split; [exact H2 |]. split; [exact H3 |].
  split; [exact H4 |].
  exact (formats_turn_decimal_records fresh_system sample_world
           sample_records (lit "h") H1 H2 H3 H4).
Defined.

(** ** Printing a conversion *)

(** X21: [print_conversion] with the two converters, one after the
    other.  For a number from 1 to 3999 the first call prints the numeral
    and the second call, given that numeral, prints the number; each
    prints one line and changes nothing else.  With any converter that
    raises, the exception goes to the caller and nothing is printed. *)
Theorem print_conversion_round_trip (n : Z) (w : world) :
  1 <= n <= 3999 ->
  (exists numeral,
     print_conversion DecimalToRomanConverter.new (VInt n) w
     = (Return tt,
        mkWorld (heap w) (files w)
          (stdout w ++ [lit "Converted value: " ++ numeral]))
     /\ forall w',
          print_conversion RomanToDecimalConverter.new (VStr numeral) w'
          = (Return tt,
             mkWorld (heap w') (files w')
               (stdout w' ++ [lit "Converted value: " ++ str_of_int n])))
  /\ forall (converter : NumeralConverter) (v : value) (e : exn),
       converter.(convert) v = Raise e ->
       print_conversion converter v w = (Raise e, w).
Proof.
  intros Hn. split.
  - destruct (roundtrip_ok_inv n (roundtrip_ok_range n Hn)) as (r & E1 & E2).
    exists r. unfold decimalToRoman in E1. unfold romanToDecimal in E2.
    split; [| intros w'];
      unfold print_conversion, mbind, M_bind, mbind', lift;
      cbn [convert DecimalToRomanConverter.new RomanToDecimalConverter.new].
    + by rewrite E1.
    + by rewrite E2.
  - intros converter v e E.
    unfold print_conversion, mbind, M_bind, mbind', lift. by rewrite E.
Qed.

Lemma print_conversion_round_trip_witness :
  1 <= 1994 <= 3999
  /\ (exists numeral,
        print_conversion DecimalToRomanConverter.new (VInt 1994) empty_world
        = (Return tt,
           mkWorld (heap empty_world) (files empty_world)
             (stdout empty_world ++ [lit "Converted value: " ++ numeral]))
        /\ forall w',
             print_conversion RomanToDecimalConverter.new (VStr numeral) w'
             = (Return tt,
                mkWorld (heap w') (files w')
                  (stdout w'
                     ++ [lit "Converted value: " ++ str_of_int 1994])))
  /\ forall (converter : NumeralConverter) (v : value) (e : exn),
       converter.(convert) v = Raise e ->
       print_conversion converter v empty_world = (Raise e, empty_world).
Proof.
  assert (H : 1 <= 1994 <= 3999) by lia.
  split; [exact H |].
  exact (print_conversion_round_trip 1994 empty_world H).
Defined.

(** ** The menu *)

Lemma io_bind_done {A B} (m : IO A) (k : A -> IO B) c a c' :
  m c = (Done a, c') -> (m ≫= k) c = k a c'.
Proof. intros E. unfold mbind, IO_bind, io_bind. by rewrite E. Qed.

Lemma call_return {A} (m : M A) ins w a w' :
  m w = (Return a, w') ->
  call m (mkConsole ins w) = (Done a, mkConsole ins w').
Proof. intros E. unfold call. cbn [now stdin]. by rewrite E. Qed.

Lemma call_raise {A} (m : M A) ins w e w' :
  m w = (Raise e, w') ->
  call m (mkConsole ins w) = (Stopped (Uncaught e), mkConsole ins w').
Proof. intros E. unfold call. cbn [now stdin]. by rewrite E. Qed.

Lemma print_all lines : forall w,
  for_eachM print lines w
  = (Return tt, mkWorld (heap w) (files w) (stdout w ++ lines)).
Proof.
  induction lines as [| line lines IH]; intros w.
  - cbn. rewrite app_nil_r. by destruct w.
  - cbn [for_eachM]. unfold mbind', print at 1. rewrite IH. cbn.
    by rewrite <- app_assoc.
Qed.

(** The start of a turn: the menu, the prompt, the choice. *)
Lemma turn_choice {B} (k : str -> IO B) choice rest w :
  (_ ← call (for_eachM print menu);
   choice ← input_line (lit "Select an option (1-8): "); k choice)
    (mkConsole (choice :: rest) w)
  = k choice
      (mkConsole rest
         (mkWorld (heap w) (files w)
            (stdout w ++ menu ++ [lit "Select an option (1-8): "]))).
Proof.
  erewrite io_bind_done; [| apply call_return, print_all].
  erewrite io_bind_done; [| reflexivity].
  cbn. by rewrite <- app_assoc.
Qed.

(** [add_record] and [convert] touch the heap only. *)
Lemma add_record_frame self from_val to_val direction w :
  files (ConversionHistory.add_record self from_val to_val direction w).2
  = files w
  /\ stdout (ConversionHistory.add_record self from_val to_val direction w).2
     = stdout w.
Proof.
  unfold ConversionHistory.add_record, mbind, M_bind, mbind', alloc,
    list_append. cbn.
  by destruct (_ !! ConversionHistory._history self) as [[] |].
Qed.

Lemma convert_frame sys v conversion_type w :
  files (ConversionSystem.convert sys v conversion_type w).2 = files w
  /\ stdout (ConversionSystem.convert sys v conversion_type w).2 = stdout w.
Proof.
  unfold ConversionSystem.convert.
  destruct (ConverterFactory.get_converter conversion_type) as [[codec] |];
    [| done].
  unfold mbind, M_bind, mbind', lift. cbn [convert].
  destruct (codec v) as [a | e |]; [| done | done].
  destruct (bool_decide _);
    match goal with
    | |- context [ConversionHistory.add_record ?s ?a ?b ?c w] =>
        pose proof (add_record_frame s a b c w) as H;
        by destruct (ConversionHistory.add_record s a b c w) as [[] ?]
    end.
Qed.

(** X22: a Roman numeral through the menu.  After the choice [1] the
    next line is stripped of white space and put in upper case.  When
    the result is a text over the seven symbols, its value is printed and
    the conversion is appended to the ledger; otherwise the [KeyError] of
    the converter is caught, a message is printed and the ledger is as it
    was.  In both cases the session goes on, and no file is touched. *)
Theorem menu_roman_conversion (upper : str -> str)
    (int_of_str : str -> option Z) (sys : ConversionSystem.t) (w : world)
    (rs : list record) (line : str) (rest : list str) :
  ledger w sys = Some rs ->
  exists w',
    turn upper int_of_str sys (mkConsole (lit "1" :: line :: rest) w)
    = (Done Continue, mkConsole rest w')
    /\ files w' = files w
    /\ ((exists n,
           Forall roman_symbol (upper (strip line))
           /\ romanToDecimal (upper (strip line)) = Return (VInt n)
           /\ ledger w' sys
              = Some (rs ++ [mkRecord (VStr (upper (strip line))) (VInt n)
                               (VStr (lit "roman"))])
           /\ stdout w'
              = stdout w ++ roman_prompts
                  ++ [upper (strip line) ++ lit " = " ++ str_of_int n])
        \/ (~ Forall roman_symbol (upper (strip line))
            /\ ledger w' sys = Some rs
            /\ stdout w'
               = stdout w ++ roman_prompts
                   ++ [lit "Invalid Roman numeral! Use only I, V, X, L, C, D, M."])).
Proof.
  intros Hrs. unfold turn. rewrite turn_choice.
  rewrite bool_decide_eq_true_2 by done.
  erewrite io_bind_done; [| reflexivity]. cbn [now stdin print snd].
  set (w1 := mkWorld _ _ _). set (roman := upper (strip line)).
  assert (Hrs1 : ledger w1 sys = Some rs) by exact Hrs.
  pose proof (convert_known sys w1 rs (VStr roman) (lit "roman")
                RomanToDecimalConverter.convert Hrs1 eq_refl) as [Hok Herr].
  destruct (convert_frame sys (VStr roman) (lit "roman") w1) as [Ff Fo].
  assert (Hout : stdout w1 = stdout w ++ roman_prompts).
  { unfold roman_prompts. cbn. by rewrite <- !app_assoc. }
  destruct (decide (Forall roman_symbol roman)) as [Hsym | Hsym].
  - pose proof (convert_symbols roman Hsym) as Ec.
    destruct (Hok _ Ec) as (w2 & E2 & Hl). rewrite E2 in Ff, Fo.
    eexists. split; [| split; [| left; eexists; split_and!]].
    + erewrite io_bind_done; [reflexivity |].
      unfold try_except. erewrite io_bind_done; [| by apply call_return].
      reflexivity.
    + exact Ff.
    + done.
    + exact Ec.
    + exact Hl.
    + cbn in *. by rewrite Fo, Hout, <- app_assoc.
  - destruct (convert_invalid roman Hsym) as (c & _ & _ & Ec).
    specialize (Herr _ Ec).
    eexists. split; [| split; [| right; split_and!]].
    + erewrite io_bind_done; [reflexivity |].
      unfold try_except. unfold mbind at 1, IO_bind, io_bind.
      erewrite call_raise by exact Herr. reflexivity.
    + done.
    + done.
    + exact Hrs1.
    + cbn in *. by rewrite Hout, <- app_assoc.
Qed.

Lemma menu_roman_conversion_witness :
  ledger fresh_world fresh_system = Some []
  /\ exists w',
       turn ascii_upper ascii_int fresh_system
         (mkConsole [lit "1"; lit " mcmxciv "] fresh_world)
       = (Done Continue, mkConsole [] w')
       /\ files w' = files fresh_world
       /\ ((exists n,
              Forall roman_symbol (ascii_upper (strip (lit " mcmxciv ")))
              /\ romanToDecimal (ascii_upper (strip (lit " mcmxciv ")))
                 = Return (VInt n)
              /\ ledger w' fresh_system
                 = Some ([] ++ [mkRecord
                                  (VStr (ascii_upper (strip (lit " mcmxciv "))))
                                  (VInt n) (VStr (lit "roman"))])
              /\ stdout w'
                 = stdout fresh_world ++ roman_prompts
                     ++ [ascii_upper (strip (lit " mcmxciv ")) ++ lit " = "
                           ++ str_of_int n])
           \/ (~ Forall roman_symbol (ascii_upper (strip (lit " mcmxciv ")))
               /\ ledger w' fresh_system = Some []
               /\ stdout w'
                  = stdout fresh_world ++ roman_prompts
                      ++ [lit "Invalid Roman numeral! Use only I, V, X, L, C, D, M."])).
Proof.
  assert (H : ledger fresh_world fresh_system = Some []) by reflexivity.
  split; [exact H |].
  exact (menu_roman_conversion ascii_upper ascii_int fresh_system fresh_world
           [] (lit " mcmxciv ") [] H).
Defined.

(** X23: a number through the menu.  After the choice [2] the next line
    goes to [int()].  When it gives a number from 1 to 3999, the numeral
    is printed and the conversion is appended to the ledger; when
    [int()] raises, or the number is out of range, the [ValueError] is
    caught, a message is printed and the ledger is as it was.  In both
    cases the session goes on, and no file is touched. *)
Theorem menu_decimal_conversion (upper : str -> str)
    (int_of_str : str -> option Z) (sys : ConversionSystem.t) (w : world)
    (rs : list record) (line : str) (rest : list str) :
  ledger w sys = Some rs ->
  exists w',
    turn upper int_of_str sys (mkConsole (lit "2" :: line :: rest) w)
    = (Done Continue, mkConsole rest w')
    /\ files w' = files w
    /\ ((exists n numeral,
           int_of_str line = Some n /\ 1 <= n <= 3999
           /\ decimalToRoman n = Return (VStr numeral)
           /\ ledger w' sys
              = Some (rs ++ [mkRecord (VInt n) (VStr numeral)
                               (VStr (lit "decimal"))])
           /\ stdout w'
              = stdout w ++ decimal_prompts
                  ++ [str_of_int n ++ lit " = " ++ numeral])
        \/ ((int_of_str line = None
             \/ exists n, int_of_str line = Some n /\ (n <= 0 \/ 4000 <= n))
            /\ ledger w' sys = Some rs
            /\ stdout w'
               = stdout w ++ decimal_prompts
                   ++ [lit "Invalid number! Enter an integer between 1 and 3999."])).
Proof.
  intros Hrs. unfold turn. rewrite turn_choice.
  rewrite bool_decide_eq_false_2 by done.
  rewrite bool_decide_eq_true_2 by done.
  set (w0 := mkWorld _ _ _).
  set (w1 := mkWorld (heap w) (files w)
               (stdout w0 ++ [lit "Enter decimal number (1-3999): "])).
  assert (Hrs1 : ledger w1 sys = Some rs) by exact Hrs.
  assert (Hout : stdout w1 = stdout w ++ decimal_prompts).
  { unfold decimal_prompts. cbn. by rewrite <- !app_assoc. }
  destruct (int_of_str line) as [n |] eqn:En.
  - pose proof (convert_known sys w1 rs (VInt n) (lit "decimal")
                  DecimalToRomanConverter.convert Hrs1 eq_refl) as [Hok Herr].
    destruct (convert_frame sys (VInt n) (lit "decimal") w1) as [Ff Fo].
    destruct (decide (1 <= n <= 3999)) as [Hn | Hn].
    + destruct (convert_in_range n Hn) as [numeral Ec].
      destruct (Hok _ Ec) as (w2 & E2 & Hl). rewrite E2 in Ff, Fo.
      eexists. split; [| split; [| left; exists n, numeral; split_and!]].
      * erewrite io_bind_done; [reflexivity |].
        unfold try_except.
        erewrite io_bind_done; [| reflexivity].
        unfold py_int. rewrite En.
        erewrite io_bind_done; [| reflexivity].
        erewrite io_bind_done; [| apply call_return; exact E2].
        reflexivity.
      * exact Ff.
      * done.
      * lia.
      * lia.
      * exact Ec.
      * exact Hl.
      * cbn in *. by rewrite Fo, Hout, <- app_assoc.
    + assert (Ec : DecimalToRomanConverter.convert (VInt n) = Raise OutOfRange)
        by (apply convert_out_of_range; lia).
      specialize (Herr _ Ec).
      eexists. split; [| split; [| right; split_and!]].
      * erewrite io_bind_done; [reflexivity |].
        unfold try_except.
        erewrite io_bind_done; [| reflexivity].
        unfold py_int. rewrite En.
        erewrite io_bind_done; [| reflexivity].
        unfold mbind at 1, IO_bind, io_bind.
        erewrite call_raise by exact Herr. reflexivity.
      * done.
      * right. exists n. split; [done | lia].
      * exact Hrs1.
      * cbn in *. by rewrite Hout, <- app_assoc.
  - eexists. split; [| split; [| right; split_and!]].
    + erewrite io_bind_done; [reflexivity |].
      unfold try_except.
      erewrite io_bind_done; [| reflexivity].
      unfold py_int. rewrite En. reflexivity.
    + done.
    + by left.
    + exact Hrs1.
    + cbn in *. by rewrite Hout, <- app_assoc.
Qed.

Lemma menu_decimal_conversion_witness :
  ledger fresh_world fresh_system = Some []
  /\ exists w',
       turn ascii_upper ascii_int fresh_system
         (mkConsole [lit "2"; lit "1994"] fresh_world)
       = (Done Continue, mkConsole [] w')
       /\ files w' = files fresh_world
       /\ ((exists n numeral,
              ascii_int (lit "1994") = Some n /\ 1 <= n <= 3999
              /\ decimalToRoman n = Return (VStr numeral)
              /\ ledger w' fresh_system
                 = Some ([] ++ [mkRecord (VInt n) (VStr numeral)
                                  (VStr (lit "decimal"))])
              /\ stdout w'
                 = stdout fresh_world ++ decimal_prompts
                     ++ [str_of_int n ++ lit " = " ++ numeral])
           \/ ((ascii_int (lit "1994") = None
                \/ exists n, ascii_int (lit "1994") = Some n
                             /\ (n <= 0 \/ 4000 <= n))
               /\ ledger w' fresh_system = Some []
               /\ stdout w'
                  = stdout fresh_world ++ decimal_prompts
                      ++ [lit "Invalid number! Enter an integer between 1 and 3999."])).
Proof.
  assert (H : ledger fresh_world fresh_system = Some []) by reflexivity.
  split; [exact H |].
  exact (menu_decimal_conversion ascii_upper ascii_int fresh_system
           fresh_world [] (lit "1994") [] H).
Defined.

Lemma print_records (line : record -> str) items : forall rs w,
  Forall2 (fun a d => heap w !! a = Some (ODict d)) items rs ->
  for_eachM (fun a => d ← get_dict a; print (line d)) items w
  = (Return tt, mkWorld (heap w) (files w) (stdout w ++ (line <$> rs))).
Proof.
  induction items as [| a items IH]; intros rs w H.
  - apply Forall2_nil_inv_l in H as ->. cbn. rewrite app_nil_r.
    by destruct w.
  - apply Forall2_cons_inv_l in H as (d & rs' & Ha & H & ->).
    cbn [for_eachM]. unfold mbind'.
    erewrite run_bind; [| unfold get_dict, dict_at; by rewrite Ha].
    unfold print at 1. rewrite (IH rs') by exact H.
    cbn. by rewrite <- app_assoc.
Qed.

Section ViewHistory.

Variable sys : ConversionSystem.t.

(** The history view: a heading and one line for each record. *)
Lemma view_history ins w rs :
  ledger w sys = Some rs ->
  exists items,
    (_ ← call (print ([LF] ++ lit "Conversion History:"));
     snapshot ← call (ConversionHistory.get_history
                        (ConversionSystem.history sys));
     items ← call (list_items snapshot);
     _ ← call (for_eachM (fun a => d ← get_dict a; print (history_line d))
                 items);
     io_ret Continue) (mkConsole ins w)
    = (Done Continue,
       mkConsole ins
         (mkWorld (heap w ++ [OList items]) (files w)
            (stdout w ++ [[LF] ++ lit "Conversion History:"]
               ++ (history_line <$> rs))))
    /\ holds (heap w ++ [OList items])
         (ConversionHistory._history (ConversionSystem.history sys)) rs.
Proof.
  intros Hrs.
  erewrite io_bind_done; [| reflexivity]. cbn [now stdin print snd].
  set (w1 := mkWorld _ _ _).
  assert (Hh : holds (heap w1)
                 (ConversionHistory._history (ConversionSystem.history sys)) rs)
    by (by apply records_at_holds).
  destruct (get_history_holds (ConversionSystem.history sys) w1 rs Hh)
    as (items & E & Hl & (items' & Hl' & H') & _).
  assert (items' = items) as ->.
  { cbn in Hl'. rewrite lookup_app_r, Nat.sub_diag in Hl' by done.
    by injection Hl'. }
  exists items. split; [| by apply holds_alloc].
  erewrite io_bind_done; [| apply call_return, E].
  erewrite io_bind_done;
    [| apply call_return; unfold list_items, items_at; cbn;
       by rewrite lookup_app_r, Nat.sub_diag].
  erewrite io_bind_done;
    [| apply call_return, (print_records history_line items rs); exact H'].
  cbn. by rewrite <- !app_assoc.
Qed.

End ViewHistory.

(** X24: the history view.  After the choice [3] the menu prints a
    heading and one line for each record of the ledger, in order: the
    line [save_to_txt] writes for the record, without its line end.  The
    ledger and the files are as they were, and the session goes on. *)
Theorem menu_view_history (upper : str -> str)
    (int_of_str : str -> option Z) (sys : ConversionSystem.t) (w : world)
    (rs : list record) (rest : list str) :
  ledger w sys = Some rs ->
  exists w',
    turn upper int_of_str sys (mkConsole (lit "3" :: rest) w)
    = (Done Continue, mkConsole rest w')
    /\ files w' = files w
    /\ ledger w' sys = Some rs
    /\ stdout w'
       = stdout w ++ menu
           ++ [lit "Select an option (1-8): ";
               [LF] ++ lit "Conversion History:"]
           ++ (history_line <$> rs)
    /\ ConversionSystem.txt_line <$> rs
       = (fun line => line ++ [LF]) <$> (history_line <$> rs).
Proof.
  intros Hrs. unfold turn. rewrite turn_choice.
  rewrite !bool_decide_eq_false_2 by done.
  rewrite bool_decide_eq_true_2 by done.
  set (w1 := mkWorld _ _ _).
  destruct (view_history sys rest w1 rs Hrs) as (items & E & Hh).
  eexists. split_and!.
  - exact E.
  - done.
  - by apply records_at_holds.
  - cbn. by rewrite <- !app_assoc.
  - rewrite <- list_fmap_compose. apply list_fmap_ext. intros _ d _.
    unfold ConversionSystem.txt_line, history_line, compose.
    by repeat (rewrite <- app_assoc; cbn [app]).
Qed.

Lemma menu_view_history_witness :
  ledger sample_world fresh_system = Some sample_records
  /\ exists w',
       turn ascii_upper ascii_int fresh_system
         (mkConsole [lit "3"] sample_world)
       = (Done Continue, mkConsole [] w')
       /\ files w' = files sample_world
       /\ ledger w' fresh_system = Some sample_records
       /\ stdout w'
          = stdout sample_world ++ menu
              ++ [lit "Select an option (1-8): ";
                  [LF] ++ lit "Conversion History:"]
              ++ (history_line <$> sample_records)
       /\ ConversionSystem.txt_line <$> sample_records
          = (fun line => line ++ [LF]) <$> (history_line <$> sample_records).
Proof.
  assert (H : ledger sample_world fresh_system = Some sample_records)
    by reflexivity.
  split; [exact H |].
  exact (menu_view_history ascii_upper ascii_int fresh_system sample_world
           sample_records [] H).
Defined.

(** X25: saving through the menu.  After the choice [4] or [5] the next
    line is the name of the file, and an empty line stands for
    [conversions.csv] or [conversions.txt].  For a ledger whose fields
    can be written as text, and a name that is valid text and can be
    opened for writing (as every name can in the model; the menu has no
    handler for a failure of [open], which ends the session), the ledger
    is written to that file in the tabular or the text format, the
    ledger and the other files are as they were, and the session goes
    on. *)
Theorem menu_save (upper : str -> str) (int_of_str : str -> option Z)
    (sys : ConversionSystem.t) (w : world) (rs : list record)
    (line : str) (rest : list str) :
  ledger w sys = Some rs ->
  Forall renders_record rs ->
  valid_text line ->
  (exists w',
     turn upper int_of_str sys (mkConsole (lit "4" :: line :: rest) w)
     = (Done Continue, mkConsole rest w')
     /\ files w'
        = <[or_default line (lit "conversions.csv") := csv_file rs]> (files w)
     /\ ledger w' sys = Some rs)
  /\ (exists w',
        turn upper int_of_str sys (mkConsole (lit "5" :: line :: rest) w)
        = (Done Continue, mkConsole rest w')
        /\ files w'
           = <[or_default line (lit "conversions.txt") := txt_file rs]>
               (files w)
        /\ ledger w' sys = Some rs).
Proof.
  intros Hrs _ _. split.
  - unfold turn. rewrite turn_choice.
    rewrite !bool_decide_eq_false_2 by done.
    rewrite bool_decide_eq_true_2 by done.
    erewrite io_bind_done; [| reflexivity]. cbn [now stdin print snd].
    set (w1 := mkWorld _ _ _).
    destruct (save_exact sys (or_default line (lit "conversions.csv"))
                (csv.writerow (VStr <$> ConversionSystem.fieldnames))
                (csv.writerow ∘ ConversionSystem._dict_to_list) w1 rs Hrs)
      as (items & E & H).
    eexists. split_and!.
    + erewrite io_bind_done; [reflexivity |]. apply call_return. exact E.
    + done.
    + by apply records_at_holds.
  - unfold turn. rewrite turn_choice.
    rewrite !bool_decide_eq_false_2 by done.
    rewrite bool_decide_eq_true_2 by done.
    erewrite io_bind_done; [| reflexivity]. cbn [now stdin print snd].
    set (w1 := mkWorld _ _ _).
    destruct (save_exact sys (or_default line (lit "conversions.txt"))
                txt_banner ConversionSystem.txt_line w1 rs Hrs)
      as (items & E & H).
    eexists. split_and!.
    + erewrite io_bind_done; [reflexivity |]. apply call_return.
      rewrite <- E. unfold ConversionSystem.save_to_txt.
      unfold mbind, M_bind, mbind', open_w, file_write. cbn.
      rewrite !lookup_insert_eq. cbn. rewrite !insert_insert_eq.
      reflexivity.
    + done.
    + by apply records_at_holds.
Qed.

Lemma menu_save_witness :
  ledger sample_world fresh_system = Some sample_records
  /\ Forall renders_record sample_records
  /\ valid_text []
  /\ (exists w',
        turn ascii_upper ascii_int fresh_system
          (mkConsole [lit "4"; []] sample_world)
        = (Done Continue, mkConsole [] w')
        /\ files w'
           = <[or_default [] (lit "conversions.csv")
               := csv_file sample_records]> (files sample_world)
        /\ ledger w' fresh_system = Some sample_records)
  /\ (exists w',
        turn ascii_upper ascii_int fresh_system
          (mkConsole [lit "5"; []] sample_world)
        = (Done Continue, mkConsole [] w')
        /\ files w'
           = <[or_default [] (lit "conversions.txt")
               := txt_file sample_records]> (files sample_world)
        /\ ledger w' fresh_system = Some sample_records).
Proof.
  assert (H : ledger sample_world fresh_system = Some sample_records)
    by reflexivity.
  assert (H2 : Forall renders_record sample_records).
  { repeat constructor; try reflexivity; by_decide. }
  assert (H3 : valid_text []) by by_decide.
  split; [exact H |]. split; [exact H2 |]. split; [exact H3 |].
  exact (menu_save ascii_upper ascii_int fresh_system sample_world
           sample_records [] [] H H2 H3).
Defined.

(** ** How a session ends *)

Section IoOk.

Variable hist : loc.

Lemma io_ok_ret {A} P (a : A) : io_ok hist P 0 (io_ret a).
Proof. intros c rs H. cbn. split; [by exists rs | lia]. Qed.

Lemma io_ok_bind {A B} P k1 k2 (m : IO A) (f : A -> IO B) :
  io_ok hist P k1 m -> (forall a, io_ok hist P k2 (f a)) ->
  io_ok hist P (k1 + k2) (m ≫= f).
Proof.
  intros Hm Hf c rs H. unfold mbind, IO_bind, io_bind.
  destruct (Hm c rs H) as ((rs1 & H1) & Hl & Hr).
  destruct (m c) as [[a | [e |] |] c1]; cbn in *; try by eauto.
  destruct (Hf a c1 rs1 H1) as (H2 & Hl2 & Hr2). split; [done |].
  split; [lia |].
  destruct (f a c1) as [[b | [e |] |] c2]; cbn in *; try done. lia.
Qed.

Lemma io_ok_weaken {A} (P Q : exn -> Prop) k k' (m : IO A) :
  io_ok hist P k m -> (k' <= k)%nat -> (forall e, P e -> Q e) ->
  io_ok hist Q k' m.
Proof.
  intros Hm Hk HP c rs H. destruct (Hm c rs H) as (H1 & Hl & Hr).
  split; [done |]. split; [done |].
  destruct (m c) as [[a | [e |] |] c1]; cbn in *; try done; [lia | auto].
Qed.

Lemma io_ok_call {A} P (m : M A) :
  finishes hist P m -> preserving hist m -> io_ok hist P 0 (call m).
Proof.
  intros Hf Hp c rs H. unfold call.
  specialize (Hf (now c) rs H).
  destruct (Hp (now c) hist rs H) as (more & H1 & _).
  destruct (m (now c)) as [[a | e |] w1]; cbn in *;
    (split; [by eauto |]); (split; [lia |]); [lia | done | done].
Qed.

Lemma io_ok_input P prompt : io_ok hist P 1 (input_line prompt).
Proof.
  intros c rs H. unfold input_line.
  destruct (stdin c) as [| line rest]; cbn; (split; [by eauto |]);
    (split; [lia |]); [done | lia].
Qed.

Lemma io_ok_try {A} (P' P : exn -> Prop) (body handler : IO A) caught :
  io_ok hist P' 0 body -> io_ok hist P 0 handler ->
  (forall e, P' e -> caught e = false -> P e) ->
  io_ok hist P 0 (try_except body caught handler).
Proof.
  intros Hb Hh HP c rs H. unfold try_except.
  destruct (Hb c rs H) as ((rs1 & H1) & Hl & Hr).
  destruct (body c) as [[a | [e |] |] c1]; cbn in *; try by eauto.
  destruct (caught e) eqn:Ec;
    [| cbn; split; [by eauto | split; [done | by apply HP]]].
  destruct (Hh c1 rs1 H1) as (H2 & Hl2 & Hr2). split; [done |].
  split; [lia |].
  destruct (handler c1) as [[b | [e' |] |] c2]; cbn in *; try done. lia.
Qed.

End IoOk.

Section Session.

Variable upper : str -> str.
Variable int_of_str : str -> option Z.
Variable sys : ConversionSystem.t.

Local Abbreviation hist :=
  (ConversionHistory._history (ConversionSystem.history sys)).

Lemma finishes_weaken {A} (P Q : exn -> Prop) (m : M A) :
  finishes hist P m -> (forall e, P e -> Q e) -> finishes hist Q m.
Proof.
  intros Hm HP w rs H. specialize (Hm w rs H).
  destruct (m w).1; cbn in *; auto.
Qed.

Lemma finishes_convert_roman text :
  finishes hist (fun e => is_KeyError e = true)
    (ConversionSystem.convert sys (VStr text) (lit "roman")).
Proof.
  intros w rs H. apply records_at_holds in H.
  pose proof (convert_known sys w rs (VStr text) (lit "roman")
                RomanToDecimalConverter.convert H eq_refl) as [Hok Herr].
  destruct (decide (Forall roman_symbol text)) as [Hsym | Hsym].
  - destruct (Hok _ (convert_symbols text Hsym)) as (w' & -> & _). done.
  - destruct (convert_invalid text Hsym) as (c & _ & _ & Ec).
    by rewrite (Herr _ Ec).
Qed.

Lemma finishes_convert_decimal n :
  finishes hist (fun e => is_ValueError e = true)
    (ConversionSystem.convert sys (VInt n) (lit "decimal")).
Proof.
  intros w rs H. apply records_at_holds in H.
  pose proof (convert_known sys w rs (VInt n) (lit "decimal")
                DecimalToRomanConverter.convert H eq_refl) as [Hok Herr].
  destruct (decide (1 <= n <= 3999)) as [Hn | Hn].
  - destruct (convert_in_range n Hn) as [numeral Ec].
    destruct (Hok _ Ec) as (w' & -> & _). done.
  - assert (Ec : DecimalToRomanConverter.convert (VInt n) = Raise OutOfRange)
      by (apply convert_out_of_range; lia).
    by rewrite (Herr _ Ec).
Qed.

Lemma finishes_save_to_csv filename :
  finishes hist (fun _ => False) (ConversionSystem.save_to_csv sys filename).
Proof.
  intros w rs H. apply records_at_holds in H.
  destruct (save_exact sys filename
              (csv.writerow (VStr <$> ConversionSystem.fieldnames))
              (csv.writerow ∘ ConversionSystem._dict_to_list) w rs H)
    as (items & E & _).
  assert (E' : (ConversionSystem.save_to_csv sys filename w).1 = Return tt)
    by exact (f_equal fst E).
  by rewrite E'.
Qed.

Lemma finishes_save_to_txt filename :
  finishes hist (fun _ => False) (ConversionSystem.save_to_txt sys filename).
Proof.
  intros w rs H. apply records_at_holds in H.
  destruct (save_exact sys filename txt_banner ConversionSystem.txt_line
              w rs H) as (items & E & _).
  replace (ConversionSystem.save_to_txt sys filename w)
    with (Return tt,
          mkWorld (heap w ++ [OList items])
            (<[filename := txt_banner
                 ++ concat (ConversionSystem.txt_line <$> rs)]> (files w))
            (stdout w ++ [lit "History saved to " ++ filename])); [done |].
  rewrite <- E. unfold ConversionSystem.save_to_txt.
  unfold mbind, M_bind, mbind', open_w, file_write. cbn.
  rewrite !lookup_insert_eq. cbn. rewrite !insert_insert_eq.
  reflexivity.
Qed.

Lemma io_ok_view :
  io_ok hist load_error 0
    (_ ← call (print ([LF] ++ lit "Conversion History:"));
     snapshot ← call (ConversionHistory.get_history
                        (ConversionSystem.history sys));
     items ← call (list_items snapshot);
     _ ← call (for_eachM (fun a => d ← get_dict a; print (history_line d))
                 items);
     io_ret Continue).
Proof.
  intros [ins w] rs H. cbn [now] in H. apply records_at_holds in H.
  destruct (view_history sys ins w rs H) as (items & -> & Hh).
  cbn. split; [by eauto | lia].
Qed.

Lemma io_ok_print P line : io_ok hist P 0 (call (print line)).
Proof.
  apply io_ok_call; [apply finishes_print | apply preserving_print].
Qed.

(** A method called with a file name read from the input. *)
Lemma io_ok_with_filename P prompt default (m : str -> M unit) :
  (forall filename, finishes hist P (m filename)) ->
  (forall filename, preserving hist (m filename)) ->
  (forall e, P e -> load_error e) ->
  io_ok hist load_error 0
    (line ← input_line prompt;
     _ ← call (m (or_default line default));
     io_ret Continue).
Proof.
  intros Hf Hp HP.
  apply (io_ok_weaken hist load_error load_error (1 + (0 + 0)));
    [| lia | done].
  apply io_ok_bind; [apply io_ok_input |]. intros line.
  apply io_ok_bind; [| intros; apply io_ok_ret].
  eapply io_ok_weaken; [apply io_ok_call; [apply Hf | apply Hp] | lia | done].
Qed.

Lemma preserving_convert v conversion_type :
  preserving hist (ConversionSystem.convert sys v conversion_type).
Proof.
  intros w. pose proof (preserving_perform sys (Convert v conversion_type) w)
    as H. cbn [perform] in H. unfold mbind, M_bind, mbind' in H.
  by destruct (ConversionSystem.convert sys v conversion_type w) as [[] ?].
Qed.

Lemma io_ok_turn : io_ok hist load_error 1 (turn upper int_of_str sys).
Proof.
  unfold turn.
  apply (io_ok_bind hist load_error 0 1).
  { apply io_ok_call.
    - intros w rs _. by rewrite print_all.
    - apply preserving_for_eachM. intros line. apply preserving_print. }
  intros _. apply (io_ok_bind hist load_error 1 0); [apply io_ok_input |].
  intros choice.
  destruct (bool_decide (choice = lit "1")).
  { apply (io_ok_weaken hist load_error load_error (1 + (0 + 0)));
      [| lia | done].
    apply io_ok_bind; [apply io_ok_input |]. intros line. cbn zeta.
    apply io_ok_bind; [| intros; apply io_ok_ret].
    apply (io_ok_try hist (fun e => is_KeyError e = true));
      [| apply io_ok_print | congruence].
    apply (io_ok_bind hist _ 0 0); [| intros; apply io_ok_print].
    apply io_ok_call;
      [apply finishes_convert_roman | apply preserving_convert]. }
  destruct (bool_decide (choice = lit "2")).
  { apply (io_ok_bind hist load_error 0 0); [| intros; apply io_ok_ret].
    apply (io_ok_try hist (fun e => is_ValueError e = true));
      [| apply io_ok_print | congruence].
    apply (io_ok_weaken hist (fun e => is_ValueError e = true)
             (fun e => is_ValueError e = true) (1 + (0 + (0 + 0))));
      [| lia | done].
    apply io_ok_bind; [apply io_ok_input |]. intros line.
    apply io_ok_bind.
    { unfold py_int. destruct (int_of_str line); [apply io_ok_ret |].
      apply io_ok_call; [by apply finishes_raise | apply preserving_raise]. }
    intros num.
    apply io_ok_bind; [| intros; apply io_ok_print].
    apply io_ok_call;
      [apply finishes_convert_decimal | apply preserving_convert]. }
  destruct (bool_decide (choice = lit "3")); [apply io_ok_view |].
  destruct (bool_decide (choice = lit "4")).
  { apply (io_ok_with_filename (fun _ => False));
      [apply finishes_save_to_csv
      | intros f; apply (preserving_perform sys (SaveCsv f)) | done]. }
  destruct (bool_decide (choice = lit "5")).
  { apply (io_ok_with_filename (fun _ => False));
      [apply finishes_save_to_txt
      | intros f; apply (preserving_perform sys (SaveTxt f)) | done]. }
  destruct (bool_decide (choice = lit "6")).
  { apply (io_ok_with_filename (reader_error false));
      [apply finishes_load_from_csv
      | intros f; apply (preserving_perform sys (LoadCsv f)) |].
    intros e [-> | [_ H]]; [by left | right; by left]. }
  destruct (bool_decide (choice = lit "7")).
  { apply (io_ok_with_filename unpack_error);
      [apply finishes_load_from_txt
      | intros f; apply (preserving_perform sys (LoadTxt f)) |].
    intros e H. right. by right. }
  destruct (bool_decide (choice = lit "8"));
    (apply (io_ok_bind hist load_error 0 0);
     [apply io_ok_print | intros; apply io_ok_ret]).
Qed.

(** The loop ends when it has more fuel than the input has lines. *)
Lemma loop_ends fuel : forall c rs,
  holds (heap (now c)) hist rs ->
  (length (stdin c) < fuel)%nat ->
  session_end (loop upper int_of_str fuel sys c).1.
Proof.
  induction fuel as [| fuel IH]; intros c rs H Hlen; [lia |].
  cbn [loop]. unfold mbind, IO_bind, io_bind.
  destruct (io_ok_turn c rs H) as ((rs1 & H1) & _ & Hr).
  destruct (turn upper int_of_str sys c) as [[[] | [e |] |] c1];
    cbn in *; try done.
  apply (IH c1 rs1 H1). lia.
Qed.

End Session.

(** X26: how a session ends.  Let every file that is there hold valid
    text, every line of the (finite) input be valid text, and the
    numeral made of a line be short enough for its value to be printed.
    Then the program ends: with the choice to exit, with [EOFError] when
    the input has no line for an [input()], or with an exception of one
    of the two loaders, which no handler catches.  No exception of a
    conversion ends it: the [KeyError] of a numeral and the
    [ValueError] of a number are caught.  (In the file system of the
    model every name can be opened for writing, and a file that is there
    can be opened for reading; the menu has no handler for another
    failure of [open], which ends the session too.) *)
Theorem session_ends (upper : str -> str) (int_of_str : str -> option Z)
    (c : console) :
  map_Forall (fun _ content => valid_text content) (files (now c)) ->
  Forall valid_text (stdin c) ->
  Forall (fun line =>
            1000 * Z.of_nat (length (upper (strip line))) < 10 ^ 4300)
    (stdin c) ->
  session_end (main upper int_of_str c).1.
Proof.
  intros _ _ _. destruct c as [ins w]. unfold main.
  destruct (init_holds w) as (sys & E & H).
  erewrite io_bind_done; [| apply call_return, E].
  eapply loop_ends; [exact H | cbn; lia].
Qed.

Lemma session_ends_witness :
  map_Forall (fun _ content => valid_text content) (files saved_world)
  /\ Forall valid_text
       [lit "1"; lit "xiv"; lit "6"; lit "h.txt"; lit "8"]
  /\ Forall (fun line =>
               1000 * Z.of_nat (length (ascii_upper (strip line)))
               < 10 ^ 4300)
       [lit "1"; lit "xiv"; lit "6"; lit "h.txt"; lit "8"]
  /\ session_end
       (main ascii_upper ascii_int
          (mkConsole [lit "1"; lit "xiv"; lit "6"; lit "h.txt"; lit "8"]
             saved_world)).1.
Proof.
  assert (H1 : map_Forall (fun _ content => valid_text content)
                 (files saved_world)) by by_decide.
  assert (H2 : Forall valid_text
                 [lit "1"; lit "xiv"; lit "6"; lit "h.txt"; lit "8"])
    by by_decide.
  assert (H3 : Forall (fun line =>
                         1000 * Z.of_nat (length (ascii_upper (strip line)))
                         < 10 ^ 4300)
                 [lit "1"; lit "xiv"; lit "6"; lit "h.txt"; lit "8"])
    by by_decide.
  split; [exact H1 |]. split; [exact H2 |]. split; [exact H3 |].
  exact (session_ends ascii_upper ascii_int
           (mkConsole [lit "1"; lit "xiv"; lit "6"; lit "h.txt"; lit "8"]
              saved_world) H1 H2 H3).
Defined.

(** A session that ends with an exception: the history is saved in the
    text format, and that file is loaded as a tabular one. *)
Example session_load_other_format :
  (session [lit "1"; lit "xiv"; lit "5"; []; lit "6"; lit "conversions.txt";
            lit "8"]).1
  = Stopped (Uncaught (KeyError (lit "input"))).
Proof. vm_compute. reflexivity. Qed.

Example session_conversions :
  (session [lit "1"; lit "abc"; lit "2"; lit "4000"; lit "2"; lit "nine";
            lit "9"; lit "8"]).1 = Done tt
  /\ (session [lit "1"; lit " mcmxciv "; lit "2"]).1 = Stopped EOFError.
Proof. split; vm_compute; reflexivity. Qed.
